(** * fivem-pocket-base: the PocketBase supervisor, embedded and verified

    A shallow embedding of [utils/process-utils.js], [utils/config-loader.js],
    [utils/server.js] and the readiness part of [client.js].  JavaScript
    numbers that the program only ever uses as integers (ports, counts,
    milliseconds, exit codes) are [Z].  A JavaScript string is the [string]
    of its UTF-8 encoding: the texts of this program come out of
    [readFileSync(path, "utf8")] and [toString()], which decode UTF-8 (bytes
    that do not decode arrive as U+FFFD), and go to the disk through
    [writeFileSync], which encodes it, so that the encoding of a text loses
    nothing.  A promise is the state it ends in (pending, fulfilled or
    rejected); the events a callback reacts to are fed to it as a list, in
    the order the event loop delivers them; what the program learns from
    outside (the file system, child processes, the network, the clock) is
    an argument of the function that asks. *)

From Stdlib Require Import ZArith String Ascii List Lia Bool DecimalString.
From Stdlib Require Import Permutation Sorted.
Import ListNotations.
Open Scope string_scope.
Open Scope list_scope.
Open Scope Z_scope.

(* ====================================================================== *)
(** * Part I: definitions                                                   *)
(* ====================================================================== *)

(** ** JavaScript helpers *)

(** Template-literal interpolation [${n}] of an integer-valued number
    (of less than 22 digits: JavaScript writes larger ones with an
    exponent). *)
Definition string_of_Z (z : Z) : string := NilZero.string_of_int (Z.to_int z).

(** [str.startsWith(p)] *)
Definition startsWith (p s : string) : bool := String.prefix p s.

(** [str.includes(p)] *)
Fixpoint includes (p s : string) : bool :=
  String.prefix p s ||
  match s with
  | EmptyString => false
  | String _ s' => includes p s'
  end.

(** JavaScript truthiness of a string: [""] is falsy. *)
Definition truthy (s : string) : bool := negb (s =? "")%string.

(** The white space of JavaScript, which [\s] matches and [trim]
    removes: tab, line feed, vertical tab, form feed, carriage return and
    space, of one byte; U+00A0, of two; and U+1680, U+2000 to U+200A,
    U+2028, U+2029, U+202F, U+205F, U+3000 and U+FEFF, of three. *)
Definition isAsciiSpace (c : ascii) : bool :=
  let n := nat_of_ascii c in
  ((9 <=? n) && (n <=? 13) || (n =? 32))%nat.

Definition isSpace2 (a b : ascii) : bool :=
  ((nat_of_ascii a =? 194) && (nat_of_ascii b =? 160))%nat.

Definition isSpace3 (a b c : ascii) : bool :=
  let x := nat_of_ascii a in
  let y := nat_of_ascii b in
  let z := nat_of_ascii c in
  ((x =? 225) && (y =? 154) && (z =? 128)
   || (x =? 226) && (y =? 128)
      && ((128 <=? z) && (z <=? 138) || (z =? 168) || (z =? 169) || (z =? 175))
   || (x =? 226) && (y =? 129) && (z =? 159)
   || (x =? 227) && (y =? 128) && (z =? 128)
   || (x =? 239) && (y =? 187) && (z =? 191))%nat.

(** The longest run of white space [s] starts with, and the rest. *)
Fixpoint spanSpace (s : string) : string * string :=
  match s with
  | EmptyString => (EmptyString, EmptyString)
  | String a s1 =>
      if isAsciiSpace a
      then let (run, rest) := spanSpace s1 in (String a run, rest)
      else
        match s1 with
        | String b s2 =>
            if isSpace2 a b
            then let (run, rest) := spanSpace s2 in
                 (String a (String b run), rest)
            else
              match s2 with
              | String c s3 =>
                  if isSpace3 a b c
                  then let (run, rest) := spanSpace s3 in
                       (String a (String b (String c run)), rest)
                  else (EmptyString, s)
              | EmptyString => (EmptyString, s)
              end
        | EmptyString => (EmptyString, s)
        end
  end.

(** [s] is white space from its start to its end. *)
Definition allWhite (s : string) : bool :=
  match spanSpace s with
  | (_, EmptyString) => true
  | _ => false
  end.

(** The bytes a white space character can start with. *)
Definition startsSpace (c : ascii) : bool :=
  let n := nat_of_ascii c in
  (isAsciiSpace c || (n =? 194) || (n =? 225) || (n =? 226) || (n =? 227)
   || (n =? 239))%nat.

Definition isDigit (c : ascii) : bool :=
  let n := nat_of_ascii c in ((48 <=? n) && (n <=? 57))%nat.

Definition isAlpha (c : ascii) : bool :=
  let n := nat_of_ascii c in
  ((65 <=? n) && (n <=? 90) || (97 <=? n) && (n <=? 122))%nat.

Definition isNot (x : ascii) (c : ascii) : bool := negb (Ascii.eqb c x).

Definition trimStart (s : string) : string := snd (spanSpace s).

(** The text up to the white space it ends with. *)
Fixpoint trimEnd (s : string) : string :=
  match s with
  | EmptyString => EmptyString
  | String c s' => if allWhite s then EmptyString else String c (trimEnd s')
  end.

(** [str.trim()] *)
Definition trim (s : string) : string := trimEnd (trimStart s).

(** [str.replace(/[:.]/g, "-")] *)
Fixpoint dashes (s : string) : string :=
  match s with
  | EmptyString => EmptyString
  | String c s' =>
      String (if Ascii.eqb c ":" || Ascii.eqb c "." then "-"%char else c)
             (dashes s')
  end.

(** [str.slice(0, -n)] *)
Definition dropLast (n : nat) (s : string) : string :=
  String.substring 0 (String.length s - n) s.

(** [array.slice(start)] *)
Definition slice {A : Type} (start : Z) (l : list A) : list A :=
  if start <? 0
  then skipn (Z.to_nat (Z.max (Z.of_nat (length l) + start) 0)) l
  else skipn (Z.to_nat start) l.

(** [array.sort(compare)] is a stable sort: [a] is put before [b] when
    [compare(a, b) < 0], after it when [compare(a, b) > 0], and two
    elements that compare equal keep their order; a comparison that gives
    [NaN] counts as 0.  With a comparison that is not consistent (as when
    some of the elements only compare to [NaN]) the language leaves the
    order to the implementation, and this is one of them: what is proved
    about the order below is about lists on which the comparison is
    consistent. *)
Fixpoint insertBy {A : Type} (compare : A -> A -> Z) (x : A) (l : list A)
  : list A :=
  match l with
  | [] => [x]
  | y :: l' =>
      if compare x y <=? 0 then x :: l else y :: insertBy compare x l'
  end.

Definition sortBy {A : Type} (compare : A -> A -> Z) (l : list A) : list A :=
  fold_right (insertBy compare) [] l.

(** ** Regular expressions

    The configuration loader edits [config.lua] with regular expressions.
    Every pattern it uses is a sequence of literals, greedy character-class
    repetitions and an alternative of two literals; in each of them the
    item after a repetition starts with a character outside the class (or
    the repetition is last), so that the leftmost match the backtracking
    engine of JavaScript finds is the one a single greedy pass finds.
    The literals and the classes other than [\s] are ASCII, which in
    UTF-8 is never part of a longer character, and every pattern starts
    with a literal: matching byte by byte is matching character by
    character. *)

Inductive Atom : Type :=
| Lit (s : string)                (* the characters of [s] *)
| Spaces                          (* [\s*] *)
| Star (cls : ascii -> bool)      (* [cls*] *)
| Plus (cls : ascii -> bool)      (* [cls+] *)
| Alt (a b : string).             (* [(a|b)] *)

(** The longest prefix of [s] whose characters are in [cls], and the rest. *)
Fixpoint span (cls : ascii -> bool) (s : string) : string * string :=
  match s with
  | EmptyString => (EmptyString, EmptyString)
  | String c s' =>
      if cls c
      then let (run, rest) := span cls s' in (String c run, rest)
      else (EmptyString, s)
  end.

(** [s] without its prefix [p]. *)
Fixpoint stripPrefix (p s : string) : option string :=
  match p, s with
  | EmptyString, _ => Some s
  | String a p', String b s' =>
      if Ascii.eqb a b then stripPrefix p' s' else None
  | String _ _, EmptyString => None
  end.

Definition matchAtom (a : Atom) (s : string) : option (string * string) :=
  match a with
  | Lit l => option_map (fun rest => (l, rest)) (stripPrefix l s)
  | Spaces => Some (spanSpace s)
  | Star cls => Some (span cls s)
  | Plus cls =>
      match span cls s with
      | (EmptyString, _) => None
      | found => Some found
      end
  | Alt a b =>
      match stripPrefix a s with
      | Some rest => Some (a, rest)
      | None => option_map (fun rest => (b, rest)) (stripPrefix b s)
      end
  end.

(** Match the atoms one after the other at the start of [s]: the text each
    atom consumed, and what is left of [s]. *)
Fixpoint matchSeq (atoms : list Atom) (s : string)
  : option (list string * string) :=
  match atoms with
  | [] => Some ([], s)
  | a :: atoms' =>
      match matchAtom a s with
      | None => None
      | Some (seg, rest) =>
          match matchSeq atoms' rest with
          | None => None
          | Some (segs, rest') => Some (seg :: segs, rest')
          end
      end
  end.

(** A pattern: its atoms, and its capture groups as (first atom, number of
    atoms) ranges. *)
Record Pattern : Type := mkPattern {
  atoms : list Atom;
  groups : list (nat * nat)
}.

Definition concatStr (l : list string) : string :=
  fold_right String.append EmptyString l.

Definition captures (p : Pattern) (segs : list string) : list string :=
  map (fun g => concatStr (firstn (snd g) (skipn (fst g) segs))) (groups p).

(** A successful match: the text before it, the matched text, the captures
    and the text after it. *)
Record Match : Type := mkMatch {
  before : string;
  matched : string;
  captured : list string;
  after : string
}.

(** The leftmost match of [p] in [s] ([str.match(p)] for a pattern without
    the [g] flag). *)
Fixpoint search (p : Pattern) (s : string) : option Match :=
  match matchSeq (atoms p) s with
  | Some (segs, rest) =>
      Some (mkMatch EmptyString (concatStr segs) (captures p segs) rest)
  | None =>
      match s with
      | EmptyString => None
      | String c s' =>
          match search p s' with
          | None => None
          | Some m =>
              Some (mkMatch (String c (before m)) (matched m)
                            (captured m) (after m))
          end
      end
  end.

Definition digitValue (c : ascii) : nat := (nat_of_ascii c - 48)%nat.

(** The capture [$n], for [1 <= n <= length caps]. *)
Definition captureRef (caps : list string) (n : nat) : option string :=
  match n with
  | O => None
  | S n' => nth_error caps n'
  end.

(** The replacement text of [str.replace(pattern, template)] for one match
    (GetSubstitution of ECMAScript, without named groups): [$$] is a dollar
    sign, [$&] the matched text, [$`] and [$'] the text before and after
    the match, [$n] and [$nn] a capture when there is one of that number;
    any other [$] stands for itself. *)
Fixpoint getSubstitution (m : Match) (template : string) : string :=
  match template with
  | EmptyString => EmptyString
  | String c rest =>
      if Ascii.eqb c "$" then
        match rest with
        | EmptyString => "$"
        | String d rest1 =>
            if Ascii.eqb d "$" then String "$" (getSubstitution m rest1)
            else if Ascii.eqb d "&" then matched m ++ getSubstitution m rest1
            else if Ascii.eqb d "`" then before m ++ getSubstitution m rest1
            else if Ascii.eqb d "'" then after m ++ getSubstitution m rest1
            else if isDigit d then
              let one :=
                match captureRef (captured m) (digitValue d) with
                | Some cap => cap ++ getSubstitution m rest1
                | None => String "$" (String d (getSubstitution m rest1))
                end in
              match rest1 with
              | String d2 rest2 =>
                  if isDigit d2 then
                    match captureRef (captured m)
                            (10 * digitValue d + digitValue d2) with
                    | Some cap => cap ++ getSubstitution m rest2
                    | None =>
                        if (10 * digitValue d + digitValue d2
                            <=? length (captured m))%nat
                        then String "$" (String d (String d2
                               (getSubstitution m rest2)))
                        else one
                    end
                  else one
              | EmptyString => one
              end
            else String "$" (String d (getSubstitution m rest1))
        end
      else String c (getSubstitution m rest)
  end%string.

(** [str.replace(pattern, template)] for a pattern without the [g] flag:
    the leftmost match is replaced, a string without a match is returned
    as it is. *)
Definition replace (p : Pattern) (template : string) (s : string) : string :=
  match search p s with
  | None => s
  | Some m => (before m ++ getSubstitution m template ++ after m)%string
  end.

(** *** Vocabulary for texts *)

(** Every character of [s] is in [cls]. *)
Fixpoint allChars (cls : ascii -> bool) (s : string) : bool :=
  match s with
  | EmptyString => true
  | String c s' => cls c && allChars cls s'
  end.

(** [s] is empty or starts with a character outside [cls]. *)
Definition stopsRun (cls : ascii -> bool) (s : string) : bool :=
  match s with
  | EmptyString => true
  | String c _ => negb (cls c)
  end.

(** The leftmost match of [p] in [pre ++ rest] starts where [rest]
    starts. *)
Definition firstMatchAt (p : Pattern) (pre rest : string) : Prop :=
  option_map before (search p (pre ++ rest)) = Some pre.

(** How a promise has settled. *)
Inductive Settled (V E : Type) : Type :=
| Resolved (v : V)
| Rejected (e : E).
Arguments Resolved {V E} v.
Arguments Rejected {V E} e.

(** The state of a promise. *)
Inductive Promise (A : Type) : Type :=
| Pending
| Fulfilled (a : A)
| Failed (reason : string).
Arguments Pending {A}.
Arguments Fulfilled {A} a.
Arguments Failed {A} reason.

(* ---------------------------------------------------------------------- *)
(** ** utils/process-utils.js *)

Module ProcessUtils.

(** What [spawnWithTimeout] resolves with; [code] is [null] when the child
    was ended by a signal. *)
Record SpawnResult : Type := mkSpawnResult {
  code : option Z;
  stdout : string;
  stderr : string
}.

(** What the event loop delivers to the callbacks [spawnWithTimeout]
    registers: the events of the child and the two timers. *)
Inductive ChildEvent : Type :=
| StdoutData (data : string)
| StderrData (data : string)
| Close (code : option Z)
| Error (message : string)
| TimeoutElapsed          (* the [timeoutMs] timer is due *)
| GraceElapsed.           (* the 1000 ms timer of the timeout handler is due *)

(** How [spawn(command, args, options)] answers: it throws at once (Node
    validates its arguments before it forks) or hands out a child whose
    events follow. *)
Inductive SpawnOutcome : Type :=
| SpawnThrows (message : string)
| Spawned (events : list ChildEvent).

(** What [stdio] asks for a stream of the child. *)
Inductive Stdio : Type :=
| Pipe
| Ignore
| Inherit.

(** The property [stdio] of the options: one word for the three streams,
    or one for each of them. *)
Inductive StdioOption : Type :=
| AllStreams (mode : Stdio)
| EachStream (stdin stdout stderr : Stdio).

(** The [options] argument, as far as [spawnWithTimeout] depends on it:
    [None] is a property that is not given. *)
Record SpawnOptions : Type := mkSpawnOptions {
  cwd : option string;
  stdio : option StdioOption
}.

(** The streams [stdout] and [stderr] of the child that
    [{ stdio: ["ignore", "pipe", "pipe"], windowsHide: true, ...options }]
    asks for: the options come last and win. *)
Definition stdioOf (options : SpawnOptions) : Stdio * Stdio :=
  match stdio options with
  | None => (Pipe, Pipe)
  | Some (AllStreams mode) => (mode, mode)
  | Some (EachStream _ out err) => (out, err)
  end.

(** The message of the [TypeError] for [childProcess.stdout.on] or
    [childProcess.stderr.on] on a stream that is [null], as the child has
    it when the stream is not a pipe. *)
Definition nullStream : string :=
  "Cannot read properties of null (reading 'on')".

(** The variables the callbacks close over. *)
Record Watch : Type := mkWatch {
  out : string;
  err : string;
  timeoutArmed : bool;
  graceArmed : bool;
  killed : bool;
  signals : list string;
  promise : Promise SpawnResult
}.

(** [resolve(v)] settles a pending promise and is ignored afterwards. *)
Definition resolve {A : Type} (v : A) (p : Promise A) : Promise A :=
  match p with
  | Pending => Fulfilled v
  | settled => settled
  end.

Definition onChildEvent (w : Watch) (ev : ChildEvent) : Watch :=
  match ev with
  | StdoutData data =>
      mkWatch (out w ++ data) (err w) (timeoutArmed w) (graceArmed w)
              (killed w) (signals w) (promise w)
  | StderrData data =>
      mkWatch (out w) (err w ++ data) (timeoutArmed w) (graceArmed w)
              (killed w) (signals w) (promise w)
  | Close code =>
      mkWatch (out w) (err w) false (graceArmed w) (killed w) (signals w)
              (resolve (mkSpawnResult code (out w) (err w)) (promise w))
  | Error message =>
      mkWatch (out w) (err w) false (graceArmed w) (killed w) (signals w)
              (resolve (mkSpawnResult (Some (-1)) (out w) message) (promise w))
  | TimeoutElapsed =>
      if timeoutArmed w then
        if killed w
        then mkWatch (out w) (err w) false (graceArmed w) (killed w)
                     (signals w) (promise w)
        else mkWatch (out w) (err w) false true true
                     (signals w ++ ["SIGTERM"]) (promise w)
      else w
  | GraceElapsed =>
      if graceArmed w then
        if killed w
        then mkWatch (out w) (err w) (timeoutArmed w) false (killed w)
                     (signals w) (promise w)
        else mkWatch (out w) (err w) (timeoutArmed w) false true
                     (signals w ++ ["SIGKILL"]) (promise w)
      else w
  end%string.

Definition watching : Watch := mkWatch "" "" true false false [] Pending.

(** [spawnWithTimeout(command, args, options, timeoutMs)]: the promise it
    returns, after the events given.  An exception of [spawn], and the one
    of registering a listener on a stream that is [null], is thrown inside
    the executor of the promise, which rejects it; no callback of the
    child and no timer is registered then. *)
Definition spawnWithTimeout (command : string) (args : list string)
           (options : SpawnOptions) (timeoutMs : Z) (child : SpawnOutcome)
  : Promise SpawnResult :=
  match child with
  | SpawnThrows message => Failed message
  | Spawned events =>
      match stdioOf options with
      | (Pipe, Pipe) => promise (fold_left onChildEvent events watching)
      | _ => Failed nullStream
      end
  end.

Section RetryWithBackoff.
(** [V] is what [fn] returns, [E] what it throws. *)
Context {V E : Type}.

(** One invocation of [fn]: it returns a value or throws. *)
Inductive Outcome : Type :=
| Returns (v : V)
| Throws (e : E).

(** What one run of [retryWithBackoff] did: how the returned promise
    settled ([Rejected None] is [throw undefined]), how many times [fn]
    was invoked, and the [setTimeout] delays waited between attempts. *)
Record RetryRun : Type := mkRetryRun {
  settled : Settled V (option E);
  calls : nat;
  delays : list Z
}.

(** [fn] is stateful in general: the argument is the number of earlier
    invocations. *)
Variable fn : nat -> Outcome.
Variables maxAttempts baseDelay maxDelay : Z.

(** [Math.min(baseDelay * Math.pow(2, attempt - 1), maxDelay)] *)
Definition backoffDelay (attempt : Z) : Z :=
  Z.min (baseDelay * 2 ^ (attempt - 1)) maxDelay.

(** The [for (let attempt = 1; attempt <= maxAttempts; attempt++)] loop;
    [fuel] counts the iterations left. *)
Fixpoint retryLoop (fuel : nat) (attempt : Z) (lastError : option E)
         (ncalls : nat) (waited : list Z) : RetryRun :=
  match fuel with
  | O => mkRetryRun (Rejected lastError) ncalls waited
  | S fuel' =>
      match fn ncalls with
      | Returns v => mkRetryRun (Resolved v) (S ncalls) waited
      | Throws error =>
          let waited' :=
            if attempt <? maxAttempts
            then waited ++ [backoffDelay attempt]
            else waited in
          retryLoop fuel' (attempt + 1) (Some error) (S ncalls) waited'
      end
  end.

Definition retryWithBackoff : RetryRun :=
  retryLoop (Z.to_nat maxAttempts) 1 None O [].
End RetryWithBackoff.

Arguments Outcome : clear implicits.
Arguments RetryRun : clear implicits.

(** The backoff schedule: the delays after the attempts
    [a, a+1, ..., a+n-1]. *)
Fixpoint delaysFrom (baseDelay maxDelay a : Z) (n : nat) : list Z :=
  match n with
  | O => []
  | S n' => backoffDelay baseDelay maxDelay a
            :: delaysFrom baseDelay maxDelay (a + 1) n'
  end.

(** An operation that throws on its first three invocations. *)
Definition failsThreeTimes (i : nat) : Outcome Z nat :=
  if (i <? 3)%nat then Throws i else Returns 42.

(** The text the [data] events of a child add up to, and its events that
    settle the promise. *)
Fixpoint stdoutOf (events : list ChildEvent) : string :=
  match events with
  | [] => EmptyString
  | StdoutData data :: rest => (data ++ stdoutOf rest)%string
  | _ :: rest => stdoutOf rest
  end.

Fixpoint stderrOf (events : list ChildEvent) : string :=
  match events with
  | [] => EmptyString
  | StderrData data :: rest => (data ++ stderrOf rest)%string
  | _ :: rest => stderrOf rest
  end.

Definition settles (ev : ChildEvent) : bool :=
  match ev with
  | Close _ | Error _ => true
  | _ => false
  end.

Definition quiet (events : list ChildEvent) : Prop :=
  forallb (fun ev => negb (settles ev)) events = true.

(** The time a run spent waiting between its attempts. *)
Definition totalDelay {V E : Type} (run : RetryRun V E) : Z :=
  fold_right Z.add 0 (delays run).

(** The state of the callbacks after the events given. *)
Definition watched (events : list ChildEvent) : Watch :=
  fold_left onChildEvent events watching.

(** Either no signal was sent, and the grace timer is not set; or SIGTERM
    was, which marked the child as killed and used up the timeout. *)
Definition signalled (w : Watch) : Prop :=
  (signals w = [] /\ killed w = false /\ graceArmed w = false)
  \/ (signals w = ["SIGTERM"] /\ killed w = true /\ timeoutArmed w = false).

End ProcessUtils.

(* ---------------------------------------------------------------------- *)
(** ** utils/config-loader.js *)

Module ConfigLoader.

Record SuperuserConfig : Type := mkSuperuser {
  Email : string;
  Password : string
}.

Record MigrationsConfig : Type := mkMigrations {
  AutoApply : bool;
  Dir : string
}.

Record BackupConfig : Type := mkBackup {
  Backup_Enabled : bool;
  OnStartup : bool;
  Schedule : Z;
  KeepLast : Z;
  BackupPrefix : string
}.

Record SMTPConfig : Type := mkSMTP {
  SMTP_Enabled : bool;
  SMTP_Host : string;
  SMTP_Port : Z;
  SMTP_Username : string;
  SMTP_Password : string;
  SMTP_LocalName : string;
  SMTP_TLS : bool
}.

Record S3Config : Type := mkS3 {
  S3_Enabled : bool;
  S3_Bucket : string;
  S3_Region : string;
  S3_Endpoint : string;
  S3_AccessKey : string;
  S3_SecretKey : string;
  S3_ForcePathStyle : bool
}.

Record AdvancedConfig : Type := mkAdvanced {
  Dev : bool;
  AutoMigrate : bool;
  PublicDir : string;
  DataDir : string;
  SMTP : SMTPConfig;
  S3 : S3Config
}.

Record Config : Type := mkConfig {
  ExposeAdmin : bool;
  Host : string;
  Port : Z;
  AutoUpdate : bool;
  Superuser : SuperuserConfig;
  Migrations : MigrationsConfig;
  Backup : BackupConfig;
  Advanced : AdvancedConfig
}.

(** The defaults [load] starts from. *)
Definition defaultConfig : Config :=
  mkConfig false "" 8090 false
    (mkSuperuser "" "")
    (mkMigrations true "pb_migrations")
    (mkBackup false true 0 7 "auto_")
    (mkAdvanced false true "pb_public" "pb_data"
       (mkSMTP false "" 587 "" "" "" true)
       (mkS3 false "" "" "" "" "" false)).

(** The singleton [ConfigLoader]: the parsed configuration (the object
    [load] returns and [server.js] keeps as [config]), the text of
    [config.lua] as it was read, its path, and the text of the file on
    disk, which [writeFileSync] encodes. *)
Record Loader : Type := mkLoader {
  config : Config;
  configContent : string;
  configPath : string;
  persisted : string
}.

Definition dquote : string := String "034" EmptyString.

(** The patterns of the loader, writing Q for the double quote.
    [/(Key\s*=\s* )Q([^Q]* )Q/] *)
Definition credentialPattern (key : string) : Pattern :=
  mkPattern [Lit key; Spaces; Lit "="; Spaces;
             Lit dquote; Star (isNot "034"); Lit dquote]
            [(0, 4); (5, 1)]%nat.

(** [/Key\s*=\s*Q[^Q]*Q/] *)
Definition stringFieldPattern (key : string) : Pattern :=
  mkPattern [Lit key; Spaces; Lit "="; Spaces;
             Lit dquote; Star (isNot "034"); Lit dquote] [].

(** [/Key\s*=\s*\d+/] *)
Definition numberFieldPattern (key : string) : Pattern :=
  mkPattern [Lit key; Spaces; Lit "="; Spaces; Plus isDigit] [].

(** [/Key\s*=\s*(true|false)/] *)
Definition boolFieldPattern (key : string) : Pattern :=
  mkPattern [Lit key; Spaces; Lit "="; Spaces;
             Alt "true" "false"] [(4, 1)]%nat.

(** [/Name\s*=\s*\{([^}]+)\}/s], which finds a section and captures its
    body, *)
Definition sectionPattern (name : string) : Pattern :=
  mkPattern [Lit name; Spaces; Lit "="; Spaces; Lit "{";
             Plus (isNot "}"); Lit "}"] [(5, 1)]%nat.

(** and [/Name\s*=\s*\{[^}]+\}/s], through which it is replaced. *)
Definition sectionReplacePattern (name : string) : Pattern :=
  mkPattern [Lit name; Spaces; Lit "="; Spaces; Lit "{";
             Plus (isNot "}"); Lit "}"] [].

Definition quoted (v : string) : string := (dquote ++ v ++ dquote)%string.

Definition noQuote : string -> bool := allChars (isNot "034").
Definition noDollar : string -> bool := allChars (isNot "$").
Definition noBrace : string -> bool := allChars (isNot "}").
Definition allSpace : string -> bool := allWhite.

Definition setCredentials (email password : string) (c : Config) : Config :=
  mkConfig (ExposeAdmin c) (Host c) (Port c) (AutoUpdate c)
           (mkSuperuser email password)
           (Migrations c) (Backup c) (Advanced c).

(** The text [updateSuperuserCredentials] writes. *)
Definition rewriteCredentials (email password content : string) : string :=
  let updatedContent :=
    replace (credentialPattern "Email")
            ("$1" ++ dquote ++ email ++ dquote) content in
  replace (credentialPattern "Password")
          ("$1" ++ dquote ++ password ++ dquote) updatedContent.

(** [updateSuperuserCredentials(email, password)]; [writable] tells whether
    [fs.writeFileSync] succeeds (when it throws, the [catch] returns
    [false] before the cache is touched). *)
Definition updateSuperuserCredentials (email password : string)
           (writable : bool) (l : Loader) : Loader * bool :=
  if negb (truthy (configContent l)) then (l, false)
  else
    let updatedContent := rewriteCredentials email password (configContent l) in
    if writable then
      (mkLoader (setCredentials email password (config l))
                updatedContent (configPath l) updatedContent,
       true)
    else (l, false).

(** The [updates] object of [updateAdvancedSettings]; [None] is a property
    that is [undefined]. *)
Record SMTPUpdate : Type := mkSMTPUpdate {
  new_Host : option string;
  new_Port : option Z;
  new_Username : option string;
  new_Password : option string;
  new_LocalName : option string;
  new_TLS : option bool
}.

Record S3Update : Type := mkS3Update {
  new_Bucket : option string;
  new_Region : option string;
  new_Endpoint : option string;
  new_AccessKey : option string;
  new_SecretKey : option string;
  new_ForcePathStyle : option bool
}.

Record Updates : Type := mkUpdates {
  upd_SMTP : option SMTPUpdate;
  upd_S3 : option S3Update
}.

Definition string_of_bool (b : bool) : string :=
  if b then "true" else "false".

(** [if (value !== undefined) text = text.replace(pattern, template)] *)
Definition setField {A : Type} (p : Pattern) (template : A -> string)
           (value : option A) (text : string) : string :=
  match value with
  | None => text
  | Some v => replace p (template v) text
  end.

Definition stringField (key : string) : option string -> string -> string :=
  setField (stringFieldPattern key)
           (fun v => key ++ " = " ++ dquote ++ v ++ dquote)%string.

Definition numberField (key : string) : option Z -> string -> string :=
  setField (numberFieldPattern key)
           (fun v => key ++ " = " ++ string_of_Z v)%string.

Definition boolField (key : string) : option bool -> string -> string :=
  setField (boolFieldPattern key)
           (fun v => key ++ " = " ++ string_of_bool v)%string.

Definition rewriteSMTPFields (u : SMTPUpdate) (newSMTP : string) : string :=
  let newSMTP := stringField "Host" (new_Host u) newSMTP in
  let newSMTP := numberField "Port" (new_Port u) newSMTP in
  let newSMTP := stringField "Username" (new_Username u) newSMTP in
  let newSMTP := stringField "Password" (new_Password u) newSMTP in
  let newSMTP := stringField "LocalName" (new_LocalName u) newSMTP in
  boolField "TLS" (new_TLS u) newSMTP.

Definition rewriteS3Fields (u : S3Update) (newS3 : string) : string :=
  let newS3 := stringField "Bucket" (new_Bucket u) newS3 in
  let newS3 := stringField "Region" (new_Region u) newS3 in
  let newS3 := stringField "Endpoint" (new_Endpoint u) newS3 in
  let newS3 := stringField "AccessKey" (new_AccessKey u) newS3 in
  let newS3 := stringField "SecretKey" (new_SecretKey u) newS3 in
  boolField "ForcePathStyle" (new_ForcePathStyle u) newS3.

(** One [if (updates.X) { ... }] block: the section is looked up, its
    body edited field by field and put back through a template. *)
Definition rewriteSection {U : Type} (name : string)
           (fields : U -> string -> string) (update : option U)
           (updatedContent : string) : string :=
  match update with
  | None => updatedContent
  | Some u =>
      match search (sectionPattern name) updatedContent with
      | None => updatedContent
      | Some section =>
          let body := nth 0 (captured section) EmptyString in
          replace (sectionReplacePattern name)
                  (name ++ " = {" ++ fields u body ++ "}")%string
                  updatedContent
      end
  end.

(** The text [updateAdvancedSettings] writes. *)
Definition rewriteAdvanced (updates : Updates) (content : string) : string :=
  let updatedContent :=
    rewriteSection "SMTP" rewriteSMTPFields (upd_SMTP updates) content in
  rewriteSection "S3" rewriteS3Fields (upd_S3 updates) updatedContent.

Definition orElse {A : Type} (o : option A) (d : A) : A :=
  match o with Some v => v | None => d end.

(** [Object.assign(this.config.Advanced.SMTP, updates.SMTP)] *)
Definition assignSMTP (u : option SMTPUpdate) (c : SMTPConfig) : SMTPConfig :=
  match u with
  | None => c
  | Some u =>
      mkSMTP (SMTP_Enabled c)
             (orElse (new_Host u) (SMTP_Host c))
             (orElse (new_Port u) (SMTP_Port c))
             (orElse (new_Username u) (SMTP_Username c))
             (orElse (new_Password u) (SMTP_Password c))
             (orElse (new_LocalName u) (SMTP_LocalName c))
             (orElse (new_TLS u) (SMTP_TLS c))
  end.

Definition assignS3 (u : option S3Update) (c : S3Config) : S3Config :=
  match u with
  | None => c
  | Some u =>
      mkS3 (S3_Enabled c)
           (orElse (new_Bucket u) (S3_Bucket c))
           (orElse (new_Region u) (S3_Region c))
           (orElse (new_Endpoint u) (S3_Endpoint c))
           (orElse (new_AccessKey u) (S3_AccessKey c))
           (orElse (new_SecretKey u) (S3_SecretKey c))
           (orElse (new_ForcePathStyle u) (S3_ForcePathStyle c))
  end.

Definition assignAdvanced (updates : Updates) (c : Config) : Config :=
  let adv := Advanced c in
  mkConfig (ExposeAdmin c) (Host c) (Port c) (AutoUpdate c) (Superuser c)
           (Migrations c) (Backup c)
           (mkAdvanced (Dev adv) (AutoMigrate adv) (PublicDir adv)
                       (DataDir adv)
                       (assignSMTP (upd_SMTP updates) (SMTP adv))
                       (assignS3 (upd_S3 updates) (S3 adv))).

(** [updateAdvancedSettings(updates)] *)
Definition updateAdvancedSettings (updates : Updates) (writable : bool)
           (l : Loader) : Loader * bool :=
  if negb (truthy (configContent l)) then (l, false)
  else
    let updatedContent := rewriteAdvanced updates (configContent l) in
    if writable then
      (mkLoader (assignAdvanced updates (config l))
                updatedContent (configPath l) updatedContent,
       true)
    else (l, false).

(** *** Loading

    [/Key\s*=\s*Q([^Q]* )Q/], which captures the value, *)
Definition stringValuePattern (key : string) : Pattern :=
  mkPattern [Lit key; Spaces; Lit "="; Spaces;
             Lit dquote; Star (isNot "034"); Lit dquote] [(5, 1)]%nat.

(** and [/Key\s*=\s*(\d+)/]. *)
Definition numberValuePattern (key : string) : Pattern :=
  mkPattern [Lit key; Spaces; Lit "="; Spaces; Plus isDigit]
            [(4, 1)]%nat.

(** [text.match(pattern)] and the first group of the match:
    [match ? match[1] : null]. *)
Definition simpleMatch (pattern : Pattern) (text : string) : option string :=
  match search pattern text with
  | Some m => Some (nth 0 (captured m) EmptyString)
  | None => None
  end.

(** [if (value)] on what [simpleMatch] returned: [null] and the empty
    string are falsy. *)
Definition ifTruthy (value : option string) : option string :=
  match value with
  | Some v => if truthy v then Some v else None
  | None => None
  end.

(** [value === "true"] *)
Definition isTrue (value : string) : bool := (value =? "true")%string.

Fixpoint parseDigits (acc : Z) (digits : string) : Z :=
  match digits with
  | EmptyString => acc
  | String c digits' => parseDigits (10 * acc + Z.of_nat (digitValue c)) digits'
  end.

(** [parseInt(digits)] of a run of decimal digits (of a value up to 2^53,
    from where on JavaScript rounds). *)
Definition parseInt (digits : string) : Z := parseDigits 0 digits.

(** The fields read inside the sections: a field that is found is
    assigned, also when its value is empty. *)
Definition parseMigrations (migrationsContent : string) (m : MigrationsConfig)
  : MigrationsConfig :=
  mkMigrations
    (orElse (option_map isTrue
               (simpleMatch (boolFieldPattern "AutoApply") migrationsContent))
            (AutoApply m))
    (orElse (simpleMatch (stringValuePattern "Dir") migrationsContent) (Dir m)).

Definition parseBackup (backupContent : string) (b : BackupConfig)
  : BackupConfig :=
  mkBackup
    (orElse (option_map isTrue
               (simpleMatch (boolFieldPattern "Enabled") backupContent))
            (Backup_Enabled b))
    (orElse (option_map isTrue
               (simpleMatch (boolFieldPattern "OnStartup") backupContent))
            (OnStartup b))
    (orElse (option_map parseInt
               (simpleMatch (numberValuePattern "Schedule") backupContent))
            (Schedule b))
    (orElse (option_map parseInt
               (simpleMatch (numberValuePattern "KeepLast") backupContent))
            (KeepLast b))
    (orElse (simpleMatch (stringValuePattern "BackupPrefix") backupContent)
            (BackupPrefix b)).

Definition parseSMTP (smtpContent : string) (c : SMTPConfig) : SMTPConfig :=
  mkSMTP
    (orElse (option_map isTrue
               (simpleMatch (boolFieldPattern "Enabled") smtpContent))
            (SMTP_Enabled c))
    (orElse (simpleMatch (stringValuePattern "Host") smtpContent) (SMTP_Host c))
    (orElse (option_map parseInt
               (simpleMatch (numberValuePattern "Port") smtpContent))
            (SMTP_Port c))
    (orElse (simpleMatch (stringValuePattern "Username") smtpContent)
            (SMTP_Username c))
    (orElse (simpleMatch (stringValuePattern "Password") smtpContent)
            (SMTP_Password c))
    (orElse (simpleMatch (stringValuePattern "LocalName") smtpContent)
            (SMTP_LocalName c))
    (orElse (option_map isTrue
               (simpleMatch (boolFieldPattern "TLS") smtpContent))
            (SMTP_TLS c)).

Definition parseS3 (s3Content : string) (c : S3Config) : S3Config :=
  mkS3
    (orElse (option_map isTrue
               (simpleMatch (boolFieldPattern "Enabled") s3Content))
            (S3_Enabled c))
    (orElse (simpleMatch (stringValuePattern "Bucket") s3Content) (S3_Bucket c))
    (orElse (simpleMatch (stringValuePattern "Region") s3Content) (S3_Region c))
    (orElse (simpleMatch (stringValuePattern "Endpoint") s3Content)
            (S3_Endpoint c))
    (orElse (simpleMatch (stringValuePattern "AccessKey") s3Content)
            (S3_AccessKey c))
    (orElse (simpleMatch (stringValuePattern "SecretKey") s3Content)
            (S3_SecretKey c))
    (orElse (option_map isTrue
               (simpleMatch (boolFieldPattern "ForcePathStyle") s3Content))
            (S3_ForcePathStyle c)).

(** [if (section) { ... }]: the fields of a section that is found. *)
Definition inSection {S : Type} (name : string) (fields : string -> S -> S)
           (content : string) (s : S) : S :=
  match simpleMatch (sectionPattern name) content with
  | Some body => fields body s
  | None => s
  end.

(** What [load] reads from the text of [config.lua] into the
    configuration [c] it starts from.  The fields outside a section block
    are looked for in the whole text, and assigned when the value found is
    not empty. *)
Definition parseConfig (content : string) (c : Config) : Config :=
  let top pattern := ifTruthy (simpleMatch pattern content) in
  mkConfig
    (orElse (option_map isTrue (top (boolFieldPattern "Config.ExposeAdmin")))
            (ExposeAdmin c))
    (orElse (top (stringValuePattern "Config.Host")) (Host c))
    (orElse (option_map parseInt (top (numberValuePattern "Config.Port")))
            (Port c))
    (orElse (option_map isTrue (top (boolFieldPattern "Config.AutoUpdate")))
            (AutoUpdate c))
    (mkSuperuser
       (orElse (top (stringValuePattern "Email")) (Email (Superuser c)))
       (orElse (top (stringValuePattern "Password")) (Password (Superuser c))))
    (inSection "Config.Migrations" parseMigrations content (Migrations c))
    (inSection "Config.Backup" parseBackup content (Backup c))
    (mkAdvanced
       (orElse (option_map isTrue (top (boolFieldPattern "Dev")))
               (Dev (Advanced c)))
       (orElse (option_map isTrue (top (boolFieldPattern "AutoMigrate")))
               (AutoMigrate (Advanced c)))
       (PublicDir (Advanced c))
       (DataDir (Advanced c))
       (inSection "SMTP" parseSMTP content (SMTP (Advanced c)))
       (inSection "S3" parseS3 content (S3 (Advanced c)))).

(** What the file system answers to [fs.existsSync(configPath)] and
    [fs.readFileSync(configPath, "utf8")]: the text is the content of the
    file as it is decoded. *)
Inductive FileRead : Type :=
| NoFile
| FileContent (text : string)
| ReadThrows (message : string).

(** [load(resourcePath)], on the loader as it was constructed ([None]:
    its [config] is [null]) or as an earlier call left it; with the line
    it logs. *)
Definition load (resourcePath : string) (file : FileRead) (l : option Loader)
  : Loader * option string :=
  match l with
  | Some cached => (cached, None)
  | None =>
      let configPath := (resourcePath ++ "/" ++ "config.lua")%string in
      match file with
      | FileContent text =>
          (mkLoader (parseConfig text defaultConfig) text configPath text, None)
      | NoFile =>
          (mkLoader defaultConfig EmptyString configPath EmptyString,
           Some "^3[Config Loader]^7 config.lua not found, using defaults")
      | ReadThrows message =>
          (mkLoader defaultConfig EmptyString configPath EmptyString,
           Some ("^1[Config Loader]^7 Failed to load config: " ++ message)%string)
      end
  end.

(** [key] does not occur in [pre ++ key] before the end of [pre]. *)
Fixpoint firstOccurrence (key pre : string) : bool :=
  match pre with
  | EmptyString => true
  | String c pre' =>
      negb (String.prefix key (pre ++ key)) && firstOccurrence key pre'
  end.

(** *** Examples: [config.lua] as it is shipped, without its banners *)

Definition newline : string := String "010" EmptyString.

Fixpoint unlines (l : list string) : string :=
  match l with
  | [] => EmptyString
  | line :: l' => (line ++ newline ++ unlines l')%string
  end.

(** Up to the superuser's email, *)
Definition documentHead : string :=
  (unlines ["Config = {}";
            "Config.ExposeAdmin = true";
            ("Config.Host = " ++ quoted "localhost")%string;
            "Config.Port = 8090";
            "Config.Superuser = {";
            "    -- Leave empty for auto-generation on first startup"]
   ++ "    ")%string.

(** from there to the password, *)
Definition documentMiddle : string := ("," ++ newline ++ "    ")%string.

(** from there to the SMTP section, *)
Definition documentSettings : string :=
  ("," ++ newline
   ++ unlines ["}";
               "Config.AutoUpdate = false";
               "Config.Migrations = {";
               "    AutoApply = true,";
               ("    Dir = " ++ quoted "pb_migrations" ++ ",")%string;
               "}";
               "Config.Backup = {";
               "    Enabled = false,";
               "    OnStartup = true,";
               "    Schedule = 0,";
               "    KeepLast = 7,";
               ("    BackupPrefix = " ++ quoted "auto_" ++ ",")%string;
               "}";
               "Config.Advanced = {";
               "    Dev = false,";
               "    AutoMigrate = true,";
               ("    PublicDir = " ++ quoted "pb_public" ++ ",")%string;
               ("    DataDir = " ++ quoted "pb_data" ++ ",")%string;
               "    -- SMTP Email Configuration (optional)"]
   ++ "    ")%string.

(** the body of the SMTP section, *)
Definition smtpBody (host password : string) : string :=
  (newline
   ++ unlines ["        Enabled = false,";
               ("        Host = " ++ quoted host ++ ",")%string;
               "        Port = 587,";
               ("        Username = " ++ quoted "" ++ ",")%string;
               ("        Password = " ++ quoted password ++ ",")%string;
               ("        -- LocalName is optional (defaults to "
                  ++ quoted "localhost" ++ ")")%string;
               ("        LocalName = " ++ quoted "" ++ ",")%string;
               "        -- Use TLS encryption";
               "        TLS = true,"]
   ++ "    ")%string.

(** and the rest. *)
Definition documentTail : string :=
  ("," ++ newline
   ++ unlines ["    -- S3 Storage Configuration (optional)";
               "    S3 = {";
               "        Enabled = false,";
               ("        Bucket = " ++ quoted "" ++ ",")%string;
               ("        Region = " ++ quoted "" ++ ",")%string;
               ("        Endpoint = " ++ quoted "" ++ ",")%string;
               ("        AccessKey = " ++ quoted "" ++ ",")%string;
               ("        SecretKey = " ++ quoted "" ++ ",")%string;
               "        ForcePathStyle = false,";
               "    },";
               "}";
               "return Config"])%string.

Definition document (email password smtpHost smtpPassword : string) : string :=
  (documentHead
   ++ "Email" ++ " " ++ "=" ++ " " ++ quoted email
   ++ documentMiddle
   ++ "Password" ++ " " ++ "=" ++ " " ++ quoted password
   ++ documentSettings
   ++ "SMTP" ++ " " ++ "=" ++ " " ++ "{" ++ smtpBody smtpHost smtpPassword ++ "}"
   ++ documentTail)%string.

(** A file that has none of the sections. *)
Definition bareDocument : string :=
  unlines ["Config = {}"; "Config.Port = 8090"; "return Config"].

(** An update that names the SMTP host only. *)
Definition hostOnly (host : string) : Updates :=
  mkUpdates (Some (mkSMTPUpdate (Some host) None None None None None)) None.

End ConfigLoader.

(* ---------------------------------------------------------------------- *)
(** ** utils/server.js *)

Module Server.
Import ConfigLoader ProcessUtils.

(** *** State *)

Record StartupStatus : Type := mkStatus {
  executablePath : string;
  superuserEmail : string;
  superuserPassword : string;
  bindAddress : string;
  publicUrl : string;
  exposeAdmin : bool;
  healthCheckPassed : bool;
  clientAuthenticated : option bool;       (* [null] at first *)
  errors : list string;
  warnings : list string
}.

Definition initialStatus : StartupStatus :=
  mkStatus "" "" "" "" "" false false None [] [].

(** A backup as [pbInternalListBackups] reports it, which is the answer of
    [pb.backups.getFullList()] as it is; [created] is the time value of
    [new Date(b.created)], in milliseconds, and [None] when that is an
    invalid date: the record has no such property, or one that is not a
    date. *)
Record BackupRecord : Type := mkBackupRecord {
  key : string;
  created : option Z
}.

(** The backend as the supervisor sees it through the [pbInternal...]
    functions of the client: each of them throws while the client is not
    ready.  [refusals] are the answers of the backend to the deletions to
    come, in their order: [Some message] for a deletion it refuses (the
    request fails, another backup is running), [None] for one it carries
    out, as it does when the list is used up. *)
Record Backend : Type := mkBackend {
  clientReady : bool;
  backups : list BackupRecord;
  refusals : list (option string)
}.

(** The handle [pocketbaseProcess]. *)
Record Process : Type := mkProcess {
  command : string;
  argv : list string;
  processKilled : bool
}.

(** What the supervisor does to the outside. *)
Inductive Event : Type :=
| Log (level message : string)
| Spawn (command : string) (args : list string)
| Emit (name url : string) (port : Z) (exposeAdmin : bool)
| HttpGet (url : string) (timeout : Z)
| Report (status : StartupStatus)
| TimerSet (callback : string) (ms : Z).

Record World : Type := mkWorld {
  loader : Loader;
  startupStatus : StartupStatus;
  backend : Backend;
  pocketbaseProcess : option Process;
  trace : list Event
}.

Definition cfg (w : World) : Config := config (loader w).

Definition withStatus (f : StartupStatus -> StartupStatus) (w : World) : World :=
  mkWorld (loader w) (f (startupStatus w)) (backend w)
          (pocketbaseProcess w) (trace w).

Definition withLoader (l : Loader) (w : World) : World :=
  mkWorld l (startupStatus w) (backend w) (pocketbaseProcess w) (trace w).

Definition withBackend (b : Backend) (w : World) : World :=
  mkWorld (loader w) (startupStatus w) b (pocketbaseProcess w) (trace w).

Definition withProcess (p : option Process) (w : World) : World :=
  mkWorld (loader w) (startupStatus w) (backend w) p (trace w).

Definition record (e : Event) (w : World) : World :=
  mkWorld (loader w) (startupStatus w) (backend w) (pocketbaseProcess w)
          (trace w ++ [e]).

Definition pushErrors (es : list string) : World -> World :=
  withStatus (fun s =>
    mkStatus (executablePath s) (superuserEmail s) (superuserPassword s)
             (bindAddress s) (publicUrl s) (exposeAdmin s)
             (healthCheckPassed s) (clientAuthenticated s)
             (errors s ++ es) (warnings s)).

Definition pushWarning (msg : string) : World -> World :=
  withStatus (fun s =>
    mkStatus (executablePath s) (superuserEmail s) (superuserPassword s)
             (bindAddress s) (publicUrl s) (exposeAdmin s)
             (healthCheckPassed s) (clientAuthenticated s)
             (errors s) (warnings s ++ [msg])).

Definition setExecutablePath (v : string) : World -> World :=
  withStatus (fun s =>
    mkStatus v (superuserEmail s) (superuserPassword s)
             (bindAddress s) (publicUrl s) (exposeAdmin s)
             (healthCheckPassed s) (clientAuthenticated s)
             (errors s) (warnings s)).

Definition setDisplayedCredentials (email password : string) : World -> World :=
  withStatus (fun s =>
    mkStatus (executablePath s) email password
             (bindAddress s) (publicUrl s) (exposeAdmin s)
             (healthCheckPassed s) (clientAuthenticated s)
             (errors s) (warnings s)).

Definition setExposeAdmin (v : bool) : World -> World :=
  withStatus (fun s =>
    mkStatus (executablePath s) (superuserEmail s) (superuserPassword s)
             (bindAddress s) (publicUrl s) v
             (healthCheckPassed s) (clientAuthenticated s)
             (errors s) (warnings s)).

Definition setAddresses (bind url : string) : World -> World :=
  withStatus (fun s =>
    mkStatus (executablePath s) (superuserEmail s) (superuserPassword s)
             bind url (exposeAdmin s)
             (healthCheckPassed s) (clientAuthenticated s)
             (errors s) (warnings s)).

Definition setHealthCheckPassed (v : bool) : World -> World :=
  withStatus (fun s =>
    mkStatus (executablePath s) (superuserEmail s) (superuserPassword s)
             (bindAddress s) (publicUrl s) (exposeAdmin s)
             v (clientAuthenticated s)
             (errors s) (warnings s)).

Definition setClientAuthenticated (v : option bool) : World -> World :=
  withStatus (fun s =>
    mkStatus (executablePath s) (superuserEmail s) (superuserPassword s)
             (bindAddress s) (publicUrl s) (exposeAdmin s)
             (healthCheckPassed s) v
             (errors s) (warnings s)).

(** *** Asynchronous functions

    An [async] function is a state transformer that returns, throws or
    never resumes ([Pending]: a promise it awaits never settles). *)
Definition Async (A : Type) : Type := World -> World * Promise A.

Definition ret {A : Type} (a : A) : Async A := fun w => (w, Fulfilled a).

Definition bind {A B : Type} (m : Async A) (k : A -> Async B) : Async B :=
  fun w =>
    match m w with
    | (w', Fulfilled a) => k a w'
    | (w', Failed e) => (w', Failed e)
    | (w', Pending) => (w', Pending)
    end.

(** A statement that only changes the state. *)
Definition exec (f : World -> World) : Async unit :=
  fun w => (f w, Fulfilled tt).

(** [await p] *)
Definition await {A : Type} (p : Promise A) : Async A := fun w => (w, p).

(** [try { body } catch (err) { handler(err.message) }] *)
Definition tryCatch {A : Type} (body : Async A) (handler : string -> Async A)
  : Async A :=
  fun w =>
    match body w with
    | (w', Failed e) => handler e w'
    | done => done
    end.

Notation "x <- m ;; k" := (bind m (fun x => k))
  (at level 61, m at next level, right associativity).
Notation "m ;;; k" := (bind m (fun _ => k))
  (at level 61, right associativity).

(** [for (const x of l) { await body(x) }] *)
Fixpoint forEach {A : Type} (l : list A) (body : A -> Async unit)
  : Async unit :=
  match l with
  | [] => ret tt
  | x :: l' => body x ;;; forEach l' body
  end.

(** *** The environment of one startup attempt

    Everything the supervisor learns from outside, one field for each
    place where it asks. *)

Inductive IPProbe : Type :=
| IPBody (data : string)       (* the response ended with this body *)
| IPError (message : string)   (* the request emitted [error] *)
| IPSilent.                    (* neither happens *)

Inductive HandshakeEvent : Type :=
| TimeoutFired
| ClientReady (authenticated : bool).

Inductive ProbeEvent : Type :=
| Response (statusCode : Z)
| RequestError
| SocketTimeout.

Inductive HealthProbe : Type :=
| UrlInvalid (message : string)          (* [new URL(url)] throws *)
| GetThrows (message : string)           (* [protocol.get] throws *)
| Requested (events : list ProbeEvent).

Record Env : Type := mkEnv {
  resourcePath : string;
  platform : string;                       (* [process.platform] *)
  executableExists : bool;                 (* [fs.existsSync(fullPath)] *)
  chmodError : option string;              (* [fs.chmodSync] throws *)
  updateChild : SpawnOutcome;
  ipProbe : IPProbe;
  randomPassword : string;                 (* [generateRandomPassword()] *)
  upsertChild : SpawnOutcome;
  configWritable : bool;
  migrateChild : SpawnOutcome;
  isoTime : string;                        (* [new Date().toISOString()] *)
  backupCreation : string -> Promise BackupRecord;
  clientEvents : list HandshakeEvent;
  lateAckBeforeReport : bool;
  healthProbe : HealthProbe
}.

(** *** Backups *)

Definition notReady : string :=
  "PocketBase client not ready yet - wait for isReady() to return true".

Definition hasKey (k : string) (b : BackupRecord) : bool := (key b =? k)%string.

Definition pbInternalCreateBackup (answer : string -> Promise BackupRecord)
           (basename : string) : Async bool :=
  fun w =>
    if clientReady (backend w) then
      match answer basename with
      | Fulfilled r =>
          (withBackend (mkBackend true (backups (backend w) ++ [r])
                                  (refusals (backend w))) w,
           Fulfilled true)
      | Failed e => (w, Failed e)
      | Pending => (w, Pending)
      end
    else (w, Failed notReady).

Definition pbInternalListBackups : Async (list BackupRecord) :=
  fun w =>
    if clientReady (backend w) then (w, Fulfilled (backups (backend w)))
    else (w, Failed notReady).

(** The backend refuses, or it removes the backup of that key; it answers
    with an error when it has none. *)
Definition pbInternalDeleteBackup (k : string) : Async unit :=
  fun w =>
    if clientReady (backend w) then
      let later := tl (refusals (backend w)) in
      match refusals (backend w) with
      | Some message :: _ =>
          (withBackend (mkBackend true (backups (backend w)) later) w,
           Failed message)
      | _ =>
          if existsb (hasKey k) (backups (backend w)) then
            (withBackend
               (mkBackend true
                  (filter (fun b => negb (hasKey k b)) (backups (backend w)))
                  later) w,
             Fulfilled tt)
          else
            (withBackend (mkBackend true (backups (backend w)) later) w,
             Failed "Failed to delete backup")
      end
    else (w, Failed notReady).

Definition createBackup (answer : string -> Promise BackupRecord)
           (basename : string) : Async bool :=
  tryCatch (pbInternalCreateBackup answer basename)
           (fun message =>
              exec (pushWarning ("Backup creation failed: " ++ message)) ;;;
              ret false).

Definition listBackups : Async (list BackupRecord) :=
  tryCatch pbInternalListBackups (fun _ => ret []).

Definition deleteBackup (k : string) : Async bool :=
  tryCatch (pbInternalDeleteBackup k ;;; ret true) (fun _ => ret false).

(** [(a, b) => new Date(b.created) - new Date(a.created)], which is
    [NaN] when one of the dates is invalid; [sort] takes that for 0. *)
Definition newestFirst (a b : BackupRecord) : Z :=
  match created b, created a with
  | Some tb, Some ta => tb - ta
  | _, _ => 0
  end.

Definition isAuto (c : Config) (b : BackupRecord) : bool :=
  startsWith (BackupPrefix (Backup c)) (key b).

(** The body of the loop of [manageBackupRotation]. *)
Definition deleteOld (backup : BackupRecord) : Async unit :=
  deleted <- deleteBackup (key backup) ;;
  if deleted
  then exec (record (Log "debug" ("Deleted old backup: " ++ key backup)))
  else ret tt.

Definition manageBackupRotation : Async unit :=
  fun w =>
    let config := cfg w in
    if negb (Backup_Enabled (Backup config)) || (KeepLast (Backup config) <=? 0)
    then ret tt w
    else
      (backups <- listBackups ;;
       if Z.of_nat (length backups) <=? KeepLast (Backup config)
       then ret tt
       else
         let autoBackups :=
           sortBy newestFirst (filter (isAuto config) backups) in
         let toDelete := slice (KeepLast (Backup config)) autoBackups in
         forEach toDelete deleteOld) w.

Definition backupTimestamp (iso : string) : string := dropLast 5 (dashes iso).

Definition performStartupBackup (env : Env) : Async unit :=
  fun w =>
    let config := cfg w in
    if negb (Backup_Enabled (Backup config)) || negb (OnStartup (Backup config))
    then ret tt w
    else
      let basename :=
        (BackupPrefix (Backup config) ++ "startup_"
           ++ backupTimestamp (isoTime env))%string in
      (exec (record (Log "debug" "Creating startup backup...")) ;;;
       result <- createBackup (backupCreation env) basename ;;
       if result
       then exec (record (Log "debug" ("Startup backup created: " ++ basename))) ;;;
            manageBackupRotation
       else ret tt) w.

(** The callback of the timer [scheduleBackups] sets. *)
Definition scheduledBackup (env : Env) : Async unit :=
  fun w =>
    let config := cfg w in
    let basename :=
      (BackupPrefix (Backup config) ++ "scheduled_"
         ++ backupTimestamp (isoTime env))%string in
    (exec (record (Log "debug" "Creating scheduled backup...")) ;;;
     result <- createBackup (backupCreation env) basename ;;
     if result
     then exec (record (Log "debug" ("Scheduled backup created: " ++ basename))) ;;;
          manageBackupRotation
     else ret tt) w.

Definition scheduleBackups : Async unit :=
  fun w =>
    let config := cfg w in
    if negb (Backup_Enabled (Backup config)) || (Schedule (Backup config) <=? 0)
    then ret tt w
    else
      (exec (record (TimerSet "scheduledBackup" (Schedule (Backup config) * 1000))) ;;;
       exec (record (Log "debug"
               ("Scheduled backups enabled: every "
                  ++ string_of_Z (Schedule (Backup config)) ++ " seconds")))) w.

(** *** Operating system and executable *)

Definition getOS (env : Env) : World -> World * option string :=
  fun w =>
    if (platform env =? "win32")%string then (w, Some "windows")
    else if (platform env =? "linux")%string then (w, Some "linux")
    else (record (Log "error"
                    ("Unsupported operating system: " ++ platform env)) w,
          None).

(** [path.join(a, b)], for segments that need no normalisation. *)
Definition pathJoin (a b : string) : string := (a ++ "/" ++ b)%string.

Definition getPocketBasePath (env : Env) : World -> World * option string :=
  fun w =>
    match getOS env w with
    | (w, None) => (w, None)
    | (w, Some os) =>
        let binPath := pathJoin (resourcePath env) "bin" in
        let exeName :=
          if (os =? "windows")%string
          then "pocketbase-win.exe" else "pocketbase-linux" in
        let fullPath := pathJoin binPath exeName in
        if negb (executableExists env) then
          (record (Log "error"
                     ("PocketBase executable not found at: " ++ fullPath)) w,
           None)
        else
          let w :=
            if (os =? "linux")%string then
              match chmodError env with
              | Some message =>
                  record (Log "warn"
                    ("Could not set executable permissions: " ++ message)) w
              | None => w
              end
            else w in
          (w, Some fullPath)
    end.

(** *** IP detection and URLs *)

Definition getPublicIP (env : Env) : Async (option string) :=
  match ipProbe env with
  | IPBody data => ret (Some (trim data))
  | IPError message =>
      exec (record (Log "debug" ("Failed to get public IP: " ++ message))) ;;;
      ret None
  | IPSilent => await Pending
  end.

Definition test (anchored : list Atom) (s : string) : bool :=
  match matchSeq anchored s with
  | Some _ => true
  | None => false
  end.

(** [^\d+\.\d+\.\d+\.\d+] *)
Definition dottedQuad : list Atom :=
  [Plus isDigit; Lit "."; Plus isDigit; Lit "."; Plus isDigit; Lit ".";
   Plus isDigit].

(** [/^\d+\.\d+\.\d+\.\d+:\d+$/] *)
Definition isQuadWithPort (s : string) : bool :=
  match matchSeq (dottedQuad ++ [Lit ":"; Plus isDigit]) s with
  | Some (_, EmptyString) => true
  | _ => false
  end.

(** [/^\d+\.\d+\.\d+\.\d+$/] *)
Definition isQuad (s : string) : bool :=
  match matchSeq dottedQuad s with
  | Some (_, EmptyString) => true
  | _ => false
  end.

Definition isDomainChar (c : ascii) : bool :=
  isAlpha c || isDigit c || Ascii.eqb c "." || Ascii.eqb c "-".

(** Is there a dot followed by two letters, at or after the start of [s],
    with only domain characters up to it? *)
Fixpoint dotAndTwoLetters (s : string) : bool :=
  match s with
  | String c s' =>
      (Ascii.eqb c "." &&
       match s' with
       | String l1 (String l2 _) => isAlpha l1 && isAlpha l2
       | _ => false
       end)
      || (isDomainChar c && dotAndTwoLetters s')
  | EmptyString => false
  end.

(** [/^[a-zA-Z0-9.-]+\.[a-zA-Z]{2,}/]: one domain character at least, more
    of them, then a dot and two letters. *)
Definition looksLikeDomain (s : string) : bool :=
  match s with
  | String c s' => isDomainChar c && dotAndTwoLetters s'
  | EmptyString => false
  end.

(** [hostParam.replace(/^https?:\/\//, "")] *)
Definition withoutScheme (hostParam : string) : string :=
  match stripPrefix "http://" hostParam with
  | Some rest => rest
  | None =>
      match stripPrefix "https://" hostParam with
      | Some rest => rest
      | None => hostParam
      end
  end.

Definition buildSmartUrl (hostParam : string) (port : Z) : option string :=
  if negb (truthy hostParam) then None
  else if startsWith "http://" hostParam || startsWith "https://" hostParam
  then
    let hostPart := withoutScheme hostParam in
    if includes ":" hostPart then Some hostParam
    else if test dottedQuad hostPart
    then Some (hostParam ++ ":" ++ string_of_Z port)%string
    else Some hostParam
  else if isQuadWithPort hostParam then Some ("http://" ++ hostParam)%string
  else
    let isDomain :=
      looksLikeDomain hostParam && negb (test dottedQuad hostParam) in
    if isDomain then Some ("https://" ++ hostParam)%string
    else if isQuad hostParam
    then Some ("http://" ++ hostParam ++ ":" ++ string_of_Z port)%string
    else Some ("http://" ++ hostParam ++ ":" ++ string_of_Z port)%string.

(** The bind address, the public URL and the detected IP (the [if
    (config.ExposeAdmin)] block of [startPocketBase]). *)
Definition resolveAddresses (env : Env) : Async (string * string * option string) :=
  fun w =>
    let config := cfg w in
    if ExposeAdmin config then
      let bindAddress := ("0.0.0.0:" ++ string_of_Z (Port config))%string in
      if negb (truthy (Host config)) then
        (publicIP <- getPublicIP env ;;
         match publicIP with
         | Some ip =>
             if truthy ip
             then ret (bindAddress,
                       ("http://" ++ ip ++ ":" ++ string_of_Z (Port config))%string,
                       publicIP)
             else
               exec (pushWarning
                 "Could not detect public IP - configure Config.Host manually") ;;;
               ret (bindAddress,
                    ("http://0.0.0.0:" ++ string_of_Z (Port config))%string,
                    publicIP)
         | None =>
             exec (pushWarning
               "Could not detect public IP - configure Config.Host manually") ;;;
             ret (bindAddress,
                  ("http://0.0.0.0:" ++ string_of_Z (Port config))%string,
                  publicIP)
         end) w
      else
        ret (bindAddress,
             orElse (buildSmartUrl (Host config) (Port config)) EmptyString,
             None) w
    else
      ret (("127.0.0.1:" ++ string_of_Z (Port config))%string,
           ("http://localhost:" ++ string_of_Z (Port config))%string,
           None) w.

(** *** Status report

    The box itself is not modelled: a report is the status it is drawn
    from, after the warnings the function adds to it. *)
Definition displayStartupStatus : World -> World :=
  fun w =>
    let s := startupStatus w in
    let w :=
      match clientAuthenticated s with
      | Some false =>
          pushWarning
            "Client failed to authenticate - check superuser credentials" w
      | Some true =>
          if exposeAdmin s then
            if healthCheckPassed s then w
            else pushWarning "Check firewall/port forwarding settings" w
          else w
      | None => w
      end in
    record (Report (startupStatus w)) w.

(** *** Health check *)

Definition onProbeEvent (p : Promise bool) (ev : ProbeEvent) : Promise bool :=
  match ev with
  | Response statusCode => resolve (statusCode =? 200) p
  | RequestError => resolve false p
  | SocketTimeout => resolve false p
  end.

(** [checkPublicUrlHealth(url)].  [new URL(url)] and [protocol.get] run
    inside the executor of the promise: when one of them throws, the
    promise is rejected. *)
Definition checkPublicUrlHealth (url : string) (probe : HealthProbe)
  : Async bool :=
  match probe with
  | UrlInvalid message => await (Failed message)
  | GetThrows message => await (Failed message)
  | Requested events =>
      exec (record (HttpGet (url ++ "/api/health") 5000)) ;;;
      await (fold_left onProbeEvent events Pending)
  end.

(** *** Superuser *)

Definition hasConfigCredentials (c : Config) : bool :=
  truthy (Email (Superuser c)) && truthy (Password (Superuser c)).

Definition createSuperuser (env : Env) (pbPath : string)
           (publicIP : option string) : Async bool :=
  fun w =>
    let config := cfg w in
    let generated := negb (hasConfigCredentials config) in
    let domain :=
      match publicIP with
      | Some ip => if truthy ip then ip else "localhost"
      | None => "localhost"
      end in
    let email :=
      if generated then ("admin@" ++ domain ++ ".local")%string
      else Email (Superuser config) in
    let password :=
      if generated then randomPassword env else Password (Superuser config) in
    let needsConfigUpdate := generated in
    let args := ["superuser"; "upsert"; email; password; "--dir";
                 DataDir (Advanced config)] in
    (exec (record (Spawn pbPath args)) ;;;
     result <- await (spawnWithTimeout pbPath args
                        (mkSpawnOptions (Some (resourcePath env)) None)
                        5000 (upsertChild env)) ;;
     if match code result with Some 0 => true | _ => false end
        || includes "Successfully saved superuser" (stdout result)
     then
       (if needsConfigUpdate then
          fun w =>
            let (l, updated) :=
              updateSuperuserCredentials email password (configWritable env)
                                         (loader w) in
            let w := withLoader l w in
            let w :=
              if updated then w
              else pushWarning "Failed to save credentials to config.lua" w in
            (setDisplayedCredentials email password w, Fulfilled tt)
        else ret tt) ;;;
       ret true
     else
       exec (pushErrors
               [("Failed to configure superuser (code "
                   ++ match code result with
                      | Some c => string_of_Z c
                      | None => "null"
                      end ++ ")")%string]) ;;;
       ret false) w.

(** *** Update and migrations *)

Definition checkAndUpdate (env : Env) (pbPath : string) : Async bool :=
  fun w =>
    if negb (AutoUpdate (cfg w)) then ret true w
    else
      (exec (record (Spawn pbPath ["update"])) ;;;
       result <- await (spawnWithTimeout pbPath ["update"]
                          (mkSpawnOptions (Some (resourcePath env))
                                          (Some (AllStreams Pipe)))
                          30000 (updateChild env)) ;;
       (if match code result with Some 0 => false | _ => true end
        then exec (pushWarning "Update check failed, using current version")
        else ret tt) ;;;
       ret true) w.

(** [(output.match(/Applied/g) || []).length] *)
Fixpoint countApplied (fuel : nat) (s : string) : Z :=
  match fuel with
  | O => 0
  | S fuel' =>
      match stripPrefix "Applied" s with
      | Some rest => 1 + countApplied fuel' rest
      | None =>
          match s with
          | EmptyString => 0
          | String _ s' => countApplied fuel' s'
          end
      end
  end.

Definition applyPendingMigrations (env : Env) (pbPath : string) : Async unit :=
  fun w =>
    let config := cfg w in
    if negb (AutoApply (Migrations config)) then ret tt w
    else
      let args := ["migrate"; "up"; "--dir"; DataDir (Advanced config)] in
      tryCatch
        (exec (record (Spawn pbPath args)) ;;;
         result <- await (spawnWithTimeout pbPath args
                            (mkSpawnOptions (Some (resourcePath env)) None)
                            30000 (migrateChild env)) ;;
         match code result with
         | Some 0 =>
             let output := trim (stdout result) in
             if truthy output && negb (includes "No migrations" output)
                && includes "Applied" output
             then
               let count := countApplied (S (String.length output)) output in
               exec (record (Log "info"
                 ("Applied " ++ string_of_Z count ++ " migration"
                    ++ (if count =? 1 then "" else "s"))))
             else ret tt
         | _ =>
             if includes "no migration" (stderr result)
                || includes "No migrations" (stdout result)
             then ret tt
             else exec (pushWarning
               "Failed to apply migrations - check pb_migrations directory")
         end)
        (fun message => exec (pushWarning ("Migration error: " ++ message))) w.

(** *** Configuration validation *)

Definition validationErrors (config : Config) : list string :=
  (if (Port config <? 1) || (Port config >? 65535)
   then [("Invalid port: " ++ string_of_Z (Port config)
            ++ " (must be 1-65535)")%string]
   else [])
  ++ (if truthy (Email (Superuser config))
         && negb (includes "@" (Email (Superuser config)))
      then [("Invalid superuser email format: "
               ++ Email (Superuser config))%string]
      else [])
  ++ (if SMTP_Enabled (SMTP (Advanced config)) then
        (if negb (truthy (SMTP_Host (SMTP (Advanced config))))
         then ["SMTP enabled but Host is empty"] else [])
        ++ (if (SMTP_Port (SMTP (Advanced config)) =? 0)
               || (SMTP_Port (SMTP (Advanced config)) <? 1)
            then ["SMTP enabled but Port is invalid"] else [])
      else [])
  ++ (if S3_Enabled (S3 (Advanced config)) then
        (if negb (truthy (S3_Bucket (S3 (Advanced config))))
         then ["S3 enabled but Bucket is empty"] else [])
        ++ (if negb (truthy (S3_Region (S3 (Advanced config))))
            then ["S3 enabled but Region is empty"] else [])
      else [])
  ++ (if Backup_Enabled (Backup config) then
        (if KeepLast (Backup config) <? 0
         then ["Backup.KeepLast must be >= 0"] else [])
        ++ (if Schedule (Backup config) <? 0
            then ["Backup.Schedule must be >= 0"] else [])
      else []).

Definition validateConfig : World -> World * bool :=
  fun w =>
    let errors := validationErrors (cfg w) in
    if (0 <? Z.of_nat (length errors))
    then (pushErrors errors w, false)
    else (w, true).

(** *** Readiness handshake

    [clientReadyPromise]: a 3000 ms timer and a listener for
    [pocketbase:client:ready] race to resolve it.  The listener stays
    registered afterwards.  The client emits its event after it has
    declared itself ready, so that the backend can be reached from then
    on. *)
Record Handshake : Type := mkHandshake {
  timerPending : bool;
  clientReadyPromise : Promise unit
}.

Definition handshakeStarted : Handshake := mkHandshake true Pending.

Definition onHandshakeEvent (ev : HandshakeEvent) (h : Handshake) (w : World)
  : World * Handshake :=
  match ev with
  | TimeoutFired =>
      if timerPending h
      then (setClientAuthenticated (Some false) w,
            mkHandshake false (resolve tt (clientReadyPromise h)))
      else (w, h)
  | ClientReady authenticated =>
      (setClientAuthenticated (Some authenticated)
         (withBackend (mkBackend true (backups (backend w))
                                 (refusals (backend w))) w),
       mkHandshake false (resolve tt (clientReadyPromise h)))
  end.

(** [await clientReadyPromise]: events are delivered until the promise is
    resolved; the events not yet delivered are handed back. *)
Fixpoint awaitClientReady (events : list HandshakeEvent) (h : Handshake)
         (w : World) : World * Handshake * list HandshakeEvent :=
  match clientReadyPromise h with
  | Pending =>
      match events with
      | [] => (w, h, [])
      | ev :: rest =>
          let (w', h') := onHandshakeEvent ev h w in
          awaitClientReady rest h' w'
      end
  | _ => (w, h, events)
  end.

Fixpoint deliver (events : list HandshakeEvent) (h : Handshake) (w : World)
  : World :=
  match events with
  | [] => w
  | ev :: rest =>
      let (w', h') := onHandshakeEvent ev h w in deliver rest h' w'
  end.

(** The orders in which the event loop can deliver the timer and an
    acknowledgment that arrives [t] ms after the listener was registered
    (when both are due in the same millisecond either may come first; a
    timer that was cleared is never delivered). *)
Definition deliveries (ack : option (Z * bool)) : list (list HandshakeEvent) :=
  match ack with
  | None => [[TimeoutFired]]
  | Some (t, authenticated) =>
      if t <? 3000 then [[ClientReady authenticated]]
      else if t =? 3000
      then [[ClientReady authenticated];
            [TimeoutFired; ClientReady authenticated]]
      else [[TimeoutFired; ClientReady authenticated]]
  end.

(** *** Startup *)

Definition serveArgs (config : Config) (bindAddress : string) : list string :=
  ["serve";
   ("--http=" ++ bindAddress)%string;
   ("--dir=" ++ DataDir (Advanced config))%string;
   ("--publicDir=" ++ PublicDir (Advanced config))%string]
  ++ (if Dev (Advanced config) then ["--dev"] else [])
  ++ (if negb (AutoMigrate (Advanced config)) then ["--automigrate=false"] else []).

(** [startPocketBase()], up to the [setTimeout] that ends it.  The value
    is the [finalUrl] the timer callback closes over, or [None] when the
    function returned before it spawned the server.  The handlers of the
    output of the server only log and are left out. *)
Definition startPocketBase (env : Env) : Async (option string) :=
  fun w =>
    match validateConfig w with
    | (w, false) => (displayStartupStatus w, Fulfilled None)
    | (w, true) =>
        match getPocketBasePath env w with
        | (w, None) =>
            (displayStartupStatus
               (pushErrors ["PocketBase executable not found"] w),
             Fulfilled None)
        | (w, Some pbPath) =>
            (exec (setExecutablePath pbPath) ;;;
             _ <- checkAndUpdate env pbPath ;;
             exec (fun w => setExposeAdmin (ExposeAdmin (cfg w)) w) ;;;
             resolved <- resolveAddresses env ;;
             let '(bindAddress, finalUrl, publicIP) := resolved in
             exec (setAddresses bindAddress finalUrl) ;;;
             superuserSuccess <- createSuperuser env pbPath publicIP ;;
             if negb superuserSuccess
             then exec displayStartupStatus ;;; ret None
             else
               applyPendingMigrations env pbPath ;;;
               performStartupBackup env ;;;
               exec (fun w =>
                       let args := serveArgs (cfg w) bindAddress in
                       withProcess (Some (mkProcess pbPath args false))
                                   (record (Spawn pbPath args) w)) ;;;
               exec (record (TimerSet "settled" 1000)) ;;;
               ret (Some finalUrl)) w
        end
    end.

(** The callback of that timer, 1000 ms later: first the ready event and
    the wait for the client, *)
Definition handshake (env : Env) (finalUrl : string) (w : World)
  : World * Handshake * list HandshakeEvent :=
  let config := cfg w in
  let w := record (Emit "pocketbase:server:ready" finalUrl
                        (Port config) (ExposeAdmin config)) w in
  awaitClientReady (clientEvents env) handshakeStarted w.

(** then the rest. *)
Definition onSettled (env : Env) (finalUrl : string) : Async unit :=
  fun w =>
    match pocketbaseProcess w with
    | Some p =>
        if processKilled p then ret tt w
        else
          let config := cfg w in
          let '(w, h, late) := handshake env finalUrl w in
          match clientReadyPromise h with
          | Fulfilled _ =>
              let early := ExposeAdmin config && lateAckBeforeReport env in
              let w := if early then deliver late h w else w in
              let (w, done) :=
                ((if ExposeAdmin config then
                    passed <- checkPublicUrlHealth finalUrl (healthProbe env) ;;
                    exec (setHealthCheckPassed passed)
                  else ret tt) ;;;
                 exec displayStartupStatus ;;;
                 exec (record (TimerSet "configureSettings" 2000)) ;;;
                 scheduleBackups) w in
              (if early then w else deliver late h w, done)
          | _ => (w, Pending)
          end
    | None => ret tt w
    end.

(** One startup attempt: [startPocketBase()] and, when it came to set the
    timer, its callback. *)
Definition startup (env : Env) : Async unit :=
  finalUrl <- startPocketBase env ;;
  match finalUrl with
  | Some url => onSettled env url
  | None => ret tt
  end.

Definition initialWorld (l : Loader) : World :=
  mkWorld l initialStatus (mkBackend false [] []) None [].

(** *** Settings

    The settings as [pbInternalGetSettings] answers them; [None] is a
    property that is [undefined] or [null]. *)
Record SmtpSettings : Type := mkSmtpSettings {
  smtp_host : option string;
  smtp_port : option Z;
  smtp_username : option string;
  smtp_password : option string;
  smtp_localName : option string;
  smtp_tls : option bool
}.

Record S3Settings : Type := mkS3Settings {
  s3_bucket : option string;
  s3_region : option string;
  s3_endpoint : option string;
  s3_accessKey : option string;
  s3_secret : option string;
  s3_forcePathStyle : option bool
}.

Record Settings : Type := mkSettings {
  smtp : option SmtpSettings;
  s3 : option S3Settings
}.

Definition pbInternalGetSettings (answer : Promise Settings) : Async Settings :=
  fun w =>
    if clientReady (backend w) then (w, answer) else (w, Failed notReady).

(** [value !== configured] *)
Definition differsText (value : option string) (configured : string) : bool :=
  match value with
  | Some v => negb (v =? configured)%string
  | None => true
  end.

Definition differsNumber (value : option Z) (configured : Z) : bool :=
  match value with
  | Some v => negb (v =? configured)
  | None => true
  end.

(** [value || ""] *)
Definition orEmpty (value : option string) : string := orElse value EmptyString.

(** [settings.smtp.port || 587] *)
Definition orDefaultPort (value : option Z) : Z :=
  match value with
  | Some v => if v =? 0 then 587 else v
  | None => 587
  end.

Definition smtpChanges (c : SMTPConfig) (settings : Settings)
  : option SMTPUpdate :=
  match smtp settings with
  | Some s =>
      if SMTP_Enabled c
         && (differsText (smtp_host s) (SMTP_Host c)
             || differsNumber (smtp_port s) (SMTP_Port c)
             || differsText (smtp_username s) (SMTP_Username c)
             || differsText (smtp_password s) (SMTP_Password c))
      then Some (mkSMTPUpdate
                   (Some (orEmpty (smtp_host s)))
                   (Some (orDefaultPort (smtp_port s)))
                   (Some (orEmpty (smtp_username s)))
                   (Some (orEmpty (smtp_password s)))
                   (Some (orEmpty (smtp_localName s)))
                   (Some match smtp_tls s with
                         | Some false => false
                         | _ => true
                         end))
      else None
  | None => None
  end.

Definition s3Changes (c : S3Config) (settings : Settings) : option S3Update :=
  match s3 settings with
  | Some s =>
      if S3_Enabled c
         && (differsText (s3_bucket s) (S3_Bucket c)
             || differsText (s3_region s) (S3_Region c)
             || differsText (s3_endpoint s) (S3_Endpoint c)
             || differsText (s3_accessKey s) (S3_AccessKey c)
             || differsText (s3_secret s) (S3_SecretKey c))
      then Some (mkS3Update
                   (Some (orEmpty (s3_bucket s)))
                   (Some (orEmpty (s3_region s)))
                   (Some (orEmpty (s3_endpoint s)))
                   (Some (orEmpty (s3_accessKey s)))
                   (Some (orEmpty (s3_secret s)))
                   (Some match s3_forcePathStyle s with
                         | Some true => true
                         | _ => false
                         end))
      else None
  | None => None
  end.

Definition syncSettingsToConfig (env : Env) (answer : Promise Settings)
  : Async unit :=
  fun w =>
    let advanced := Advanced (cfg w) in
    if negb (SMTP_Enabled (SMTP advanced)) && negb (S3_Enabled (S3 advanced))
    then ret tt w
    else
      tryCatch
        (settings <- pbInternalGetSettings answer ;;
         fun w =>
           let advanced := Advanced (cfg w) in
           let updates :=
             mkUpdates (smtpChanges (SMTP advanced) settings)
                       (s3Changes (S3 advanced) settings) in
           let needsUpdate :=
             match upd_SMTP updates, upd_S3 updates with
             | None, None => false
             | _, _ => true
             end in
           if needsUpdate then
             let (l, _) :=
               updateAdvancedSettings updates (configWritable env) (loader w) in
             (record (Log "info"
                          "Config.lua updated with latest PocketBase settings")
                     (withLoader l w),
              Fulfilled tt)
           else ret tt w)
        (fun message =>
           exec (record (Log "warn"
                             ("Failed to sync settings to config: "
                                ++ message)%string)))
        w.

(** The compared properties are there, and the port is not 0. *)
Definition comparable (settings : Settings) : bool :=
  match smtp settings with
  | Some s =>
      match smtp_host s, smtp_port s, smtp_username s, smtp_password s with
      | Some _, Some port, Some _, Some _ => negb (port =? 0)
      | _, _, _, _ => false
      end
  | None => true
  end
  && match s3 settings with
     | Some s =>
         match s3_bucket s, s3_region s, s3_endpoint s,
               s3_accessKey s, s3_secret s with
         | Some _, Some _, Some _, Some _, Some _ => true
         | _, _, _, _, _ => false
         end
     | None => true
     end.

(** *** The status box

    The lines [displayStartupStatus] logs, for which the report of the
    trace stands.  Texts are kept in UTF-8; a
    character outside ASCII is written by its bytes, and the [length] of
    a JavaScript string is the number of its UTF-16 code units. *)

Definition glyph (a b c : ascii) : string :=
  String a (String b (String c EmptyString)).

Definition crossMark : string := glyph "226" "157" "140".
Definition warningSign : string :=
  (glyph "226" "154" "160" ++ glyph "239" "184" "143")%string.
Definition checkMark : string := glyph "226" "156" "133".
Definition ballotX : string := glyph "226" "156" "151".
Definition tick : string := glyph "226" "156" "147".
Definition bullet : string := glyph "226" "128" "162".
Definition horizontal : string := glyph "226" "149" "144".
Definition topLeft : string := glyph "226" "149" "148".
Definition topRight : string := glyph "226" "149" "151".
Definition vertical : string := glyph "226" "149" "145".
Definition bottomLeft : string := glyph "226" "149" "154".
Definition bottomRight : string := glyph "226" "149" "157".

(** The code units of one byte of UTF-8: a continuation byte adds none,
    the first byte of a character outside the basic plane two. *)
Definition codeUnits (c : ascii) : nat :=
  let n := nat_of_ascii c in
  if (n <? 128)%nat then 1%nat
  else if (n <? 192)%nat then 0%nat
  else if (n <? 240)%nat then 1%nat
  else 2%nat.

(** [str.length] *)
Fixpoint jsLength (s : string) : nat :=
  match s with
  | EmptyString => O
  | String c s' => (codeUnits c + jsLength s')%nat
  end.

(** [str.repeat(count)] *)
Fixpoint repeatString (s : string) (count : nat) : string :=
  match count with
  | O => EmptyString
  | S count' => (s ++ repeatString s count')%string
  end.

(** [line.replace(/\^\d/g, "")] *)
Fixpoint stripColors (line : string) : string :=
  match line with
  | EmptyString => EmptyString
  | String c rest =>
      if Ascii.eqb c "^" then
        match rest with
        | String d rest' =>
            if isDigit d then stripColors rest'
            else String c (stripColors rest)
        | EmptyString => String c EmptyString
        end
      else String c (stripColors rest)
  end.

Definition red (msg : string) : string := ("^1" ++ msg ++ "^7")%string.
Definition green (msg : string) : string := ("^2" ++ msg ++ "^7")%string.
Definition yellow (msg : string) : string := ("^3" ++ msg ++ "^7")%string.
Definition cyan (msg : string) : string := ("^6" ++ msg ++ "^7")%string.
Definition magenta (msg : string) : string := ("^5" ++ msg ++ "^7")%string.
Definition white (msg : string) : string := ("^7" ++ msg)%string.

(** The title, chosen from the status as it is when the function is
    entered. *)
Definition boxTitle (s : StartupStatus) : string :=
  if (0 <? length (errors s))%nat
  then red (crossMark ++ "  PocketBase - Startup Failed")
  else if (0 <? length (warnings s))%nat
  then yellow (warningSign ++ "  PocketBase - Running with Warnings")
  else green (checkMark ++ "  PocketBase - System Ready").

(** [healthColor(healthStatus)], when [healthStatus] is not empty. *)
Definition healthLine (s : StartupStatus) : option string :=
  match clientAuthenticated s with
  | Some false => Some (red (ballotX ++ " Authentication Failed"))
  | Some true =>
      if exposeAdmin s then
        if healthCheckPassed s then Some (green (tick ++ " Started"))
        else Some (red (ballotX ++ " Public URL Not Accessible"))
      else Some (green (tick ++ " Started"))
  | None => None
  end.

(** [boxContent]: [s] is the status when the function is entered, [s']
    the status after the warnings the function adds. *)
Definition boxContent (s s' : StartupStatus) : list string :=
  [boxTitle s; EmptyString;
   (white "Mode:    " ++ " "
      ++ (if exposeAdmin s then cyan "Public" else green "Internal"))%string;
   (white "Binding: " ++ " " ++ magenta (bindAddress s))%string]
  ++ (if exposeAdmin s
      then [(white "Admin:   " ++ " " ++ cyan (publicUrl s ++ "/_/"))%string]
      else [])
  ++ match healthLine s with
     | Some status => [(white "Status:  " ++ " " ++ status)%string]
     | None => []
     end
  ++ (if truthy (superuserEmail s)
      then [EmptyString;
            (white "Email:   " ++ " " ++ cyan (superuserEmail s))%string;
            (white "Pass:    " ++ " " ++ cyan (superuserPassword s))%string]
      else [])
  ++ (if (0 <? length (warnings s'))%nat
      then [EmptyString; yellow (warningSign ++ "  Warnings:")]
           ++ map (fun warning =>
                     (yellow ("   " ++ bullet ++ " ") ++ " " ++ warning)%string)
                  (warnings s')
      else [])
  ++ (if (0 <? length (errors s'))%nat
      then [EmptyString; red (crossMark ++ "  Errors:")]
           ++ map (fun error =>
                     (red ("   " ++ bullet ++ " ") ++ " " ++ error)%string)
                  (errors s')
      else []).

(** The length of a line as it shows, without its colour codes. *)
Definition visibleLength (line : string) : nat := jsLength (stripColors line).

(** A text without the character that starts a colour code. *)
Definition noCaret : string -> bool := allChars (isNot "^").

(** [Math.max(...lengths)] of lengths, which are not negative. *)
Definition maxLength (content : list string) : nat :=
  fold_right Nat.max O (map visibleLength content).

(** The lines logged for the content: an empty line, the box, an empty
    line. *)
Definition drawBox (content : list string) : list string :=
  let border := repeatString horizontal (maxLength content + 4) in
  [EmptyString; (topLeft ++ border ++ topRight)%string]
  ++ map (fun line =>
            let padding :=
              repeatString " " (maxLength content - visibleLength line) in
            (vertical ++ "  " ++ line ++ padding ++ "  " ++ vertical)%string)
         content
  ++ [(bottomLeft ++ border ++ bottomRight)%string; EmptyString].

(** The lines one call of [displayStartupStatus] logs. *)
Definition statusBox (w : World) : list string :=
  drawBox (boxContent (startupStatus w)
                      (startupStatus (displayStartupStatus w))).

(** *** Generated passwords *)

Definition base64Alphabet : string :=
  "ABCDEFGHIJKLMNOPQRSTUVWXYZabcdefghijklmnopqrstuvwxyz0123456789+/".

(** The character of a six-bit value. *)
Definition base64Char (sextet : nat) : ascii :=
  match String.get sextet base64Alphabet with
  | Some c => c
  | None => "="%char
  end.

(** [buffer.toString("base64")]: three bytes give four characters, and
    the last group is padded with [=]. *)
Fixpoint base64 (bytes : list Byte.byte) : string :=
  let value b := N.to_nat (Byte.to_N b) in
  match bytes with
  | [] => EmptyString
  | [a] =>
      String (base64Char (value a / 4))
        (String (base64Char (value a mod 4 * 16)) "==")
  | [a; b] =>
      String (base64Char (value a / 4))
        (String (base64Char (value a mod 4 * 16 + value b / 16))
           (String (base64Char (value b mod 16 * 4)) "="))
  | a :: b :: c :: rest =>
      String (base64Char (value a / 4))
        (String (base64Char (value a mod 4 * 16 + value b / 16))
           (String (base64Char (value b mod 16 * 4 + value c / 64))
              (String (base64Char (value c mod 64)) (base64 rest))))
  end%nat.

(** [generateRandomPassword(length)], on the bytes [crypto.randomBytes]
    hands out: [bytes.toString("base64").slice(0, length)]. *)
Definition generateRandomPassword (randomBytes : list Byte.byte) (length : nat)
  : string :=
  String.substring 0 length (base64 randomBytes).

(** A character of the base64 alphabet. *)
Definition isBase64 (c : ascii) : bool :=
  isAlpha c || isDigit c || Ascii.eqb c "+" || Ascii.eqb c "/".

(** *** Vocabulary of the properties *)

(** [m] keeps [P]: whatever [m] does to a state in [P] leaves it in [P]. *)
Definition keeps {A : Type} (P : World -> Prop) (m : Async A) : Prop :=
  forall w, P w -> P (fst (m w)).

(** A property that none of the elementary state changes of the steps
    after the address resolution can break. *)
Record Stable (P : World -> Prop) : Prop := mkStable {
  stable_record : forall e w, P w -> P (record e w);
  stable_pushWarning : forall msg w, P w -> P (pushWarning msg w);
  stable_pushErrors : forall es w, P w -> P (pushErrors es w);
  stable_displayed :
    forall email password w, P w -> P (setDisplayedCredentials email password w);
  stable_backend : forall b w, P w -> P (withBackend b w);
  stable_process : forall p w, P w -> P (withProcess p w);
  stable_credentials :
    forall email password writable w,
      P w ->
      P (withLoader
           (fst (updateSuperuserCredentials email password writable (loader w)))
           w)
}.

(** The part of the configuration the addresses and the server arguments
    are computed from. *)
Definition network (c : Config) : bool * string * Z * AdvancedConfig :=
  (ExposeAdmin c, Host c, Port c, Advanced c).

(** What a run of [createSuperuser] with persisted credentials does: one
    upsert with exactly these credentials, and nothing to the loader (no
    generation, no write to [config.lua]) nor to the displayed
    credentials. *)
Definition reusesCredentials (pbPath : string) (w w' : World) : Prop :=
  loader w' = loader w
  /\ superuserEmail (startupStatus w') = superuserEmail (startupStatus w)
  /\ superuserPassword (startupStatus w') = superuserPassword (startupStatus w)
  /\ trace w' =
       trace w ++ [Spawn pbPath
                     ["superuser"; "upsert";
                      Email (Superuser (cfg w)); Password (Superuser (cfg w));
                      "--dir"; DataDir (Advanced (cfg w))]].

(** [a] was created no earlier than [b]. *)
Definition newerOrEqual (a b : BackupRecord) : Prop :=
  match created a, created b with
  | Some ta, Some tb => tb <= ta
  | _, _ => False
  end.

(** The date of the backup is valid. *)
Definition dated (b : BackupRecord) : bool :=
  match created b with
  | Some _ => true
  | None => false
  end.

(** The backend will refuse none of the deletions to come. *)
Definition obliging (b : Backend) : bool :=
  forallb (fun answer => match answer with
                         | None => true
                         | Some _ => false
                         end)
          (refusals b).

(** Does [b] have the key of one of [ds]? *)
Definition keyAmong (ds : list BackupRecord) (b : BackupRecord) : bool :=
  existsb (fun d => hasKey (key d) b) ds.

(** The child processes started so far, oldest first: the executable and
    its arguments. *)
Definition spawned (w : World) : list (string * list string) :=
  flat_map (fun e => match e with
                     | Spawn command args => [(command, args)]
                     | _ => []
                     end)
           (trace w).

(** What a step of the startup leaves alone: the loader, the backend and
    the handle of the server; and the processes it starts. *)
Definition step (started : list (string * list string)) (w w' : World) : Prop :=
  loader w' = loader w
  /\ backend w' = backend w
  /\ pocketbaseProcess w' = pocketbaseProcess w
  /\ spawned w' = spawned w ++ started.

(** The configuration but for the credentials of the superuser. *)
Definition settings (c : Config)
  : bool * string * Z * bool * MigrationsConfig * BackupConfig * AdvancedConfig :=
  (ExposeAdmin c, Host c, Port c, AutoUpdate c, Migrations c, Backup c,
   Advanced c).

(** The credentials [createSuperuser] upserts: those of the configuration
    when it has both, generated ones otherwise. *)
Definition upsertedCredentials (env : Env) (publicIP : option string)
           (c : Config) : string * string :=
  if hasConfigCredentials c
  then (Email (Superuser c), Password (Superuser c))
  else (("admin@"
           ++ match publicIP with
              | Some ip => if truthy ip then ip else "localhost"
              | None => "localhost"
              end
           ++ ".local")%string,
        randomPassword env).

(** A startup attempt that ends in a fatal error: the error is among
    those reported, [startPocketBase] returns without setting the timer,
    and all it did to the outside was to draw the status box; no process
    was spawned and the handle of the server is as it was. *)
Definition abortsWith (message : string) (env : Env) (w : World) : Prop :=
  let wf := fst (startup env w) in
  snd (startPocketBase env w) = Fulfilled None
  /\ snd (startup env w) = Fulfilled tt
  /\ In message (errors (startupStatus wf))
  /\ pocketbaseProcess wf = pocketbaseProcess w
  /\ trace wf = trace w ++ [Report (startupStatus wf)].

(** *** Examples *)

Definition exampleEnv : Env :=
  mkEnv "/srv/pb" "linux" true None
        (Spawned [Close (Some 0)])
        (IPBody "203.0.113.7")
        "qOl9dbdZHF54ixFfM9th"
        (Spawned [StdoutData "Successfully saved superuser"; Close (Some 0)])
        true
        (Spawned [Close (Some 0)])
        "2025-01-02T03:04:05.678Z"
        (fun _ => Failed "backups are not available")
        [ClientReady true]
        false
        (Requested [Response 200]).

Definition withConfig (c : Config) : World :=
  initialWorld (mkLoader c EmptyString "/srv/pb/config.lua" EmptyString).

(** The defaults, with a host set, which is ignored. *)
Definition hostedConfig : Config :=
  mkConfig false "pb.example.com" 8090 false
           (Superuser defaultConfig) (Migrations defaultConfig)
           (Backup defaultConfig) (Advanced defaultConfig).

(** The defaults, with the admin exposed. *)
Definition exposedConfig : Config :=
  mkConfig true "" 8090 false
           (Superuser defaultConfig) (Migrations defaultConfig)
           (Backup defaultConfig) (Advanced defaultConfig).

(** A [config.lua] with backups enabled, for a port, a number of backups
    to keep and a switch for SMTP, whose host is empty; and the state
    before a startup that has loaded it. *)
Definition settingsDocument (port keepLast : string) (smtp : bool) : string :=
  unlines ["Config = {}";
           ("Config.Port = " ++ port)%string;
           "Config.Backup = {";
           "    Enabled = true,";
           "    OnStartup = false,";
           "    Schedule = 0,";
           ("    KeepLast = " ++ keepLast ++ ",")%string;
           "}";
           "Config.Advanced = {";
           "    SMTP = {";
           ("        Enabled = " ++ string_of_bool smtp ++ ",")%string;
           ("        Host = " ++ quoted "" ++ ",")%string;
           "        Port = 587,";
           "    },";
           "}";
           "return Config"].

Definition loaded (document : string) : World :=
  initialWorld (fst (load "/srv/pb" (FileContent document) None)).

(** The defaults, with credentials. *)
Definition provisionedConfig : Config :=
  mkConfig false "" 8090 false
           (mkSuperuser "admin@localhost.local" "qOl9dbdZHF54ixFfM9th")
           (Migrations defaultConfig)
           (Backup defaultConfig) (Advanced defaultConfig).

(** The admin exposed on an IPv6 address written without brackets, with
    credentials. *)
Definition bareIPv6Config : Config :=
  mkConfig true "::1" 8090 false
           (mkSuperuser "admin@localhost.local" "qOl9dbdZHF54ixFfM9th")
           (Migrations defaultConfig)
           (Backup defaultConfig) (Advanced defaultConfig).

(** The environment of the example, where [new URL] refuses the URL. *)
Definition malformedUrlEnv : Env :=
  mkEnv (resourcePath exampleEnv) (platform exampleEnv)
        (executableExists exampleEnv) (chmodError exampleEnv)
        (updateChild exampleEnv) (ipProbe exampleEnv)
        (randomPassword exampleEnv) (upsertChild exampleEnv)
        (configWritable exampleEnv) (migrateChild exampleEnv)
        (isoTime exampleEnv) (backupCreation exampleEnv)
        (clientEvents exampleEnv) (lateAckBeforeReport exampleEnv)
        (UrlInvalid "Invalid URL").

(** The environment of the example on a platform that is not supported, *)
Definition unsupportedEnv : Env :=
  mkEnv (resourcePath exampleEnv) "darwin"
        (executableExists exampleEnv) (chmodError exampleEnv)
        (updateChild exampleEnv) (ipProbe exampleEnv)
        (randomPassword exampleEnv) (upsertChild exampleEnv)
        (configWritable exampleEnv) (migrateChild exampleEnv)
        (isoTime exampleEnv) (backupCreation exampleEnv)
        (clientEvents exampleEnv) (lateAckBeforeReport exampleEnv)
        (healthProbe exampleEnv).

(** with an upsert that fails, *)
Definition failingUpsertEnv : Env :=
  mkEnv (resourcePath exampleEnv) (platform exampleEnv)
        (executableExists exampleEnv) (chmodError exampleEnv)
        (updateChild exampleEnv) (ipProbe exampleEnv)
        (randomPassword exampleEnv)
        (Spawned [StderrData "Error: invalid email"; Close (Some 1)])
        (configWritable exampleEnv) (migrateChild exampleEnv)
        (isoTime exampleEnv) (backupCreation exampleEnv)
        (clientEvents exampleEnv) (lateAckBeforeReport exampleEnv)
        (healthProbe exampleEnv).

(** and with migrations that cannot be started. *)
Definition failingMigrationsEnv : Env :=
  mkEnv (resourcePath exampleEnv) (platform exampleEnv)
        (executableExists exampleEnv) (chmodError exampleEnv)
        (updateChild exampleEnv) (ipProbe exampleEnv)
        (randomPassword exampleEnv) (upsertChild exampleEnv)
        (configWritable exampleEnv)
        (SpawnThrows "spawn EINVAL")
        (isoTime exampleEnv) (backupCreation exampleEnv)
        (clientEvents exampleEnv) (lateAckBeforeReport exampleEnv)
        (healthProbe exampleEnv).

(** The defaults, with an email but no password. *)
Definition emailOnlyConfig : Config :=
  mkConfig false "" 8090 false
           (mkSuperuser "owner@example.com" "")
           (Migrations defaultConfig)
           (Backup defaultConfig) (Advanced defaultConfig).

(** The defaults, with credentials and backups at startup. *)
Definition backupConfig : Config :=
  mkConfig false "" 8090 false
           (mkSuperuser "admin@localhost.local" "qOl9dbdZHF54ixFfM9th")
           (Migrations defaultConfig)
           (mkBackup true true 0 7 "auto_") (Advanced defaultConfig).

(** Backups enabled, two automatic backups kept; a backend with three
    automatic backups and one made by hand. *)
Definition rotatingConfig : Config :=
  mkConfig false "" 8090 false
           (Superuser defaultConfig) (Migrations defaultConfig)
           (mkBackup true true 0 2 "auto_") (Advanced defaultConfig).

Definition fourBackups : list BackupRecord :=
  [mkBackupRecord "auto_startup_2025-01-01T00-00-00" (Some 1735689600000);
   mkBackupRecord "before_upgrade" (Some 1735776000000);
   mkBackupRecord "auto_scheduled_2025-01-03T00-00-00" (Some 1735862400000);
   mkBackupRecord "auto_scheduled_2025-01-02T00-00-00" (Some 1735776000000)].

Definition rotatingWorld : World :=
  mkWorld (mkLoader rotatingConfig EmptyString "/srv/pb/config.lua" EmptyString)
          initialStatus (mkBackend true fourBackups []) None [].

(** The backend as it lists three automatic backups, the oldest first,
    in records that have a key and no [created]; *)
Definition undatedBackups : list BackupRecord :=
  [mkBackupRecord "auto_startup_2025-01-01T00-00-00" None;
   mkBackupRecord "auto_scheduled_2025-01-02T00-00-00" None;
   mkBackupRecord "auto_scheduled_2025-01-03T00-00-00" None].

Definition undatedWorld : World :=
  mkWorld (mkLoader rotatingConfig EmptyString "/srv/pb/config.lua" EmptyString)
          initialStatus (mkBackend true undatedBackups []) None [].

(** and the backend of the example when it refuses the first deletion. *)
Definition refusingWorld : World :=
  mkWorld (mkLoader rotatingConfig EmptyString "/srv/pb/config.lua" EmptyString)
          initialStatus
          (mkBackend true fourBackups [Some "Try again later."]) None [].

(** A file that enables SMTP, the loader that read it, with a client that
    is ready; *)
Definition mailDocument : string :=
  unlines ["Config = {}";
           "Config.Advanced = {";
           "    SMTP = {";
           "        Enabled = true,";
           ("        Host = " ++ quoted "" ++ ",")%string;
           "        Port = 587,";
           ("        Username = " ++ quoted "" ++ ",")%string;
           ("        Password = " ++ quoted "" ++ ",")%string;
           ("        LocalName = " ++ quoted "" ++ ",")%string;
           "        TLS = true,";
           "    },";
           "}";
           "return Config"].

Definition mailWorld : World :=
  withBackend (mkBackend true [] [])
    (initialWorld (fst (load "/srv/pb" (FileContent mailDocument) None))).

(** the settings of a backend whose SMTP server was set in its
    dashboard; *)
Definition mailSettings : Settings :=
  mkSettings
    (Some (mkSmtpSettings (Some "mail.example.com") (Some 465)
                          (Some "postmaster") (Some "hunter2")
                          None None))
    None.

(** and the environment of the example with a [config.lua] that cannot be
    written. *)
Definition readOnlyEnv : Env :=
  mkEnv (resourcePath exampleEnv) (platform exampleEnv)
        (executableExists exampleEnv) (chmodError exampleEnv)
        (updateChild exampleEnv) (ipProbe exampleEnv)
        (randomPassword exampleEnv) (upsertChild exampleEnv)
        false (migrateChild exampleEnv)
        (isoTime exampleEnv) (backupCreation exampleEnv)
        (clientEvents exampleEnv) (lateAckBeforeReport exampleEnv)
        (healthProbe exampleEnv).

(** The environment of the example with a client that acknowledges, as
    authenticated, after the timer of the server has fired. *)
Definition slowClientEnv : Env :=
  mkEnv (resourcePath exampleEnv) (platform exampleEnv)
        (executableExists exampleEnv) (chmodError exampleEnv)
        (updateChild exampleEnv) (ipProbe exampleEnv)
        (randomPassword exampleEnv) (upsertChild exampleEnv)
        (configWritable exampleEnv) (migrateChild exampleEnv)
        (isoTime exampleEnv) (backupCreation exampleEnv)
        [TimeoutFired; ClientReady true] (lateAckBeforeReport exampleEnv)
        (healthProbe exampleEnv).

End Server.

(* ---------------------------------------------------------------------- *)
(** ** client.js: readiness and authentication *)

Module Client.
Import ProcessUtils ConfigLoader.

(** The variables of the client: [isReady], [isAuthenticated] and the
    callbacks waiting in [readyCallbacks]; and, for the record, the
    callbacks that were called, one entry for each call, and the lines
    that were logged.  A callback is known by a number. *)
Record ClientState : Type := mkClient {
  isReady : bool;
  isAuthenticated : bool;
  readyCallbacks : list nat;
  called : list nat;
  logged : list string
}.

Definition started : ClientState := mkClient false false [] [] [].

Section Callbacks.
(** The callbacks are code of other resources: [throwsAt n c] is the
    message of the error that the callback [c] throws when it is called
    after [n] calls of callbacks, and [None] when it returns. *)
Variable throwsAt : nat -> nat -> option string.

(** [readyCallbacks.forEach((callback) => callback())]: the calls made,
    and the error that ended them. *)
Fixpoint callAll (waiting : list nat) (calls : list nat)
  : list nat * option string :=
  match waiting with
  | [] => (calls, None)
  | callback :: rest =>
      match throwsAt (length calls) callback with
      | Some message => (calls ++ [callback], Some message)
      | None => callAll rest (calls ++ [callback])
      end
  end.

(** [notifyReady()]: the waiting callbacks are called in their order and
    the list is emptied; when one of them throws, the error goes on to
    the caller and the list is left as it is.  With the state comes the
    error thrown. *)
Definition notifyReady (s : ClientState) : ClientState * option string :=
  match callAll (readyCallbacks s) (called s) with
  | (calls, None) =>
      (mkClient true (isAuthenticated s) [] calls (logged s), None)
  | (calls, Some message) =>
      (mkClient true (isAuthenticated s) (readyCallbacks s) calls (logged s),
       Some message)
  end.

(** [onReady(callback)] *)
Definition onReady (callback : nat) (s : ClientState)
  : ClientState * option string :=
  if isReady s
  then (mkClient (isReady s) (isAuthenticated s) (readyCallbacks s)
                 (called s ++ [callback]) (logged s),
        throwsAt (length (called s)) callback)
  else (mkClient (isReady s) (isAuthenticated s)
                 (readyCallbacks s ++ [callback]) (called s) (logged s),
        None).

(** The [catch] block of [tryAuthenticate]. *)
Definition authenticationFailed (message : string) (s : ClientState)
  : ClientState * option string :=
  notifyReady
    (mkClient (isReady s) (isAuthenticated s) (readyCallbacks s) (called s)
              (logged s
                 ++ [("^1[PocketBase Client]^7 Authentication failed: "
                        ++ message)%string])).

(** [tryAuthenticate()]: [authWithPassword] tells how the i-th request to
    the server ends.  With the state it leaves come the run of the
    retries, when there was one, and the error the function throws: that
    of a callback, which the [catch] block takes for a failed
    authentication before it calls [notifyReady] again, or the one of
    reading [authErr.message] from an error that is [undefined]. *)
Definition tryAuthenticate (config : Config)
           (authWithPassword : nat -> Outcome unit string) (s : ClientState)
  : ClientState * option (RetryRun unit string) * option string :=
  if negb (truthy (Email (Superuser config)))
     || negb (truthy (Password (Superuser config)))
  then let (s', thrown) := notifyReady s in (s', None, thrown)
  else
    let run := retryWithBackoff authWithPassword 10 100 2000 in
    match settled run with
    | Resolved _ =>
        match notifyReady
                (mkClient (isReady s) true (readyCallbacks s) (called s)
                          (logged s)) with
        | (s', None) => (s', Some run, None)
        | (s', Some message) =>
            let (s'', thrown) := authenticationFailed message s' in
            (s'', Some run, thrown)
        end
    | Rejected (Some message) =>
        let (s', thrown) := authenticationFailed message s in
        (s', Some run, thrown)
    | Rejected None =>
        (s, Some run,
         Some "Cannot read properties of undefined (reading 'message')")
    end.

(** The listener of [pocketbase:server:ready]: the state it leaves and,
    when it comes to emit [pocketbase:client:ready], the [authenticated]
    flag of the event and the time it has waited between the attempts
    before; [None] when [tryAuthenticate] throws. *)
Definition onServerReady (config : Config)
           (authWithPassword : nat -> Outcome unit string) (s : ClientState)
  : ClientState * option (bool * Z) :=
  match tryAuthenticate config authWithPassword s with
  | (s', run, None) =>
      (s', Some (isAuthenticated s',
                 match run with
                 | Some r => totalDelay r
                 | None => 0
                 end))
  | (s', _, Some _) => (s', None)
  end.
End Callbacks.

(** [wrapAsync(fn)], called: [outcome] is how [fn] ends when it is
    run. *)
Definition wrapAsync {A : Type} (name : string) (outcome : Promise A)
           (s : ClientState) : ClientState * Promise A :=
  let failed message :=
    (mkClient (isReady s) (isAuthenticated s) (readyCallbacks s) (called s)
              (logged s ++ [("^1[PocketBase Client]^7 " ++ name ++ ": "
                               ++ message)%string]),
     Failed message) in
  if isReady s then
    match outcome with
    | Failed message => failed message
    | settled => (s, settled)
    end
  else failed "PocketBase client not ready yet - wait for isReady() to return true".

(** What a resource may do to the readiness of the client. *)
Inductive ReadyOp : Type :=
| Register (callback : nat)     (* [onReady(callback)] *)
| Notify.                       (* [notifyReady()] *)

(** The state after the operation, whether it returned or threw. *)
Definition perform (throwsAt : nat -> nat -> option string)
           (s : ClientState) (op : ReadyOp) : ClientState :=
  match op with
  | Register callback => fst (onReady throwsAt callback s)
  | Notify => fst (notifyReady throwsAt s)
  end.

(** The callbacks registered by a sequence of operations, in order. *)
Definition registered (ops : list ReadyOp) : list nat :=
  flat_map (fun op => match op with
                      | Register callback => [callback]
                      | Notify => []
                      end) ops.


Definition acceptsSeventh (i : nat) : Outcome unit string :=
  if (i <? 6)%nat then Throws "connect ECONNREFUSED" else Returns tt.

Definition refuses (i : nat) : Outcome unit string :=
  Throws "Failed to authenticate.".

(** Callbacks that all return, and callbacks of which the second always
    throws. *)
Definition allReturn (n callback : nat) : option string := None.

Definition secondThrows (n callback : nat) : option string :=
  if (callback =? 2)%nat then Some "attempt to index a nil value" else None.

End Client.

(* ====================================================================== *)
(** * Part II: properties                                                   *)
(* ====================================================================== *)

Import ProcessUtils ConfigLoader Server.

(* ---------------------------------------------------------------------- *)
(** ** Retry with exponential backoff *)

Section RetryFacts.
Import ProcessUtils.
Context {V E : Type}.
Variable fn : nat -> Outcome V E.
Variables maxAttempts baseDelay maxDelay : Z.

Let loop := retryLoop fn maxAttempts baseDelay maxDelay.
Let delayAt := backoffDelay baseDelay maxDelay.

Local Abbreviation delaysFrom := (ProcessUtils.delaysFrom baseDelay maxDelay).

Lemma delaysFrom_nth a n k d :
  nth_error (delaysFrom a n) k = Some d -> d = delayAt (a + Z.of_nat k).
Proof.
  revert a k; induction n as [|n IH]; intros a k; simpl.
  - destruct k; discriminate.
  - destruct k as [|k]; simpl.
    + intros [= <-]. now rewrite Z.add_0_r.
    + intros H. apply IH in H. subst d. f_equal. lia.
Qed.

(** A run never invokes [fn] more often than it has iterations left. *)
Lemma retryLoop_calls fuel attempt lastError ncalls waited :
  (ncalls <= calls (loop fuel attempt lastError ncalls waited)
          <= ncalls + fuel)%nat.
Proof.
  revert attempt lastError ncalls waited.
  induction fuel as [|fuel IH]; intros; simpl.
  - lia.
  - destruct (fn ncalls); simpl; [lia|].
    match goal with |- context [loop fuel ?a ?e ?c ?w] =>
      specialize (IH a e c w) end.
    lia.
Qed.

(** [n] failures followed by a success, with iterations to spare. *)
Lemma retryLoop_succeeds n v : forall fuel attempt lastError ncalls waited,
  (forall i, (i < n)%nat -> exists e, fn (ncalls + i) = Throws e) ->
  fn (ncalls + n) = Returns v ->
  (n < fuel)%nat ->
  attempt + Z.of_nat n <= maxAttempts ->
  loop fuel attempt lastError ncalls waited =
    mkRetryRun (Resolved v) (S (ncalls + n))
               (waited ++ delaysFrom attempt n).
Proof.
  induction n as [|n IH]; intros fuel attempt lastError ncalls waited
    Hthrow Hret Hfuel Hatt.
  - destruct fuel as [|fuel]; [lia|]. simpl.
    rewrite Nat.add_0_r in Hret. rewrite Hret.
    now rewrite app_nil_r, Nat.add_0_r.
  - destruct fuel as [|fuel]; [lia|]. simpl.
    destruct (Hthrow O ltac:(lia)) as [e He].
    rewrite Nat.add_0_r in He. rewrite He.
    assert (Hlt : (attempt <? maxAttempts) = true)
      by (apply Z.ltb_lt; lia).
    rewrite Hlt.
    unfold loop in IH. rewrite IH.
    + rewrite <- app_assoc. simpl. do 2 f_equal. lia.
    + intros i Hi. destruct (Hthrow (S i) ltac:(lia)) as [e' He'].
      exists e'. rewrite <- He'. f_equal. lia.
    + rewrite <- Hret. f_equal. lia.
    + lia.
    + lia.
Qed.

(** Every iteration fails: the loop runs dry and rethrows the error of
    the last invocation. *)
Lemma retryLoop_exhausted : forall fuel attempt lastError ncalls waited,
  (forall i, (i <= fuel)%nat -> exists e, fn (ncalls + i) = Throws e) ->
  attempt + Z.of_nat fuel = maxAttempts ->
  exists e,
    fn (ncalls + fuel) = Throws e /\
    loop (S fuel) attempt lastError ncalls waited =
      mkRetryRun (Rejected (Some e)) (S (ncalls + fuel))
                 (waited ++ delaysFrom attempt fuel).
Proof.
  induction fuel as [|fuel IH]; intros attempt lastError ncalls waited
    Hthrow Hatt.
  - destruct (Hthrow O ltac:(lia)) as [e He]. exists e. split; [exact He|].
    rewrite Nat.add_0_r in He. simpl. rewrite He.
    assert (Hge : (attempt <? maxAttempts) = false)
      by (apply Z.ltb_ge; lia).
    rewrite Hge. simpl. now rewrite app_nil_r, Nat.add_0_r.
  - destruct (Hthrow O ltac:(lia)) as [e0 He0].
    rewrite Nat.add_0_r in He0.
    destruct (IH (attempt + 1) (Some e0) (S ncalls)
                 (waited ++ [delayAt attempt])) as (e & He & Hrun).
    + intros i Hi. destruct (Hthrow (S i) ltac:(lia)) as [e' He'].
      exists e'. rewrite <- He'. f_equal. lia.
    + lia.
    + exists e. split.
      * rewrite <- He. f_equal. lia.
      * unfold loop, delayAt in *.
        change (retryLoop fn maxAttempts baseDelay maxDelay (S (S fuel))
                          attempt lastError ncalls waited)
          with (match fn ncalls with
                | Returns v => mkRetryRun (Resolved v) (S ncalls) waited
                | Throws error =>
                    retryLoop fn maxAttempts baseDelay maxDelay (S fuel)
                      (attempt + 1) (Some error) (S ncalls)
                      (if attempt <? maxAttempts
                       then waited ++ [backoffDelay baseDelay maxDelay attempt]
                       else waited)
                end).
        rewrite He0.
        assert (Hlt : (attempt <? maxAttempts) = true)
          by (apply Z.ltb_lt; lia).
        rewrite Hlt, Hrun.
        rewrite <- app_assoc. simpl. do 2 f_equal. lia.
Qed.

(** Once the attempt counter has reached [maxAttempts] no delay is added. *)
Lemma retryLoop_delays_done : forall fuel attempt lastError ncalls waited,
  maxAttempts <= attempt ->
  delays (loop fuel attempt lastError ncalls waited) = waited.
Proof.
  induction fuel as [|fuel IH]; intros attempt lastError ncalls waited Ha;
    simpl; auto.
  destruct (fn ncalls); simpl; auto.
  assert (Hge : (attempt <? maxAttempts) = false) by (apply Z.ltb_ge; lia).
  rewrite Hge. apply IH. lia.
Qed.

(** The delays waited are always a prefix of the backoff schedule. *)
Lemma retryLoop_delays : forall fuel attempt lastError ncalls waited,
  exists n, (n <= fuel)%nat /\
    delays (loop fuel attempt lastError ncalls waited) =
      waited ++ delaysFrom attempt n.
Proof.
  induction fuel as [|fuel IH]; intros attempt lastError ncalls waited.
  - exists O. simpl. split; [lia | now rewrite app_nil_r].
  - simpl. destruct (fn ncalls) as [v|e]; simpl.
    + exists O. simpl. split; [lia | now rewrite app_nil_r].
    + destruct (attempt <? maxAttempts) eqn:Hlt.
      * destruct (IH (attempt + 1) (Some e) (S ncalls)
                     (waited ++ [delayAt attempt])) as (n & Hn & Hd).
        exists (S n). split; [lia|].
        unfold loop, delayAt in *. rewrite Hd.
        rewrite <- app_assoc. reflexivity.
      * exists O. split; [lia|]. simpl. rewrite app_nil_r.
        apply Z.ltb_ge in Hlt.
        apply retryLoop_delays_done. lia.
Qed.
(** Between two invocations there is exactly one delay. *)
Lemma retryLoop_delay_count : forall fuel attempt lastError ncalls waited,
  attempt + Z.of_nat fuel = maxAttempts + 1 ->
  fuel <> O ->
  let run := loop fuel attempt lastError ncalls waited in
  (length (delays run) + S ncalls = length waited + calls run)%nat.
Proof.
  induction fuel as [|fuel IH]; intros attempt lastError ncalls waited
    Hatt Hfuel; [congruence|].
  unfold loop in *.
  simpl. destruct (fn ncalls) as [v|e]; simpl; [lia|].
  destruct fuel as [|fuel].
  - assert (Hge : (attempt <? maxAttempts) = false)
      by (apply Z.ltb_ge; lia).
    rewrite Hge. simpl. lia.
  - assert (Hlt : (attempt <? maxAttempts) = true)
      by (apply Z.ltb_lt; lia).
    rewrite Hlt.
    specialize (IH (attempt + 1) (Some e) (S ncalls)
                   (waited ++ [delayAt attempt])
                   ltac:(lia) ltac:(discriminate)).
    cbv zeta in IH. unfold delayAt in *.
    rewrite length_app in IH. cbn [Datatypes.length] in IH. lia.
Qed.
End RetryFacts.

(** C6. With (maxAttempts, baseDelay, maxDelay) = (10, 100, 2000):
    an operation that throws on its first three invocations and returns on
    the fourth makes [retryWithBackoff] resolve with that fourth result
    after exactly four invocations and delays of 100, 200 and 400 ms; in
    every run the delay after the k-th failed attempt is
    min(100 * 2^(k-1), 2000) ms, one delay separates two invocations, the
    operation is invoked at most ten times, and after ten failures the
    error of the tenth invocation is rethrown. *)
Theorem retryWithBackoff_schedule {V E : Type}
        (fn : nat -> ProcessUtils.Outcome V E) :
  let run := ProcessUtils.retryWithBackoff fn 10 100 2000 in
  (forall e1 e2 e3 v,
      fn 0%nat = ProcessUtils.Throws e1 ->
      fn 1%nat = ProcessUtils.Throws e2 ->
      fn 2%nat = ProcessUtils.Throws e3 ->
      fn 3%nat = ProcessUtils.Returns v ->
      run = ProcessUtils.mkRetryRun (Resolved v) 4 [100; 200; 400])
  /\ (forall k d,
        nth_error (ProcessUtils.delays run) (Nat.pred k) = Some d ->
        (1 <= k)%nat ->
        d = Z.min (100 * 2 ^ (Z.of_nat k - 1)) 2000)
  /\ (S (length (ProcessUtils.delays run)) = ProcessUtils.calls run)
  /\ (ProcessUtils.calls run <= 10)%nat
  /\ ((forall i, (i < 10)%nat -> exists e, fn i = ProcessUtils.Throws e) ->
      exists e,
        fn 9%nat = ProcessUtils.Throws e /\
        run = ProcessUtils.mkRetryRun (Rejected (Some e)) 10
                [100; 200; 400; 800; 1600; 2000; 2000; 2000; 2000]).
Proof.
  intros run. unfold run, ProcessUtils.retryWithBackoff.
  change (Z.to_nat 10) with 10%nat.
  repeat split.
  - intros e1 e2 e3 v H1 H2 H3 H4.
    rewrite (retryLoop_succeeds fn 10 100 2000 3 v); [reflexivity | | | | ].
    + intros i Hi.
      destruct i as [|[|[|i]]]; simpl; eauto; lia.
    + exact H4.
    + lia.
    + lia.
  - intros k d Hnth Hk.
    destruct (retryLoop_delays fn 10 100 2000 10 1 None O [])
      as (n & _ & Hd).
    rewrite Hd in Hnth. simpl in Hnth.
    apply delaysFrom_nth in Hnth. subst d.
    unfold ProcessUtils.backoffDelay. do 3 f_equal. lia.
  - pose proof (retryLoop_delay_count fn 10 100 2000 10 1 None O []
                  ltac:(lia) ltac:(discriminate)) as H.
    cbv zeta in H. cbn [Datatypes.length] in H. lia.
  - pose proof (retryLoop_calls fn 10 100 2000 10 1 None O []) as H. lia.
  - intros Hall.
    destruct (retryLoop_exhausted fn 10 100 2000 9 1 None O [])
      as (e & He & Hrun).
    + intros i Hi. apply Hall. lia.
    + lia.
    + exists e. split; [exact He|]. rewrite Hrun. reflexivity.
Qed.

(** The scenario of C6 on a concrete operation. *)
Lemma retryWithBackoff_schedule_witness :
  ProcessUtils.retryWithBackoff ProcessUtils.failsThreeTimes 10 100 2000 =
    ProcessUtils.mkRetryRun (Resolved 42) 4 [100; 200; 400].
Proof.
  apply (proj1 (retryWithBackoff_schedule ProcessUtils.failsThreeTimes)
           0%nat 1%nat 2%nat 42); reflexivity.
Defined.

(* ---------------------------------------------------------------------- *)
(** ** Spawning with a timeout *)

Section SpawnFacts.
Import ProcessUtils.

(** No callback rejects the promise. *)
Lemma onChildEvent_never_fails w ev :
  (forall reason, promise w <> Failed reason) ->
  forall reason, promise (onChildEvent w ev) <> Failed reason.
Proof.
  intros Hw reason.
  destruct ev; simpl;
    repeat match goal with
           | |- context [if ?b then _ else _] => destruct b
           end; simpl; try apply Hw;
    destruct (promise w) eqn:Hp; simpl; try discriminate;
    exfalso; eapply Hw; reflexivity.
Qed.

Lemma events_never_fail events : forall w,
  (forall reason, promise w <> Failed reason) ->
  forall reason, promise (fold_left onChildEvent events w) <> Failed reason.
Proof.
  induction events as [|ev events IH]; intros w Hw; simpl.
  - exact Hw.
  - apply IH. now apply onChildEvent_never_fails.
Qed.

(** A settled promise keeps its value whatever arrives later. *)
Lemma onChildEvent_settled w ev r :
  promise w = Fulfilled r -> promise (onChildEvent w ev) = Fulfilled r.
Proof.
  intros Hw.
  destruct ev; simpl;
    repeat match goal with
           | |- context [if ?b then _ else _] => destruct b
           end; simpl; rewrite ?Hw; reflexivity.
Qed.

Lemma events_settled events : forall w r,
  promise w = Fulfilled r ->
  promise (fold_left onChildEvent events w) = Fulfilled r.
Proof.
  induction events as [|ev events IH]; intros w r Hw; simpl; auto.
  apply IH. now apply onChildEvent_settled.
Qed.

(** Events that do not settle the promise only add to the two buffers. *)
Lemma events_quiet events : forall w,
  quiet events ->
  let w' := fold_left onChildEvent events w in
  promise w' = promise w
  /\ out w' = (out w ++ stdoutOf events)%string
  /\ err w' = (err w ++ stderrOf events)%string.
Proof.
  assert (Hnil : forall s : string, (s ++ "")%string = s)
    by (induction s; simpl; congruence).
  assert (Hassoc : forall a b c : string,
             ((a ++ b) ++ c)%string = (a ++ b ++ c)%string)
    by (induction a; intros; simpl; congruence).
  unfold quiet.
  induction events as [|ev events IH]; intros w Hq; simpl in *.
  - now rewrite !Hnil.
  - apply andb_true_iff in Hq. destruct Hq as [Hev Hq].
    specialize (IH (onChildEvent w ev) Hq). cbv zeta in IH.
    destruct IH as (Hp & Ho & He). rewrite Hp, Ho, He.
    destruct ev; simpl in *; try discriminate;
      rewrite ?Hassoc;
      repeat match goal with
             | |- context [if ?b then _ else _] => destruct b
             end; auto.
Qed.
End SpawnFacts.

(** With the two streams of the child as pipes, which they are unless the
    options say otherwise, and once [spawn] has handed out a child, the
    promise of [spawnWithTimeout] is never rejected: it stays pending
    while the child has neither closed nor failed, and the first [close]
    or [error] event resolves it, with the exit code and the output
    collected so far, or with code -1 and the error message as [stderr];
    later events do not change it. *)
Lemma spawnWithTimeout_resolves_with_pipes
      (command : string) (args : list string)
      (options : ProcessUtils.SpawnOptions) (timeoutMs : Z) :
  ProcessUtils.stdioOf options = (ProcessUtils.Pipe, ProcessUtils.Pipe) ->
  (forall events reason,
      ProcessUtils.spawnWithTimeout command args options timeoutMs
        (ProcessUtils.Spawned events) <> Failed reason)
  /\ (forall events,
        ProcessUtils.quiet events ->
        ProcessUtils.spawnWithTimeout command args options timeoutMs
          (ProcessUtils.Spawned events) = Pending)
  /\ (forall before code later,
        ProcessUtils.quiet before ->
        ProcessUtils.spawnWithTimeout command args options timeoutMs
          (ProcessUtils.Spawned (before ++ ProcessUtils.Close code :: later))
        = Fulfilled (ProcessUtils.mkSpawnResult code
                       (ProcessUtils.stdoutOf before)
                       (ProcessUtils.stderrOf before)))
  /\ (forall before message later,
        ProcessUtils.quiet before ->
        ProcessUtils.spawnWithTimeout command args options timeoutMs
          (ProcessUtils.Spawned (before ++ ProcessUtils.Error message :: later))
        = Fulfilled (ProcessUtils.mkSpawnResult (Some (-1))
                       (ProcessUtils.stdoutOf before) message)).
Proof.
  intros Hpipes. unfold ProcessUtils.spawnWithTimeout. rewrite Hpipes.
  split; [|split; [|split]].
  - intros events reason. apply events_never_fail. discriminate.
  - intros events Hq.
    destruct (events_quiet events ProcessUtils.watching Hq) as (Hp & _).
    exact Hp.
  - intros before code later Hq.
    rewrite fold_left_app. simpl.
    destruct (events_quiet before ProcessUtils.watching Hq) as (Hp & Ho & He).
    apply events_settled. simpl. rewrite Hp, Ho, He. reflexivity.
  - intros before message later Hq.
    rewrite fold_left_app. simpl.
    destruct (events_quiet before ProcessUtils.watching Hq) as (Hp & Ho & He).
    apply events_settled. simpl. rewrite Hp, Ho. reflexivity.
Qed.

(** C10 fails on the code.  The [error] event of the child is turned into
    a result with code -1, but what the executor of the promise itself
    throws is not caught.  With options that take the pipe from [stdout]
    or [stderr] (here [{ stdio: "inherit" }]) the stream of the child is
    [null], registering the [data] listener throws, and the promise is
    rejected although [spawn] has handed out a child, whatever the
    command, the arguments, the timeout and the events of the child are.
    An exception of [spawn] itself rejects the promise in the same way. *)
Theorem spawnWithTimeout_rejects_without_pipes :
  ProcessUtils.spawnWithTimeout "/srv/pb/bin/pocketbase-linux" ["update"]
    (ProcessUtils.mkSpawnOptions (Some "/srv/pb")
       (Some (ProcessUtils.AllStreams ProcessUtils.Inherit)))
    30000 (ProcessUtils.Spawned [ProcessUtils.Close (Some 0)])
  = Failed ProcessUtils.nullStream
  /\ (forall command args directory timeoutMs events mode,
        mode <> ProcessUtils.Pipe ->
        ProcessUtils.spawnWithTimeout command args
          (ProcessUtils.mkSpawnOptions directory
             (Some (ProcessUtils.AllStreams mode)))
          timeoutMs (ProcessUtils.Spawned events)
        = Failed ProcessUtils.nullStream)
  /\ (forall command args options timeoutMs message,
        ProcessUtils.spawnWithTimeout command args options timeoutMs
          (ProcessUtils.SpawnThrows message)
        = Failed message).
Proof.
  split; [reflexivity|]. split.
  - intros command args directory timeoutMs events mode Hmode.
    unfold ProcessUtils.spawnWithTimeout. cbn.
    destruct mode; [congruence|reflexivity|reflexivity].
  - reflexivity.
Qed.

(* ---------------------------------------------------------------------- *)
(** ** Texts and patterns *)

Section TextFacts.
Open Scope string_scope.

Lemma append_nil_r (s : string) : s ++ "" = s.
Proof. induction s; simpl; congruence. Qed.

Lemma append_assoc (a b c : string) : (a ++ b) ++ c = a ++ b ++ c.
Proof. induction a; simpl; congruence. Qed.

Lemma append_cancel_l (a b c : string) : a ++ b = a ++ c -> b = c.
Proof. induction a; simpl; intros H; [exact H|]. injection H. auto. Qed.

Lemma stripPrefix_append (l s : string) : stripPrefix l (l ++ s) = Some s.
Proof.
  induction l as [|c l IH]; simpl; [reflexivity|].
  now rewrite Ascii.eqb_refl.
Qed.

Lemma stripPrefix_sound (l s rest : string) :
  stripPrefix l s = Some rest -> s = l ++ rest.
Proof.
  revert s. induction l as [|c l IH]; intros s; simpl.
  - now intros [= ->].
  - destruct s as [|d s]; [discriminate|].
    destruct (Ascii.eqb_spec c d) as [->|]; [|discriminate].
    intros H. f_equal. now apply IH.
Qed.

Lemma span_append cls (run rest : string) :
  allChars cls run = true -> stopsRun cls rest = true ->
  span cls (run ++ rest) = (run, rest).
Proof.
  intros Hrun Hstop. induction run as [|c run IH]; simpl in *.
  - destruct rest as [|c rest]; simpl in *; [reflexivity|].
    apply negb_true_iff in Hstop. now rewrite Hstop.
  - apply andb_true_iff in Hrun. destruct Hrun as [Hc Hrun].
    rewrite Hc, (IH Hrun). reflexivity.
Qed.

Lemma span_sound cls (s run rest : string) :
  span cls s = (run, rest) -> s = run ++ rest.
Proof.
  revert run rest. induction s as [|c s IH]; intros run rest; simpl.
  - now intros [= <- <-].
  - destruct (cls c).
    + destruct (span cls s) as [run' rest'].
      intros [= <- <-]. simpl. f_equal. now apply IH.
    + now intros [= <- <-].
Qed.

(** A run of white space: where it ends, *)
Lemma spanSpace_sound n : forall s run rest,
  (String.length s <= n)%nat ->
  spanSpace s = (run, rest) -> s = run ++ rest.
Proof.
  induction n as [|n IH]; intros s run rest Hlen.
  - destruct s; [|simpl in Hlen; lia]. simpl. now intros [= <- <-].
  - destruct s as [|a s1]; [simpl; now intros [= <- <-]|].
    simpl in Hlen. cbn [spanSpace].
    destruct (isAsciiSpace a).
    { destruct (spanSpace s1) as [run1 rest1] eqn:H1.
      intros [= <- <-]. simpl. f_equal. apply (IH s1); [lia|exact H1]. }
    destruct s1 as [|b s2]; [now intros [= <- <-]|].
    simpl in Hlen.
    destruct (isSpace2 a b).
    { destruct (spanSpace s2) as [run2 rest2] eqn:H2.
      intros [= <- <-]. simpl. do 2 f_equal. apply (IH s2); [lia|exact H2]. }
    destruct s2 as [|c s3]; [now intros [= <- <-]|].
    simpl in Hlen.
    destruct (isSpace3 a b c).
    { destruct (spanSpace s3) as [run3 rest3] eqn:H3.
      intros [= <- <-]. simpl. do 3 f_equal. apply (IH s3); [lia|exact H3]. }
    now intros [= <- <-].
Qed.

Lemma startsSpace_first a :
  startsSpace a = false ->
  isAsciiSpace a = false
  /\ (forall b, isSpace2 a b = false)
  /\ (forall b c, isSpace3 a b c = false).
Proof.
  unfold startsSpace, isSpace2, isSpace3. cbv zeta.
  destruct (isAsciiSpace a); [discriminate|].
  destruct (nat_of_ascii a =? 194)%nat; [discriminate|].
  destruct (nat_of_ascii a =? 225)%nat; [discriminate|].
  destruct (nat_of_ascii a =? 226)%nat; [discriminate|].
  destruct (nat_of_ascii a =? 227)%nat; [discriminate|].
  destruct (nat_of_ascii a =? 239)%nat; [discriminate|].
  intros _. repeat split.
Qed.

(** that it is empty before a byte no white space starts with, *)
Lemma spanSpace_stops rest :
  stopsRun startsSpace rest = true -> spanSpace rest = (EmptyString, rest).
Proof.
  destruct rest as [|a s1]; [reflexivity|]. simpl.
  intros H. apply negb_true_iff in H.
  destruct (startsSpace_first a H) as (H1 & H2 & H3). rewrite H1.
  destruct s1 as [|b s2]; [reflexivity|]. rewrite H2.
  destruct s2 as [|c s3]; [reflexivity|]. rewrite H3. reflexivity.
Qed.

Lemma spanSpace_append_upto n : forall ws rest,
  (String.length ws <= n)%nat ->
  allWhite ws = true -> stopsRun startsSpace rest = true ->
  spanSpace (ws ++ rest) = (ws, rest).
Proof.
  unfold allWhite.
  induction n as [|n IH]; intros ws rest Hlen Hws Hrest.
  - destruct ws; [|simpl in Hlen; lia]. now apply spanSpace_stops.
  - destruct ws as [|a s1]; [now apply spanSpace_stops|].
    simpl in Hlen. cbn [spanSpace append] in *.
    destruct (isAsciiSpace a).
    { destruct (spanSpace s1) as [run1 rest1] eqn:H1.
      rewrite (IH s1 rest); [reflexivity|lia| |exact Hrest].
      rewrite H1. exact Hws. }
    destruct s1 as [|b s2]; [discriminate|].
    simpl in Hlen. cbn [append].
    destruct (isSpace2 a b).
    { destruct (spanSpace s2) as [run2 rest2] eqn:H2.
      rewrite (IH s2 rest); [reflexivity|lia| |exact Hrest].
      rewrite H2. exact Hws. }
    destruct s2 as [|c s3]; [discriminate|].
    simpl in Hlen. cbn [append].
    destruct (isSpace3 a b c); [|discriminate].
    destruct (spanSpace s3) as [run3 rest3] eqn:H3.
    rewrite (IH s3 rest); [reflexivity|lia| |exact Hrest].
    rewrite H3. exact Hws.
Qed.

(** and that it is the white space in front of such a byte. *)
Lemma spanSpace_append ws rest :
  allWhite ws = true -> stopsRun startsSpace rest = true ->
  spanSpace (ws ++ rest) = (ws, rest).
Proof. apply (spanSpace_append_upto (String.length ws)). lia. Qed.

(** Tabs, line ends and spaces are white space. *)
Lemma allWhite_ascii ws : allChars isAsciiSpace ws = true -> allWhite ws = true.
Proof.
  unfold allWhite. induction ws as [|a ws IH]; simpl; [reflexivity|].
  intros H. apply andb_true_iff in H. destruct H as [Ha Hws].
  rewrite Ha. specialize (IH Hws).
  destruct (spanSpace ws) as [run rest]. exact IH.
Qed.

Lemma matchAtom_sound a s seg rest :
  matchAtom a s = Some (seg, rest) -> s = seg ++ rest.
Proof.
  destruct a as [l| |cls|cls|x y]; simpl.
  - destruct (stripPrefix l s) as [r|] eqn:Hs; simpl; [|discriminate].
    intros [= <- <-]. now apply stripPrefix_sound.
  - intros [= H]. now apply (spanSpace_sound (String.length s)).
  - intros [= H]. now apply (span_sound cls).
  - destruct (span cls s) as [run r] eqn:Hs.
    destruct run; [discriminate|].
    intros [= <- <-]. now apply (span_sound cls).
  - destruct (stripPrefix x s) as [r|] eqn:Hx.
    + intros [= <- <-]. now apply stripPrefix_sound.
    + destruct (stripPrefix y s) as [r|] eqn:Hy; simpl; [|discriminate].
      intros [= <- <-]. now apply stripPrefix_sound.
Qed.

Lemma matchSeq_sound atoms : forall s segs rest,
  matchSeq atoms s = Some (segs, rest) -> s = concatStr segs ++ rest.
Proof.
  induction atoms as [|a atoms IH]; intros s segs rest; simpl.
  - now intros [= <- <-].
  - destruct (matchAtom a s) as [[seg r]|] eqn:Ha; [|discriminate].
    destruct (matchSeq atoms r) as [[segs' r']|] eqn:Hs; [|discriminate].
    intros [= <- <-]. simpl. rewrite append_assoc.
    rewrite <- (IH _ _ _ Hs). exact (matchAtom_sound _ _ _ _ Ha).
Qed.

Lemma matchSeq_app atoms1 atoms2 s segs1 r segs2 rest :
  matchSeq atoms1 s = Some (segs1, r) ->
  matchSeq atoms2 r = Some (segs2, rest) ->
  matchSeq (atoms1 ++ atoms2)%list s = Some ((segs1 ++ segs2)%list, rest).
Proof.
  revert s segs1. induction atoms1 as [|a atoms1 IH]; intros s segs1; simpl.
  - intros [= <- <-] H2. exact H2.
  - destruct (matchAtom a s) as [[seg r0]|]; [|discriminate].
    destruct (matchSeq atoms1 r0) as [[segs' r']|] eqn:Hs; [|discriminate].
    intros [= <- <-] H2. now rewrite (IH _ _ Hs H2).
Qed.

(** What [search] returns is a match: the text splits into what is
    before, the match and what is after, and the atoms match there. *)
Lemma search_sound p s m :
  search p s = Some m ->
  s = before m ++ matched m ++ after m
  /\ exists segs,
       matchSeq (atoms p) (matched m ++ after m) = Some (segs, after m)
       /\ matched m = concatStr segs
       /\ captured m = captures p segs.
Proof.
  revert m. induction s as [|c s IH]; intros m; simpl.
  - destruct (matchSeq (atoms p) "") as [[segs rest]|] eqn:Hm; [|discriminate].
    intros [= <-]. simpl.
    pose proof (matchSeq_sound _ _ _ _ Hm) as Hs.
    split; [exact Hs|]. exists segs. rewrite <- Hs. auto.
  - destruct (matchSeq (atoms p) (String c s)) as [[segs rest]|] eqn:Hm.
    + intros [= <-]. simpl.
      pose proof (matchSeq_sound _ _ _ _ Hm) as Hs.
      split; [exact Hs|]. exists segs. rewrite <- Hs. auto.
    + destruct (search p s) as [m'|]; [|discriminate].
      intros [= <-]. simpl.
      destruct (IH m' eq_refl) as (Hs & segs & H1 & H2 & H3).
      split; [now f_equal|]. exists segs. auto.
Qed.

(** The leftmost match, when it is known where it starts and what the
    atoms consume there. *)
Lemma search_first p pre rest segs post :
  firstMatchAt p pre rest ->
  matchSeq (atoms p) rest = Some (segs, post) ->
  search p (pre ++ rest) =
    Some (mkMatch pre (concatStr segs) (captures p segs) post).
Proof.
  unfold firstMatchAt. intros Hfirst Hrest.
  destruct (search p (pre ++ rest)) as [m|] eqn:Hs; [|discriminate].
  injection Hfirst as Hpre.
  destruct (search_sound _ _ _ Hs) as (Hsplit & segs' & Hm & Hmatched & Hcap).
  rewrite Hpre in Hsplit. apply append_cancel_l in Hsplit.
  assert (Heq : Some (segs, post) = Some (segs', after m))
    by (rewrite <- Hrest, Hsplit; exact Hm).
  injection Heq as -> ->.
  destruct m as [b mt cp af]. simpl in *. congruence.
Qed.

Lemma replace_first p template pre rest segs post :
  firstMatchAt p pre rest ->
  matchSeq (atoms p) rest = Some (segs, post) ->
  replace p template (pre ++ rest) =
    pre ++ getSubstitution
             (mkMatch pre (concatStr segs) (captures p segs) post) template
        ++ post.
Proof.
  intros Hfirst Hrest. unfold replace.
  now rewrite (search_first _ _ _ _ _ Hfirst Hrest).
Qed.

(** A template without a dollar sign stands for itself. *)
Lemma getSubstitution_plain m template :
  allChars (isNot "$") template = true -> getSubstitution m template = template.
Proof.
  induction template as [|c t IH]; simpl; [reflexivity|].
  intros H. apply andb_true_iff in H. destruct H as [Hc Ht].
  unfold isNot in Hc. apply negb_true_iff in Hc. rewrite Hc.
  f_equal. now apply IH.
Qed.

Lemma allChars_append cls a b :
  allChars cls (a ++ b) = allChars cls a && allChars cls b.
Proof. induction a; simpl; [reflexivity|]. now rewrite IHa, andb_assoc. Qed.
End TextFacts.

Section RewriteFacts.
Open Scope string_scope.

Lemma match_assignment key ws1 ws2 rest :
  allSpace ws1 = true -> allSpace ws2 = true -> stopsRun startsSpace rest = true ->
  matchSeq [Lit key; Spaces; Lit "="; Spaces]
           (key ++ ws1 ++ "=" ++ ws2 ++ rest)
  = Some ([key; ws1; "="; ws2], rest).
Proof.
  intros H1 H2 Hrest. unfold matchSeq, matchAtom.
  rewrite stripPrefix_append. cbn [option_map].
  rewrite (spanSpace_append ws1 ("=" ++ ws2 ++ rest) H1 eq_refl).
  rewrite (stripPrefix_append "=" (ws2 ++ rest)). cbn [option_map].
  rewrite (spanSpace_append ws2 rest H2 Hrest).
  reflexivity.
Qed.

Lemma match_quoted v post :
  noQuote v = true ->
  matchSeq [Lit dquote; Star (isNot "034"); Lit dquote] (quoted v ++ post)
  = Some ([dquote; v; dquote], post).
Proof.
  intros Hv. unfold quoted. rewrite !append_assoc.
  unfold matchSeq, matchAtom.
  rewrite stripPrefix_append. cbn [option_map].
  rewrite (span_append (isNot "034") v (dquote ++ post) Hv eq_refl).
  rewrite stripPrefix_append. reflexivity.
Qed.

Lemma match_digits digits post :
  allChars isDigit digits = true -> digits <> "" ->
  stopsRun isDigit post = true ->
  matchSeq [Plus isDigit] (digits ++ post) = Some ([digits], post).
Proof.
  intros Hd Hne Hpost. unfold matchSeq, matchAtom.
  rewrite (span_append isDigit digits post Hd Hpost).
  destruct digits; [congruence|reflexivity].
Qed.

Lemma match_bool b post :
  matchSeq [Alt "true" "false"] (string_of_bool b ++ post)
  = Some ([string_of_bool b], post).
Proof. destruct b; reflexivity. Qed.

Lemma match_braces body post :
  noBrace body = true -> body <> "" ->
  matchSeq [Lit "{"; Plus (isNot "}"); Lit "}"] ("{" ++ body ++ "}" ++ post)
  = Some (["{"; body; "}"], post).
Proof.
  intros Hb Hne. unfold matchSeq, matchAtom.
  rewrite (stripPrefix_append "{"). cbn [option_map].
  rewrite (span_append (isNot "}") body ("}" ++ post) Hb eq_refl).
  destruct body; [congruence|].
  rewrite (stripPrefix_append "}"). reflexivity.
Qed.

(** Where a pattern matches first does not depend on its groups. *)
Lemma firstMatchAt_atoms p q pre rest :
  atoms p = atoms q -> firstMatchAt p pre rest -> firstMatchAt q pre rest.
Proof.
  unfold firstMatchAt. intros Ha.
  assert (H : forall s, option_map before (search q s)
                        = option_map before (search p s)).
  { induction s as [|c s IH]; simpl; rewrite <- Ha.
    - destruct (matchSeq (atoms p) ""%string) as [[? ?]|]; reflexivity.
    - destruct (matchSeq (atoms p) (String c s)) as [[? ?]|]; [reflexivity|].
      destruct (search q s), (search p s); simpl in *; congruence. }
  now rewrite H.
Qed.

Lemma noDollar_string_of_Z n : noDollar (string_of_Z n) = true.
Proof.
  unfold string_of_Z, noDollar.
  assert (He : forall u, allChars (isNot "$") (NilEmpty.string_of_uint u) = true)
    by (induction u; simpl; auto).
  assert (Hu : forall u, allChars (isNot "$") (NilZero.string_of_uint u) = true)
    by (destruct u; try apply He; reflexivity).
  destruct (Z.to_int n) as [u|u]; simpl; apply Hu.
Qed.

Lemma noDollar_string_of_bool b : noDollar (string_of_bool b) = true.
Proof. destruct b; reflexivity. Qed.

(** The rewrite of one field: the leftmost text [key = literal], with any
    spacing around the equals sign, becomes [key = new literal]. *)
Lemma rewrite_field p key (A : Type) (render : A -> string) (value : A)
      b1 ws1 ws2 literal segs b2 :
  atoms p = ([Lit key; Spaces; Lit "="; Spaces]
             ++ skipn 4 (atoms p))%list ->
  firstMatchAt p b1 (key ++ ws1 ++ "=" ++ ws2 ++ literal ++ b2) ->
  allSpace ws1 = true -> allSpace ws2 = true ->
  stopsRun startsSpace (literal ++ b2) = true ->
  matchSeq (skipn 4 (atoms p)) (literal ++ b2) = Some (segs, b2) ->
  noDollar (render value) = true ->
  setField p render (Some value)
           (b1 ++ key ++ ws1 ++ "=" ++ ws2 ++ literal ++ b2)
  = b1 ++ render value ++ b2.
Proof.
  intros Hatoms Hfirst H1 H2 Hstop Htail Hplain. unfold setField.
  assert (Hm : matchSeq (atoms p) (key ++ ws1 ++ "=" ++ ws2 ++ literal ++ b2)
               = Some (([key; ws1; "="; ws2] ++ segs)%list, b2)).
  { rewrite Hatoms.
    apply (matchSeq_app _ _ _ _ (literal ++ b2)); [|exact Htail].
    now apply match_assignment. }
  rewrite (replace_first p _ b1 _ _ b2 Hfirst Hm).
  rewrite (getSubstitution_plain _ _ Hplain). reflexivity.
Qed.

Lemma stringField_rewrites key value b1 ws1 ws2 old b2 :
  firstMatchAt (stringFieldPattern key) b1
               (key ++ ws1 ++ "=" ++ ws2 ++ quoted old ++ b2) ->
  allSpace ws1 = true -> allSpace ws2 = true -> noQuote old = true ->
  noDollar key = true -> noDollar value = true ->
  stringField key (Some value)
              (b1 ++ key ++ ws1 ++ "=" ++ ws2 ++ quoted old ++ b2)
  = b1 ++ key ++ " = " ++ quoted value ++ b2.
Proof.
  intros Hfirst H1 H2 Hold Hkey Hvalue. unfold stringField.
  rewrite (rewrite_field (stringFieldPattern key) key string _ value
             b1 ws1 ws2 (quoted old) [dquote; old; dquote]%list b2);
    try assumption; try reflexivity.
  - unfold quoted. now rewrite !append_assoc.
  - now apply match_quoted.
  - unfold noDollar, quoted in *.
    rewrite !allChars_append, Hkey, Hvalue. reflexivity.
Qed.

Lemma numberField_rewrites key value b1 ws1 ws2 digits b2 :
  firstMatchAt (numberFieldPattern key) b1
               (key ++ ws1 ++ "=" ++ ws2 ++ digits ++ b2) ->
  allSpace ws1 = true -> allSpace ws2 = true ->
  allChars isDigit digits = true -> digits <> "" ->
  stopsRun isDigit b2 = true ->
  noDollar key = true ->
  numberField key (Some value)
              (b1 ++ key ++ ws1 ++ "=" ++ ws2 ++ digits ++ b2)
  = b1 ++ key ++ " = " ++ string_of_Z value ++ b2.
Proof.
  intros Hfirst H1 H2 Hd Hne Hb2 Hkey. unfold numberField.
  rewrite (rewrite_field (numberFieldPattern key) key Z _ value
             b1 ws1 ws2 digits [digits]%list b2);
    try assumption; try reflexivity.
  - unfold quoted. now rewrite !append_assoc.
  - destruct digits as [|c digits]; [congruence|].
    simpl in *. apply andb_true_iff in Hd. destruct Hd as [Hc _].
    unfold isDigit, startsSpace, isAsciiSpace in *.
    destruct c as [[] [] [] [] [] [] [] []]; simpl in *; congruence.
  - now apply match_digits.
  - unfold noDollar in *.
    rewrite !allChars_append, Hkey. simpl. apply noDollar_string_of_Z.
Qed.

Lemma boolField_rewrites key value b1 ws1 ws2 old b2 :
  firstMatchAt (boolFieldPattern key) b1
               (key ++ ws1 ++ "=" ++ ws2 ++ string_of_bool old ++ b2) ->
  allSpace ws1 = true -> allSpace ws2 = true ->
  noDollar key = true ->
  boolField key (Some value)
            (b1 ++ key ++ ws1 ++ "=" ++ ws2 ++ string_of_bool old ++ b2)
  = b1 ++ key ++ " = " ++ string_of_bool value ++ b2.
Proof.
  intros Hfirst H1 H2 Hkey. unfold boolField.
  rewrite (rewrite_field (boolFieldPattern key) key bool _ value
             b1 ws1 ws2 (string_of_bool old) [string_of_bool old]%list b2);
    try assumption; try reflexivity.
  - unfold quoted. now rewrite !append_assoc.
  - destruct old; reflexivity.
  - apply match_bool.
  - unfold noDollar in *.
    rewrite !allChars_append, Hkey. simpl. apply noDollar_string_of_bool.
Qed.
End RewriteFacts.

Section CredentialFacts.
Open Scope string_scope.

(** The template of the credential rewrite: [$1] is the first group, the
    rest of a template without dollar sign stands for itself. *)
Lemma getSubstitution_group1 m cap caps value :
  captured m = (cap :: caps)%list ->
  noDollar value = true ->
  getSubstitution m ("$1" ++ dquote ++ value ++ dquote)
  = cap ++ quoted value.
Proof.
  intros Hcap Hvalue. simpl. rewrite Hcap. simpl.
  unfold quoted, dquote. simpl. do 2 f_equal.
  apply getSubstitution_plain.
  unfold noDollar in Hvalue. rewrite allChars_append, Hvalue. reflexivity.
Qed.

Lemma credential_rewrites key value pre ws1 ws2 old post :
  firstMatchAt (credentialPattern key) pre
               (key ++ ws1 ++ "=" ++ ws2 ++ quoted old ++ post) ->
  allSpace ws1 = true -> allSpace ws2 = true -> noQuote old = true ->
  noDollar value = true ->
  replace (credentialPattern key) ("$1" ++ dquote ++ value ++ dquote)
          (pre ++ key ++ ws1 ++ "=" ++ ws2 ++ quoted old ++ post)
  = pre ++ key ++ ws1 ++ "=" ++ ws2 ++ quoted value ++ post.
Proof.
  intros Hfirst H1 H2 Hold Hvalue.
  assert (Hm : matchSeq (atoms (credentialPattern key))
                        (key ++ ws1 ++ "=" ++ ws2 ++ quoted old ++ post)
               = Some (([key; ws1; "="; ws2] ++ [dquote; old; dquote])%list, post)).
  { apply (matchSeq_app [Lit key; Spaces; Lit "="; Spaces]
                        [Lit dquote; Star (isNot "034"); Lit dquote]
                        _ _ (quoted old ++ post)).
    - now apply match_assignment.
    - now apply match_quoted. }
  rewrite (replace_first _ _ pre _ _ post Hfirst Hm).
  rewrite (getSubstitution_group1 _ (key ++ ws1 ++ "=" ++ ws2) [old] value);
    [|unfold captures, credentialPattern; simpl; now rewrite !append_nil_r
     | exact Hvalue].
  now rewrite !append_assoc.
Qed.

Lemma section_rewrites (U : Type) name (fields : U -> string -> string) u
      pre ws1 ws2 body post :
  firstMatchAt (sectionPattern name) pre
               (name ++ ws1 ++ "=" ++ ws2 ++ "{" ++ body ++ "}" ++ post) ->
  allSpace ws1 = true -> allSpace ws2 = true ->
  noBrace body = true -> body <> "" ->
  noDollar name = true -> noDollar (fields u body) = true ->
  rewriteSection name fields (Some u)
                 (pre ++ name ++ ws1 ++ "=" ++ ws2 ++ "{" ++ body ++ "}" ++ post)
  = pre ++ name ++ " = {" ++ fields u body ++ "}" ++ post.
Proof.
  intros Hfirst H1 H2 Hbody Hne Hname Hplain. unfold rewriteSection.
  assert (Hm : forall p, atoms p = atoms (sectionPattern name) ->
             matchSeq (atoms p)
                      (name ++ ws1 ++ "=" ++ ws2 ++ "{" ++ body ++ "}" ++ post)
             = Some (([name; ws1; "="; ws2] ++ ["{"; body; "}"])%list, post)).
  { intros p ->.
    apply (matchSeq_app [Lit name; Spaces; Lit "="; Spaces]
                        [Lit "{"; Plus (isNot "}"); Lit "}"]
                        _ _ ("{" ++ body ++ "}" ++ post)).
    - now apply match_assignment.
    - now apply match_braces. }
  rewrite (search_first _ pre _ _ post Hfirst (Hm _ eq_refl)).
  cbn [captured captures groups sectionPattern map fst snd skipn firstn
       app nth concatStr fold_right].
  rewrite append_nil_r.
  rewrite (replace_first (sectionReplacePattern name) _ pre _ _ post
             (firstMatchAt_atoms (sectionPattern name)
                (sectionReplacePattern name) _ _ eq_refl Hfirst)
             (Hm _ eq_refl)).
  rewrite getSubstitution_plain; [now rewrite !append_assoc|].
  unfold noDollar in *. rewrite !allChars_append, Hname, Hplain. reflexivity.
Qed.
End CredentialFacts.

(** What the rewrites do to a text without dollar signs.  Each rewrite
    replaces the leftmost text its pattern matches and nothing else.  For
    the credentials this is the
    quoted value of the first [Email = "..."] and then of the first
    [Password = "..."] of the document.  For the settings it is, when the
    update has the section, the first block [SMTP = {...}] (or
    [S3 = {...}]), whose header is respelled [SMTP = {] and in whose body
    the first text [Key = literal] of each key the update names becomes
    [Key = new literal]; a key the update does not name is not looked
    for.  All other characters stay as they are, provided that the new
    values and the rewritten body contain no dollar sign, which
    [String.replace] would interpret. *)
Lemma rewrites_replace_the_first_match :
  (forall email password pre wsE1 wsE2 oldE mid wsP1 wsP2 oldP post,
      firstMatchAt (credentialPattern "Email") pre
        ("Email" ++ wsE1 ++ "=" ++ wsE2 ++ quoted oldE ++ mid
           ++ "Password" ++ wsP1 ++ "=" ++ wsP2 ++ quoted oldP ++ post) ->
      firstMatchAt (credentialPattern "Password")
        (pre ++ "Email" ++ wsE1 ++ "=" ++ wsE2 ++ quoted email ++ mid)
        ("Password" ++ wsP1 ++ "=" ++ wsP2 ++ quoted oldP ++ post) ->
      allSpace wsE1 = true -> allSpace wsE2 = true ->
      allSpace wsP1 = true -> allSpace wsP2 = true ->
      noQuote oldE = true -> noQuote oldP = true ->
      noDollar email = true -> noDollar password = true ->
      rewriteCredentials email password
        (pre ++ "Email" ++ wsE1 ++ "=" ++ wsE2 ++ quoted oldE ++ mid
           ++ "Password" ++ wsP1 ++ "=" ++ wsP2 ++ quoted oldP ++ post)
      = pre ++ "Email" ++ wsE1 ++ "=" ++ wsE2 ++ quoted email ++ mid
          ++ "Password" ++ wsP1 ++ "=" ++ wsP2 ++ quoted password ++ post)%string
  /\ (forall updates content,
        rewriteAdvanced updates content =
          rewriteSection "S3" rewriteS3Fields (upd_S3 updates)
            (rewriteSection "SMTP" rewriteSMTPFields (upd_SMTP updates) content))
  /\ (forall (U : Type) name (fields : U -> string -> string) content,
        rewriteSection name fields None content = content)
  /\ (forall (U : Type) name (fields : U -> string -> string) u
             pre ws1 ws2 body post,
        firstMatchAt (sectionPattern name) pre
          (name ++ ws1 ++ "=" ++ ws2 ++ "{" ++ body ++ "}" ++ post) ->
        allSpace ws1 = true -> allSpace ws2 = true ->
        noBrace body = true -> body <> EmptyString ->
        noDollar name = true -> noDollar (fields u body) = true ->
        rewriteSection name fields (Some u)
          (pre ++ name ++ ws1 ++ "=" ++ ws2 ++ "{" ++ body ++ "}" ++ post)
        = pre ++ name ++ " = {" ++ fields u body ++ "}" ++ post)%string
  /\ (forall key text,
        stringField key None text = text
        /\ numberField key None text = text
        /\ boolField key None text = text)
  /\ (forall key value b1 ws1 ws2 old b2,
        firstMatchAt (stringFieldPattern key) b1
          (key ++ ws1 ++ "=" ++ ws2 ++ quoted old ++ b2) ->
        allSpace ws1 = true -> allSpace ws2 = true -> noQuote old = true ->
        noDollar key = true -> noDollar value = true ->
        stringField key (Some value)
          (b1 ++ key ++ ws1 ++ "=" ++ ws2 ++ quoted old ++ b2)
        = b1 ++ key ++ " = " ++ quoted value ++ b2)%string
  /\ (forall key value b1 ws1 ws2 digits b2,
        firstMatchAt (numberFieldPattern key) b1
          (key ++ ws1 ++ "=" ++ ws2 ++ digits ++ b2) ->
        allSpace ws1 = true -> allSpace ws2 = true ->
        allChars isDigit digits = true -> digits <> EmptyString ->
        stopsRun isDigit b2 = true -> noDollar key = true ->
        numberField key (Some value)
          (b1 ++ key ++ ws1 ++ "=" ++ ws2 ++ digits ++ b2)
        = b1 ++ key ++ " = " ++ string_of_Z value ++ b2)%string
  /\ (forall key value b1 ws1 ws2 old b2,
        firstMatchAt (boolFieldPattern key) b1
          (key ++ ws1 ++ "=" ++ ws2 ++ string_of_bool old ++ b2) ->
        allSpace ws1 = true -> allSpace ws2 = true -> noDollar key = true ->
        boolField key (Some value)
          (b1 ++ key ++ ws1 ++ "=" ++ ws2 ++ string_of_bool old ++ b2)
        = b1 ++ key ++ " = " ++ string_of_bool value ++ b2)%string.
Proof.
  split; [|split; [|split; [|split; [|split; [|split; [|split]]]]]].
  - intros email password pre wsE1 wsE2 oldE mid wsP1 wsP2 oldP post
           HfE HfP HE1 HE2 HP1 HP2 HoE HoP He Hp.
    unfold rewriteCredentials.
    rewrite (credential_rewrites "Email" email pre wsE1 wsE2 oldE _
               HfE HE1 HE2 HoE He).
    pose proof (credential_rewrites "Password" password
                  (pre ++ "Email" ++ wsE1 ++ "=" ++ wsE2 ++ quoted email ++ mid)
                  wsP1 wsP2 oldP post HfP HP1 HP2 HoP Hp) as H.
    rewrite !append_assoc in H. exact H.
  - reflexivity.
  - reflexivity.
  - intros. now apply section_rewrites.
  - intros. repeat split.
  - intros. now apply stringField_rewrites.
  - intros. now apply numberField_rewrites.
  - intros. now apply boolField_rewrites.
Qed.

(** The credentials written into the shipped [config.lua]. *)
Lemma rewrites_replace_the_first_match_witness :
  rewriteCredentials "admin@localhost.local" "qOl9dbdZHF54ixFfM9th"
                     (document "" "" "smtp.gmail.com" "")
  = document "admin@localhost.local" "qOl9dbdZHF54ixFfM9th"
             "smtp.gmail.com" "".
Proof.
  apply (proj1 rewrites_replace_the_first_match
           "admin@localhost.local" "qOl9dbdZHF54ixFfM9th"
           documentHead " " " " "" documentMiddle " " " " ""
           (documentSettings
              ++ "SMTP" ++ " " ++ "=" ++ " " ++ "{"
              ++ smtpBody "smtp.gmail.com" "" ++ "}" ++ documentTail)%string);
    vm_compute; reflexivity.
Defined.

(** An update that names every field of the two sections, on the shipped
    [config.lua]: what [load] then reads from the text is, key by key,
    what the update says, and the switches of the sections, which it does
    not name, are as they were. *)
Example updateAdvancedSettings_example :
  let updates :=
    mkUpdates
      (Some (mkSMTPUpdate (Some "mail.example.com") (Some 465)
                          (Some "postmaster") (Some "hunter2")
                          (Some "pb.example.com") (Some false)))
      (Some (mkS3Update (Some "backups") (Some "eu-central-1")
                        (Some "https://s3.example.com") (Some "AKIA")
                        (Some "wJalr") (Some true))) in
  let written :=
    parseConfig (rewriteAdvanced updates (document "" "" "smtp.gmail.com" ""))
                defaultConfig in
  SMTP (Advanced written)
  = mkSMTP false "mail.example.com" 465 "postmaster" "hunter2"
           "pb.example.com" false
  /\ S3 (Advanced written)
     = mkS3 false "backups" "eu-central-1" "https://s3.example.com" "AKIA"
            "wJalr" true.
Proof. vm_compute. split; reflexivity. Qed.

(** C9 fails on the code.  The body of a section is edited field by field
    and then put back through the replacement template of
    [String.replace], in which [$$] stands for one dollar sign.  In the
    shipped [config.lua] with an SMTP password that contains two dollar
    signs, an update that names the SMTP host only also changes the
    password, which it does not name. *)
Theorem rewrite_changes_a_field_the_update_does_not_name :
  new_Password (mkSMTPUpdate (Some "mail.example.com") None None None None None)
    = None
  /\ rewriteAdvanced (hostOnly "mail.example.com")
                     (document "" "" "smtp.gmail.com" "pa$$word")
     = document "" "" "mail.example.com" "pa$word"
  /\ rewriteAdvanced (hostOnly "mail.example.com")
                     (document "" "" "smtp.gmail.com" "pa$$word")
     <> document "" "" "mail.example.com" "pa$$word"
  /\ SMTP_Password
       (SMTP (Advanced
          (parseConfig (document "" "" "smtp.gmail.com" "pa$$word")
                       defaultConfig)))
     = "pa$$word"
  /\ SMTP_Password
       (SMTP (Advanced
          (parseConfig
             (persisted
                (fst (updateAdvancedSettings (hostOnly "mail.example.com") true
                        (fst (load "/srv/pb"
                                (FileContent
                                   (document "" "" "smtp.gmail.com" "pa$$word"))
                                None)))))
             defaultConfig)))
     = "pa$word".
Proof.
  split; [reflexivity|]. split; [vm_compute; reflexivity|].
  split; [apply String.eqb_neq; vm_compute; reflexivity|].
  split; vm_compute; reflexivity.
Qed.

(* ---------------------------------------------------------------------- *)
(** ** Reasoning about asynchronous functions *)

Section AsyncFacts.
Import ConfigLoader ProcessUtils Server.

Lemma keeps_ret {A : Type} P (a : A) : keeps P (ret a).
Proof. intros w Hw. exact Hw. Qed.

Lemma keeps_await {A : Type} P (p : Promise A) : keeps P (await p).
Proof. intros w Hw. exact Hw. Qed.

Lemma keeps_exec P f : (forall w, P w -> P (f w)) -> keeps P (exec f).
Proof. intros Hf w Hw. apply Hf, Hw. Qed.

Lemma keeps_bind {A B : Type} P (m : Async A) (k : A -> Async B) :
  keeps P m -> (forall a, keeps P (k a)) -> keeps P (bind m k).
Proof.
  intros Hm Hk w Hw. unfold bind.
  specialize (Hm w Hw). destruct (m w) as [w' [|a|e]]; simpl in *; auto.
  apply Hk, Hm.
Qed.

Lemma keeps_tryCatch {A : Type} P (body : Async A) handler :
  keeps P body -> (forall e, keeps P (handler e)) ->
  keeps P (tryCatch body handler).
Proof.
  intros Hb Hh w Hw. unfold tryCatch.
  specialize (Hb w Hw). destruct (body w) as [w' [|a|e]]; simpl in *; auto.
  apply Hh, Hb.
Qed.

Lemma keeps_forEach {A : Type} P (l : list A) body :
  (forall x, keeps P (body x)) -> keeps P (forEach l body).
Proof.
  intros Hb. induction l as [|x l IH]; simpl.
  - apply keeps_ret.
  - apply keeps_bind; auto.
Qed.

Variable P : World -> Prop.
Hypothesis stable : Stable P.

(** From [P (fst (m w))] to [keeps P m], for the program [m] the function
    chose after it read [w]. *)
Ltac chosen w Hw :=
  match goal with
  | |- P (fst (?m w)) => apply (fun H : keeps P m => H w Hw)
  end.

Lemma keeps_record e : keeps P (exec (record e)).
Proof. apply keeps_exec. intros w. apply stable. Qed.

Lemma keeps_pushWarning msg : keeps P (exec (pushWarning msg)).
Proof. apply keeps_exec. intros w. apply stable. Qed.

Lemma keeps_pushErrors es : keeps P (exec (pushErrors es)).
Proof. apply keeps_exec. intros w. apply stable. Qed.

Lemma keeps_displayStartupStatus : keeps P (exec displayStartupStatus).
Proof.
  apply keeps_exec. intros w Hw. unfold displayStartupStatus.
  apply stable.
  destruct (clientAuthenticated (startupStatus w)) as [[|]|];
    repeat match goal with
           | |- context [if ?b then _ else _] => destruct b
           end; try exact Hw; apply stable; exact Hw.
Qed.

Lemma keeps_createSuperuser env pbPath publicIP :
  keeps P (createSuperuser env pbPath publicIP).
Proof.
  intros w0 Hw0. unfold createSuperuser. chosen w0 Hw0.
  apply keeps_bind; [apply keeps_record|]. intros _.
  apply keeps_bind; [apply keeps_await|]. intros result.
  destruct (_ || _).
  - apply keeps_bind; [|intros; apply keeps_ret].
    destruct (negb _); [|apply keeps_ret].
    intros w Hw.
    match goal with
    | |- context [updateSuperuserCredentials ?e ?p ?wr (loader w)] =>
        pose proof (stable_credentials P stable e p wr w Hw) as Hl;
        destruct (updateSuperuserCredentials e p wr (loader w))
          as [l updated]
    end.
    simpl in *. apply stable.
    destruct updated; [exact Hl|]. apply stable. exact Hl.
  - apply keeps_bind; [apply keeps_pushErrors|]. intros; apply keeps_ret.
Qed.

Lemma keeps_checkAndUpdate env pbPath : keeps P (checkAndUpdate env pbPath).
Proof.
  intros w Hw. unfold checkAndUpdate.
  destruct (negb _); [exact Hw|]. chosen w Hw.
  apply keeps_bind; [apply keeps_record|]. intros _.
  apply keeps_bind; [apply keeps_await|]. intros result.
  apply keeps_bind; [|intros; apply keeps_ret].
  destruct (match code result with Some 0 => false | _ => true end);
    [apply keeps_pushWarning | apply keeps_ret].
Qed.

Lemma keeps_applyPendingMigrations env pbPath :
  keeps P (applyPendingMigrations env pbPath).
Proof.
  intros w Hw. unfold applyPendingMigrations.
  destruct (negb _); [exact Hw|]. chosen w Hw.
  apply keeps_tryCatch; [|intros; apply keeps_pushWarning].
  apply keeps_bind; [apply keeps_record|]. intros _.
  apply keeps_bind; [apply keeps_await|]. intros result.
  destruct (code result) as [[| |]|];
    repeat match goal with
           | |- context [if ?b then _ else _] => destruct b
           end;
    first [apply keeps_ret | apply keeps_record | apply keeps_pushWarning].
Qed.

Lemma keeps_listBackups : keeps P listBackups.
Proof.
  unfold listBackups. apply keeps_tryCatch; [|intros; apply keeps_ret].
  intros w Hw. unfold pbInternalListBackups.
  destruct (clientReady (backend w)); exact Hw.
Qed.

Lemma keeps_deleteBackup k : keeps P (deleteBackup k).
Proof.
  unfold deleteBackup. apply keeps_tryCatch; [|intros; apply keeps_ret].
  apply keeps_bind; [|intros; apply keeps_ret].
  intros w Hw. unfold pbInternalDeleteBackup.
  destruct (clientReady (backend w)); [|exact Hw].
  destruct (refusals (backend w)) as [|[message|] later];
    try destruct (existsb _ _); simpl; apply stable; exact Hw.
Qed.

Lemma keeps_manageBackupRotation : keeps P manageBackupRotation.
Proof.
  intros w Hw. unfold manageBackupRotation.
  destruct (_ || _); [exact Hw|]. chosen w Hw.
  apply keeps_bind; [apply keeps_listBackups|]. intros backups.
  destruct (_ <=? _); [apply keeps_ret|].
  apply keeps_forEach. intros backup.
  apply keeps_bind; [apply keeps_deleteBackup|]. intros [|];
    [apply keeps_record | apply keeps_ret].
Qed.

Lemma keeps_createBackup answer basename :
  keeps P (createBackup answer basename).
Proof.
  unfold createBackup. apply keeps_tryCatch.
  - intros w Hw. unfold pbInternalCreateBackup.
    destruct (clientReady (backend w)); [|exact Hw].
    destruct (answer basename); try exact Hw.
    simpl. apply stable. exact Hw.
  - intros e. apply keeps_bind; [apply keeps_pushWarning|].
    intros; apply keeps_ret.
Qed.

Lemma keeps_performStartupBackup env : keeps P (performStartupBackup env).
Proof.
  intros w Hw. unfold performStartupBackup.
  destruct (_ || _); [exact Hw|]. chosen w Hw.
  apply keeps_bind; [apply keeps_record|]. intros _.
  apply keeps_bind; [apply keeps_createBackup|]. intros [|];
    [|apply keeps_ret].
  apply keeps_bind; [apply keeps_record|]. intros _.
  apply keeps_manageBackupRotation.
Qed.
End AsyncFacts.

(* ---------------------------------------------------------------------- *)
(** ** Configuration validation *)

Lemma displayStartupStatus_spec w :
  let w' := displayStartupStatus w in
  errors (startupStatus w') = errors (startupStatus w)
  /\ pocketbaseProcess w' = pocketbaseProcess w
  /\ trace w' = trace w ++ [Report (startupStatus w')].
Proof.
  unfold displayStartupStatus.
  destruct (clientAuthenticated _) as [[|]|]; simpl;
    repeat match goal with
           | |- context [if ?b then _ else _] => destruct b; simpl
           end; repeat split; reflexivity.
Qed.

Lemma validation_failure_aborts env w message :
  In message (validationErrors (cfg w)) -> abortsWith message env w.
Proof.
  intros Hin. unfold abortsWith, startup, bind, startPocketBase, validateConfig.
  destruct (validationErrors (cfg w)) as [|e es] eqn:Herr; [destruct Hin|].
  cbn [length Z.of_nat Z.ltb Z.compare Pos.of_succ_nat fst snd ret].
  destruct (displayStartupStatus_spec (pushErrors (e :: es) w))
    as (He & Hp & Ht).
  repeat split.
  - rewrite He. simpl. apply in_or_app. right. exact Hin.
  - rewrite Hp. reflexivity.
  - rewrite Ht. reflexivity.
Qed.

(** Port 0, port 70000 and SMTP enabled with an empty host are each
    rejected by the validation with an error of their own, which is added
    to the error list; [startPocketBase] then returns at once: it draws
    the status box and spawns no process. *)
Lemma invalid_settings_abort_startup (env : Env) (w : World) :
  (Port (cfg w) = 0 ->
   abortsWith "Invalid port: 0 (must be 1-65535)" env w)
  /\ (Port (cfg w) = 70000 ->
      abortsWith "Invalid port: 70000 (must be 1-65535)" env w)
  /\ (SMTP_Enabled (SMTP (Advanced (cfg w))) = true ->
      SMTP_Host (SMTP (Advanced (cfg w))) = EmptyString ->
      abortsWith "SMTP enabled but Host is empty" env w).
Proof.
  split; [|split].
  - intros Hp. apply validation_failure_aborts.
    unfold validationErrors. rewrite Hp. simpl. now left.
  - intros Hp. apply validation_failure_aborts.
    unfold validationErrors. rewrite Hp. simpl. now left.
  - intros He Hh. apply validation_failure_aborts.
    unfold validationErrors. rewrite He, Hh.
    change (negb (truthy "")) with true. cbv iota.
    rewrite !in_app_iff. simpl. tauto.
Qed.

(** C2 fails on the code for [Backup.KeepLast = -1].  The validation has
    the check, with backups enabled, but the configuration it checks is
    the one [load] has read, and [load] reads the number as a run of
    digits: in a [config.lua] that enables the backups and says
    [KeepLast = -1] the pattern finds no number, [KeepLast] stays 7, the
    validation reports nothing and the server is spawned.  The other
    three settings, written in the same file, are rejected as the claim
    says. *)
Theorem negative_KeepLast_is_not_rejected :
  let w := loaded (settingsDocument "8090" "-1" false) in
  let wf := fst (startup exampleEnv w) in
  Backup_Enabled (Backup (cfg w)) = true
  /\ KeepLast (Backup (cfg w)) = 7
  /\ validationErrors (cfg w) = []
  /\ errors (startupStatus wf) = []
  /\ In (Spawn "/srv/pb/bin/pocketbase-linux"
               ["serve"; "--http=127.0.0.1:8090"; "--dir=pb_data";
                "--publicDir=pb_public"])
        (trace wf)
  /\ abortsWith "Invalid port: 0 (must be 1-65535)" exampleEnv
        (loaded (settingsDocument "0" "7" false))
  /\ abortsWith "Invalid port: 70000 (must be 1-65535)" exampleEnv
        (loaded (settingsDocument "70000" "7" false))
  /\ abortsWith "SMTP enabled but Host is empty" exampleEnv
        (loaded (settingsDocument "8090" "7" true)).
Proof.
  cbv zeta.
  split; [vm_compute; reflexivity|].
  split; [vm_compute; reflexivity|].
  split; [vm_compute; reflexivity|].
  split; [vm_compute; reflexivity|].
  split; [vm_compute; right; right; left; reflexivity|].
  split; [|split].
  - apply (proj1 (invalid_settings_abort_startup exampleEnv _)).
    vm_compute. reflexivity.
  - apply (proj1 (proj2 (invalid_settings_abort_startup exampleEnv _))).
    vm_compute. reflexivity.
  - apply (proj2 (proj2 (invalid_settings_abort_startup exampleEnv _)));
      vm_compute; reflexivity.
Qed.

(* ---------------------------------------------------------------------- *)
(** ** The startup sequence *)

Section StartupFacts.
Import ConfigLoader ProcessUtils Server.

Lemma stable_addresses b u :
  Stable (fun w => bindAddress (startupStatus w) = b
                   /\ publicUrl (startupStatus w) = u).
Proof. constructor; intros; assumption. Qed.

Lemma stable_warning msg :
  Stable (fun w => In msg (warnings (startupStatus w))).
Proof.
  constructor; intros; try assumption.
  simpl. apply in_or_app. now left.
Qed.

Lemma stable_network n : Stable (fun w => network (cfg w) = n).
Proof.
  constructor; intros; try assumption.
  unfold updateSuperuserCredentials.
  destruct (negb _); [assumption|].
  destruct writable; assumption.
Qed.

Lemma getPocketBasePath_network env w :
  network (cfg (fst (getPocketBasePath env w))) = network (cfg w).
Proof.
  unfold getPocketBasePath, getOS.
  repeat match goal with
         | |- context [if ?b then _ else _] => destruct b; simpl
         | |- context [match chmodError env with _ => _ end] =>
             destruct (chmodError env); simpl
         end; reflexivity.
Qed.

Lemma bind_inv {A B : Type} (m : Async A) (k : A -> Async B) w wf b :
  bind m k w = (wf, Fulfilled b) ->
  exists a w', m w = (w', Fulfilled a) /\ k a w' = (wf, Fulfilled b).
Proof.
  unfold bind. destruct (m w) as [w' [|a|e]]; try discriminate.
  intros H. exists a, w'. split; [reflexivity | exact H].
Qed.

Lemma keeps_run {A : Type} P (m : Async A) w w' r :
  keeps P m -> m w = (w', r) -> P w -> P w'.
Proof. intros Hk Hm Hw. specialize (Hk w Hw). now rewrite Hm in Hk. Qed.

Lemma startPocketBase_spawned env w wf url :
  startPocketBase env w = (wf, Fulfilled (Some url)) ->
  exists pbPath w3 w4 bind publicIP,
    network (cfg w3) = network (cfg w)
    /\ resolveAddresses env w3 = (w4, Fulfilled (bind, url, publicIP))
    /\ (forall P, Stable P -> P (setAddresses bind url w4) -> P wf)
    /\ pocketbaseProcess wf =
         Some (mkProcess pbPath (serveArgs (cfg wf) bind) false).
Proof.
  unfold startPocketBase, validateConfig.
  destruct (0 <? _); [discriminate|].
  pose proof (getPocketBasePath_network env w) as Hnet.
  destruct (getPocketBasePath env w) as [w1 [pbPath|]]; [|discriminate].
  simpl in Hnet. intros H.
  apply bind_inv in H as (? & w2 & H2 & H). injection H2 as <- _.
  apply bind_inv in H as (? & w2' & Hupd & H).
  apply bind_inv in H as (? & w3 & H3 & H). injection H3 as <- _.
  apply bind_inv in H as ([[bind finalUrl] publicIP] & w4 & Hres & H).
  apply bind_inv in H as (? & w5 & H5 & H). injection H5 as <- _.
  apply bind_inv in H as (success & w6 & Hsu & H).
  destruct success; [|simpl in H; apply bind_inv in H as (? & ? & _ & H);
                      discriminate].
  cbn [negb] in H.
  apply bind_inv in H as (? & w7 & Hmig & H).
  apply bind_inv in H as (? & w8 & Hbak & H).
  apply bind_inv in H as (? & w9 & H9 & H). injection H9 as <- _.
  apply bind_inv in H as (? & w10 & H10 & H). injection H10 as <- _.
  injection H as <- <-.
  exists pbPath, (setExposeAdmin (ExposeAdmin (cfg w2')) w2'), w4, bind, publicIP.
  split; [|split; [|split]].
  - change (network (cfg w2') = network (cfg w)).
    rewrite <- Hnet.
    apply (keeps_run (fun w' => network (cfg w') = network (cfg w1))
                     _ _ _ _
                     (keeps_checkAndUpdate _ (stable_network _) env pbPath)
                     Hupd).
    reflexivity.
  - exact Hres.
  - intros P HP H5.
    apply (stable_record P HP), (stable_process P HP), (stable_record P HP).
    apply (keeps_run P _ _ _ _ (keeps_performStartupBackup P HP env) Hbak).
    apply (keeps_run P _ _ _ _ (keeps_applyPendingMigrations P HP env pbPath) Hmig).
    apply (keeps_run P _ _ _ _ (keeps_createSuperuser P HP env pbPath publicIP) Hsu).
    exact H5.
  - reflexivity.
Qed.

Lemma truthy_true s : truthy s = true <-> s <> EmptyString.
Proof.
  unfold truthy. destruct (String.eqb_spec s ""); simpl; split; congruence.
Qed.

Lemma resolveAddresses_network env w w' :
  network (cfg w') = network (cfg w) ->
  snd (resolveAddresses env w') = snd (resolveAddresses env w).
Proof.
  unfold network. intros [= He Hh Hp _].
  unfold resolveAddresses. rewrite He, Hh, Hp.
  destruct (ExposeAdmin (cfg w)); [|reflexivity].
  destruct (negb _); [|reflexivity].
  unfold bind, getPublicIP.
  destruct (ipProbe env) as [data|message|]; simpl; try reflexivity.
  destruct (truthy (trim data)); reflexivity.
Qed.

End StartupFacts.

(** C4. With [ExposeAdmin = false] the addresses are the loopback
    literal with the configured port and the fixed local URL, whatever
    [Host] says: for the block that resolves them and, whenever
    [startPocketBase] goes on to spawn the server, for the status it
    reports, the URL it hands to the client and the [--http] argument of
    the server. *)
Theorem loopback_when_not_exposed (env : Env) (w : World) :
  ExposeAdmin (cfg w) = false ->
  let port := string_of_Z (Port (cfg w)) in
  resolveAddresses env w =
    (w, Fulfilled (("127.0.0.1:" ++ port)%string,
                   ("http://localhost:" ++ port)%string, None))
  /\ forall wf url,
       startPocketBase env w = (wf, Fulfilled (Some url)) ->
       url = ("http://localhost:" ++ port)%string
       /\ bindAddress (startupStatus wf) = ("127.0.0.1:" ++ port)%string
       /\ publicUrl (startupStatus wf) = ("http://localhost:" ++ port)%string
       /\ exists p,
            pocketbaseProcess wf = Some p
            /\ nth_error (argv p) 1 = Some ("--http=127.0.0.1:" ++ port)%string.
Proof.
  intros Hexp port.
  assert (Hblock : forall w', network (cfg w') = network (cfg w) ->
            resolveAddresses env w' =
              (w', Fulfilled (("127.0.0.1:" ++ port)%string,
                              ("http://localhost:" ++ port)%string, None))).
  { intros w' [= He _ Hp _]. unfold resolveAddresses.
    rewrite He, Hexp, Hp. reflexivity. }
  split; [apply Hblock; reflexivity|].
  intros wf url Hrun.
  destruct (startPocketBase_spawned env w wf url Hrun)
    as (pbPath & w3 & w4 & bind & publicIP & Hnet & Hres & Hstable & Hproc).
  rewrite (Hblock w3 Hnet) in Hres. injection Hres as <- <- <- _.
  destruct (Hstable _ (stable_addresses ("127.0.0.1:" ++ port)
                         ("http://localhost:" ++ port)))
    as [Hb Hu]; [split; reflexivity|].
  repeat split; try assumption.
  eexists. split; [exact Hproc|]. reflexivity.
Qed.

Lemma loopback_when_not_exposed_witness :
  resolveAddresses exampleEnv (withConfig hostedConfig) =
    (withConfig hostedConfig,
     Fulfilled ("127.0.0.1:8090", "http://localhost:8090", None)).
Proof.
  apply (proj1 (loopback_when_not_exposed
                  exampleEnv (withConfig hostedConfig) eq_refl)).
Defined.

(** C5. With [ExposeAdmin = true] and an empty [Host]: when the IP
    detection returns an address, the public URL is built from it and the
    configured port; when it fails (an error, or an empty answer), the
    public URL is that of the wildcard bind address and a warning is
    appended.  This holds for the block that resolves the addresses and,
    whenever [startPocketBase] goes on to spawn the server, for the status
    it reports and the URL it hands to the client. *)
Theorem public_url_when_exposed_without_host (env : Env) (w : World) :
  ExposeAdmin (cfg w) = true ->
  Host (cfg w) = EmptyString ->
  let port := string_of_Z (Port (cfg w)) in
  let bindAll := ("0.0.0.0:" ++ port)%string in
  let warning := "Could not detect public IP - configure Config.Host manually" in
  (forall ip,
      getPublicIP env w = (w, Fulfilled (Some ip)) ->
      ip <> EmptyString ->
      let detected := ("http://" ++ ip ++ ":" ++ port)%string in
      resolveAddresses env w = (w, Fulfilled (bindAll, detected, Some ip))
      /\ forall wf url,
           startPocketBase env w = (wf, Fulfilled (Some url)) ->
           url = detected
           /\ publicUrl (startupStatus wf) = detected
           /\ bindAddress (startupStatus wf) = bindAll)
  /\ (forall w1 nothing,
        getPublicIP env w = (w1, Fulfilled nothing) ->
        nothing = None \/ nothing = Some EmptyString ->
        let fallback := ("http://0.0.0.0:" ++ port)%string in
        resolveAddresses env w =
          (pushWarning warning w1, Fulfilled (bindAll, fallback, nothing))
        /\ forall wf url,
             startPocketBase env w = (wf, Fulfilled (Some url)) ->
             url = fallback
             /\ publicUrl (startupStatus wf) = fallback
             /\ bindAddress (startupStatus wf) = bindAll
             /\ In warning (warnings (startupStatus wf))).
Proof.
  intros Hexp Hhost port bindAll warning.
  assert (Hip : forall w', getPublicIP env w' =
                  (fst (getPublicIP env w'), snd (getPublicIP env w))).
  { intros w'. unfold getPublicIP.
    destruct (ipProbe env); reflexivity. }
  split.
  - intros ip Hget Hne detected.
    assert (Hblock : forall w', network (cfg w') = network (cfg w) ->
              snd (resolveAddresses env w') =
                Fulfilled (bindAll, detected, Some ip)).
    { intros w' Hnet. rewrite (resolveAddresses_network env w w' Hnet).
      unfold resolveAddresses. rewrite Hexp, Hhost. cbn [truthy negb String.eqb].
      unfold bind. rewrite Hget.
      apply truthy_true in Hne. rewrite Hne. reflexivity. }
    split.
    + unfold resolveAddresses. rewrite Hexp, Hhost. cbn [truthy negb String.eqb].
      unfold bind. rewrite Hget.
      apply truthy_true in Hne. rewrite Hne. reflexivity.
    + intros wf url Hrun.
      destruct (startPocketBase_spawned env w wf url Hrun)
        as (pbPath & w3 & w4 & bind & publicIP & Hnet & Hres & Hstable & _).
      pose proof (Hblock w3 Hnet) as Hb. rewrite Hres in Hb.
      injection Hb as -> -> ->.
      destruct (Hstable _ (stable_addresses bindAll detected))
        as [Hb Hu]; [split; reflexivity|].
      repeat split; assumption.
  - intros w1 nothing Hget Hnothing fallback.
    assert (Hblock : forall w', network (cfg w') = network (cfg w) ->
              resolveAddresses env w' =
                (pushWarning warning (fst (getPublicIP env w')),
                 Fulfilled (bindAll, fallback, nothing))).
    { intros w' [= He Hh Hp _]. unfold resolveAddresses.
      rewrite He, Hh, Hp, Hexp, Hhost. cbn [truthy negb String.eqb].
      unfold bind. rewrite (Hip w'), Hget. cbn [snd].
      destruct Hnothing as [-> | ->]; reflexivity. }
    split.
    + rewrite (Hblock w eq_refl), Hget. reflexivity.
    + intros wf url Hrun.
      destruct (startPocketBase_spawned env w wf url Hrun)
        as (pbPath & w3 & w4 & bind & publicIP & Hnet & Hres & Hstable & _).
      rewrite (Hblock w3 Hnet) in Hres.
      injection Hres as <- <- <- _.
      destruct (Hstable _ (stable_addresses bindAll fallback))
        as [Hb Hu]; [split; reflexivity|].
      repeat split; try assumption.
      apply (Hstable _ (stable_warning warning)).
      simpl. apply in_or_app. right. now left.
Qed.

Lemma public_url_when_exposed_without_host_witness :
  resolveAddresses exampleEnv (withConfig exposedConfig) =
    (withConfig exposedConfig,
     Fulfilled ("0.0.0.0:8090", "http://203.0.113.7:8090", Some "203.0.113.7")).
Proof.
  apply (proj1 (proj1 (public_url_when_exposed_without_host
                         exampleEnv (withConfig exposedConfig)
                         eq_refl eq_refl)
                      "203.0.113.7" eq_refl ltac:(discriminate))).
Defined.

(* ---------------------------------------------------------------------- *)
(** ** Superuser provisioning *)

Section SuperuserFacts.
Import ConfigLoader ProcessUtils Server.

Lemma createSuperuser_reuses env pbPath publicIP w :
  hasConfigCredentials (cfg w) = true ->
  reusesCredentials pbPath w (fst (createSuperuser env pbPath publicIP w)).
Proof.
  intros Hcred. unfold reusesCredentials, createSuperuser.
  rewrite Hcred. cbn [negb].
  unfold bind, exec, await, ret.
  destruct (spawnWithTimeout _ _ _ _ _) as [|result|reason]; cbn;
    try (repeat split; reflexivity).
  destruct (_ || _); cbn; repeat split; reflexivity.
Qed.

(** Generated credentials that were saved are found again. *)
Lemma createSuperuser_persists env pbPath publicIP w :
  hasConfigCredentials (cfg w) = false ->
  truthy (randomPassword env) = true ->
  truthy (configContent (loader w)) = true ->
  configWritable env = true ->
  snd (createSuperuser env pbPath publicIP w) = Fulfilled true ->
  hasConfigCredentials (cfg (fst (createSuperuser env pbPath publicIP w))) = true.
Proof.
  intros Hcred Hpw Hcontent Hwr.
  unfold createSuperuser. rewrite Hcred. cbn [negb].
  unfold bind, exec, await, ret.
  destruct (spawnWithTimeout _ _ _ _ _) as [|result|reason]; cbn;
    try discriminate.
  destruct (_ || _); cbn; try discriminate.
  intros _. unfold updateSuperuserCredentials.
  rewrite Hcontent, Hwr. cbn.
  unfold hasConfigCredentials. cbn. rewrite Hpw.
  destruct publicIP as [ip|]; [destruct (truthy ip)|]; reflexivity.
Qed.
End SuperuserFacts.

(** C7. With persisted email and password both non-empty,
    [createSuperuser] upserts exactly these credentials and neither
    generates others, nor writes to the configuration, nor sets the
    credentials to display; so does a second invocation after it, and so
    does an invocation after one that generated credentials, succeeded
    and saved them. *)
Theorem createSuperuser_idempotent
        (env1 env2 : Server.Env) (pbPath : string)
        (publicIP1 publicIP2 : option string) (w : Server.World) :
  let w1 := fst (Server.createSuperuser env1 pbPath publicIP1 w) in
  let w2 := fst (Server.createSuperuser env2 pbPath publicIP2 w1) in
  (Server.hasConfigCredentials (Server.cfg w) = true ->
   Server.reusesCredentials pbPath w w1
   /\ Server.reusesCredentials pbPath w1 w2)
  /\ (Server.hasConfigCredentials (Server.cfg w) = false ->
      truthy (Server.randomPassword env1) = true ->
      truthy (ConfigLoader.configContent (Server.loader w)) = true ->
      Server.configWritable env1 = true ->
      snd (Server.createSuperuser env1 pbPath publicIP1 w) = Fulfilled true ->
      Server.reusesCredentials pbPath w1 w2).
Proof.
  intros w1 w2. split.
  - intros Hcred.
    assert (H1 : Server.reusesCredentials pbPath w w1)
      by (apply createSuperuser_reuses; exact Hcred).
    split; [exact H1|].
    apply createSuperuser_reuses.
    destruct H1 as (Hl & _). unfold Server.cfg. rewrite Hl. exact Hcred.
  - intros Hcred Hpw Hcontent Hwr Hok.
    apply createSuperuser_reuses.
    now apply createSuperuser_persists.
Qed.

Lemma createSuperuser_idempotent_witness :
  reusesCredentials "/srv/pb/bin/pocketbase-linux"
    (withConfig provisionedConfig)
    (fst (createSuperuser exampleEnv "/srv/pb/bin/pocketbase-linux" None
                          (withConfig provisionedConfig))).
Proof.
  apply (proj1 (proj1 (createSuperuser_idempotent
                         exampleEnv exampleEnv "/srv/pb/bin/pocketbase-linux"
                         None None (withConfig provisionedConfig))
                      eq_refl)).
Defined.

(* ---------------------------------------------------------------------- *)
(** ** Backup rotation *)

Section SortFacts.

Lemma insertBy_perm {A : Type} (compare : A -> A -> Z) x l :
  Permutation (insertBy compare x l) (x :: l).
Proof.
  induction l as [|y l IH]; simpl; [reflexivity|].
  destruct (compare x y <=? 0); [reflexivity|].
  rewrite IH. apply perm_swap.
Qed.

Lemma sortBy_perm {A : Type} (compare : A -> A -> Z) l :
  Permutation (sortBy compare l) l.
Proof.
  induction l as [|x l IH]; simpl; [reflexivity|].
  unfold sortBy in *. simpl. rewrite insertBy_perm. now constructor.
Qed.

Lemma insertBy_newest_sorted x l :
  dated x = true -> forallb dated l = true ->
  StronglySorted newerOrEqual l ->
  StronglySorted newerOrEqual (insertBy newestFirst x l).
Proof.
  unfold dated. intros Hx Hl Hsorted. revert Hl.
  induction Hsorted as [|y l Hl IH Hy]; intros Hdated; simpl.
  - repeat constructor.
  - simpl in Hdated. apply andb_true_iff in Hdated.
    destruct Hdated as [Hdy Hdl]. specialize (IH Hdl).
    unfold newestFirst at 1.
    destruct (created x) as [tx|] eqn:Hcx; [|discriminate].
    destruct (created y) as [ty|] eqn:Hcy; [|discriminate].
    destruct (ty - tx <=? 0) eqn:Hcmp.
    + apply Z.leb_le in Hcmp.
      constructor; [constructor; assumption|].
      constructor; [unfold newerOrEqual; rewrite Hcx, Hcy; lia|].
      rewrite Forall_forall in *. intros z Hz.
      specialize (Hy z Hz). unfold newerOrEqual in *.
      rewrite Hcx. rewrite Hcy in Hy.
      destruct (created z); [lia|exact Hy].
    + apply Z.leb_gt in Hcmp.
      constructor; [exact IH|].
      rewrite Forall_forall in *. intros z Hz.
      apply (Permutation_in _ (insertBy_perm newestFirst x l)) in Hz.
      destruct Hz as [<-|Hz]; [|auto].
      unfold newerOrEqual. rewrite Hcx, Hcy. lia.
Qed.

(** Backups whose dates are valid are sorted by their age, the newest
    first. *)
Lemma sortBy_newest_sorted l :
  forallb dated l = true ->
  StronglySorted newerOrEqual (sortBy newestFirst l).
Proof.
  induction l as [|x l IH]; [constructor|]. simpl.
  intros H. apply andb_true_iff in H. destruct H as [Hx Hl].
  apply insertBy_newest_sorted; [exact Hx| |apply IH, Hl].
  rewrite forallb_forall in *. intros b Hb. apply Hl.
  exact (Permutation_in _ (sortBy_perm newestFirst l) Hb).
Qed.

(** Backups none of which has a valid date stay in the order of the
    listing. *)
Lemma sortBy_undated l :
  forallb (fun b => negb (dated b)) l = true -> sortBy newestFirst l = l.
Proof.
  induction l as [|x l IH]; [reflexivity|]. simpl.
  intros H. apply andb_true_iff in H. destruct H as [Hx Hl].
  unfold sortBy in *. simpl. rewrite (IH Hl).
  destruct l as [|y l]; [reflexivity|]. simpl.
  unfold newestFirst, dated in *.
  destruct (created x); [discriminate|].
  destruct (created y); reflexivity.
Qed.

(** In a sorted list every element of a prefix is related to every
    element of the rest. *)
Lemma sorted_prefix_rest {A : Type} (R : A -> A -> Prop) l :
  StronglySorted R l ->
  forall n x y, In x (firstn n l) -> In y (skipn n l) -> R x y.
Proof.
  induction 1 as [|z l Hl IH Hz]; intros n x y Hx Hy.
  - destruct n; destruct Hx.
  - destruct n as [|n]; [destruct Hx|]. simpl in Hx, Hy.
    destruct Hx as [<-|Hx].
    + rewrite Forall_forall in Hz. apply Hz.
      rewrite <- (firstn_skipn n l). apply in_or_app. now right.
    + eapply IH; eassumption.
Qed.

Lemma NoDup_map_injective {A B : Type} (f : A -> B) l x y :
  NoDup (map f l) -> In x l -> In y l -> f x = f y -> x = y.
Proof.
  induction l as [|z l IH]; simpl; intros Hnd Hx Hy Hf; [destruct Hx|].
  inversion Hnd as [|? ? Hnotin Hnd']; subst.
  destruct Hx as [<-|Hx], Hy as [<-|Hy]; auto.
  - exfalso. apply Hnotin. rewrite Hf. now apply in_map.
  - exfalso. apply Hnotin. rewrite <- Hf. now apply in_map.
Qed.

Lemma NoDup_of_map {A B : Type} (f : A -> B) l :
  NoDup (map f l) -> NoDup l.
Proof.
  induction l as [|z l IH]; simpl; intros Hnd; [constructor|].
  inversion Hnd as [|? ? Hnotin Hnd']; subst.
  constructor; [|auto]. intros Hin. apply Hnotin. now apply in_map.
Qed.

Lemma NoDup_app_disjoint {A : Type} (l1 l2 : list A) x :
  NoDup (l1 ++ l2) -> In x l1 -> In x l2 -> False.
Proof.
  induction l1 as [|z l1 IH]; simpl; intros Hnd H1 H2; [destruct H1|].
  inversion Hnd as [|? ? Hnotin Hnd']; subst.
  destruct H1 as [<-|H1]; [|auto].
  apply Hnotin. apply in_or_app. now right.
Qed.
End SortFacts.

Section RotationFacts.

Lemma keyAmong_spec ds b :
  keyAmong ds b = true <-> exists d, In d ds /\ key b = key d.
Proof.
  unfold keyAmong, hasKey. rewrite existsb_exists.
  split; intros (d & Hd & Hk); exists d; split; auto.
  - now apply String.eqb_eq.
  - now apply String.eqb_eq.
Qed.

(** One deletion uses up one answer of the backend.  When the backend
    refuses, the backups stay; otherwise those of the other keys are left,
    whether the backend had one of that key or answered with an error. *)
Lemma deleteOld_spec d w :
  clientReady (backend w) = true ->
  let w' := fst (deleteOld d w) in
  snd (deleteOld d w) = Fulfilled tt
  /\ clientReady (backend w') = true
  /\ refusals (backend w') = tl (refusals (backend w))
  /\ backups (backend w') =
       match refusals (backend w) with
       | Some _ :: _ => backups (backend w)
       | _ => filter (fun b => negb (hasKey (key d) b)) (backups (backend w))
       end.
Proof.
  intros Hready.
  assert (Hkeep : existsb (hasKey (key d)) (backups (backend w)) = false ->
                  backups (backend w)
                  = filter (fun b => negb (hasKey (key d) b))
                           (backups (backend w))).
  { intros Hex. symmetry. apply forallb_filter_id.
    apply forallb_forall. intros b Hb.
    destruct (hasKey (key d) b) eqn:Hk; [|reflexivity].
    assert (Hsome : existsb (hasKey (key d)) (backups (backend w)) = true)
      by (apply existsb_exists; eauto).
    congruence. }
  unfold deleteOld, deleteBackup, pbInternalDeleteBackup, bind, tryCatch,
    exec, ret.
  rewrite Hready.
  destruct (refusals (backend w)) as [|[message|] later];
    try (destruct (existsb (hasKey (key d)) (backups (backend w))) eqn:Hex);
    cbn; repeat split; auto.
Qed.

(** The deletions add no backup and leave those of the other keys,
    whatever the backend answers. *)
Lemma deleteAll_sub ds : forall w,
  clientReady (backend w) = true ->
  let w' := fst (forEach ds deleteOld w) in
  snd (forEach ds deleteOld w) = Fulfilled tt
  /\ (forall b, In b (backups (backend w')) -> In b (backups (backend w)))
  /\ (forall b, In b (backups (backend w)) -> keyAmong ds b = false ->
                In b (backups (backend w'))).
Proof.
  induction ds as [|d ds IH]; intros w Hready; simpl; [auto|].
  destruct (deleteOld_spec d w Hready) as (Hdone & Hready' & _ & Hb).
  unfold bind. destruct (deleteOld d w) as [w1 r]. simpl in *. subst r.
  destruct (IH w1 Hready') as (Hdone' & Hsub & Hleft).
  split; [exact Hdone'|]. split.
  - intros b Hin. apply Hsub in Hin. rewrite Hb in Hin.
    destruct (refusals (backend w)) as [|[message|] later];
      try (apply filter_In in Hin; tauto); exact Hin.
  - intros b Hin Hk. unfold keyAmong in Hk. simpl in Hk.
    apply orb_false_iff in Hk. destruct Hk as [Hd Hk].
    apply Hleft; [|exact Hk]. rewrite Hb.
    destruct (refusals (backend w)) as [|[message|] later];
      try (apply filter_In; split; [exact Hin|now rewrite Hd]); exact Hin.
Qed.

(** When the backend refuses none of them, the deletions leave exactly
    the backups of the other keys. *)
Lemma deleteAll_spec ds : forall w,
  clientReady (backend w) = true ->
  obliging (backend w) = true ->
  let w' := fst (forEach ds deleteOld w) in
  snd (forEach ds deleteOld w) = Fulfilled tt
  /\ backups (backend w') =
       filter (fun b => negb (keyAmong ds b)) (backups (backend w)).
Proof.
  induction ds as [|d ds IH]; intros w Hready Hobliging; simpl.
  - split; [reflexivity|].
    symmetry. apply forallb_filter_id. apply forallb_forall. reflexivity.
  - destruct (deleteOld_spec d w Hready) as (Hdone & Hready' & Hr & Hb).
    unfold bind. destruct (deleteOld d w) as [w1 r]. simpl in *. subst r.
    assert (Hobliging' : obliging (backend w1) = true).
    { unfold obliging in *. rewrite Hr.
      destruct (refusals (backend w)) as [|answer later]; [reflexivity|].
      simpl in Hobliging. apply andb_true_iff in Hobliging. tauto. }
    assert (Hb' : backups (backend w1)
                  = filter (fun b => negb (hasKey (key d) b))
                           (backups (backend w))).
    { rewrite Hb. unfold obliging in Hobliging.
      destruct (refusals (backend w)) as [|[message|] later];
        [reflexivity|discriminate|reflexivity]. }
    destruct (IH w1 Hready' Hobliging') as (Hdone' & Hstore).
    split; [exact Hdone'|].
    rewrite Hstore, Hb'. clear.
    induction (backups (backend w)) as [|b bs IHbs]; simpl; [reflexivity|].
    unfold keyAmong at 2. simpl. fold (keyAmong ds b).
    destruct (hasKey (key d) b); simpl; [exact IHbs|].
    destruct (keyAmong ds b); simpl; [exact IHbs|].
    f_equal. exact IHbs.
Qed.
End RotationFacts.

(** What the rotation is written for.  With backups enabled and
    [KeepLast = N > 0], on a list of backups with distinct keys and valid
    dates of which [M > N] carry the automatic prefix, and with a backend
    that refuses no deletion, rotation deletes [M - N] of the automatic
    backups, each created no later than each of the [N] it keeps; what is
    left in the backend are the listed backups but the deleted ones, so
    all that do not carry the prefix and the [N] newest that do. *)
Lemma rotation_keeps_the_newest
      (w : World) (listed : list BackupRecord) (N : Z) :
  Backup_Enabled (Backup (cfg w)) = true ->
  KeepLast (Backup (cfg w)) = N ->
  0 < N ->
  listBackups w = (w, Fulfilled listed) ->
  NoDup (map key listed) ->
  forallb dated listed = true ->
  obliging (backend w) = true ->
  let autos := filter (isAuto (cfg w)) listed in
  let M := Z.of_nat (length autos) in
  N < M ->
  let w' := fst (manageBackupRotation w) in
  exists kept deleted,
    Permutation autos (kept ++ deleted)
    /\ Z.of_nat (length kept) = N
    /\ Z.of_nat (length deleted) = M - N
    /\ (forall k d, In k kept -> In d deleted -> newerOrEqual k d)
    /\ (forall b, In b (backups (backend w')) <-> In b listed /\ ~ In b deleted)
    /\ (forall b, In b kept -> In b (backups (backend w')))
    /\ (forall b, In b listed -> isAuto (cfg w) b = false ->
                  In b (backups (backend w')))
    /\ snd (manageBackupRotation w) = Fulfilled tt.
Proof.
  intros Henabled Hkeep Hpos Hlist Hnodup Hdated Hobliging autos M HM w'.
  (* the list comes from a client that is ready *)
  assert (Hready : clientReady (backend w) = true /\ listed = backups (backend w)).
  { unfold listBackups, tryCatch, pbInternalListBackups in Hlist.
    destruct (clientReady (backend w)).
    - injection Hlist as <-. split; reflexivity.
    - injection Hlist as <-. simpl in M. lia. }
  destruct Hready as [Hready Hlisted].
  set (sorted := sortBy newestFirst autos).
  set (n := Z.to_nat N).
  assert (Hperm : Permutation sorted autos) by apply sortBy_perm.
  assert (Hlen : length sorted = length autos) by (apply Permutation_length, Hperm).
  assert (Hn : (n < length sorted)%nat) by (unfold n; lia).
  (* what the function does *)
  assert (Hrun : manageBackupRotation w = forEach (skipn n sorted) deleteOld w).
  { unfold manageBackupRotation. rewrite Henabled, Hkeep.
    assert (Hle : (N <=? 0) = false) by (apply Z.leb_gt; lia).
    rewrite Hle. cbn [negb orb]. unfold bind. rewrite Hlist.
    assert (Hmore : (Z.of_nat (length listed) <=? N) = false).
    { apply Z.leb_gt. pose proof (filter_length_le (isAuto (cfg w)) listed).
      fold autos in H. lia. }
    rewrite Hmore. unfold slice.
    assert (Hneg : (N <? 0) = false) by (apply Z.ltb_ge; lia).
    rewrite Hneg. reflexivity. }
  unfold w'. rewrite Hrun.
  destruct (deleteAll_spec (skipn n sorted) w Hready Hobliging)
    as (Hdone & Hstore).
  (* keys are distinct *)
  assert (Hsub : forall b, In b sorted -> In b listed /\ isAuto (cfg w) b = true).
  { intros b Hb. apply (Permutation_in _ Hperm) in Hb.
    unfold autos in Hb. now apply filter_In in Hb. }
  assert (Hnd : NoDup (firstn n sorted ++ skipn n sorted)).
  { rewrite firstn_skipn.
    apply (Permutation_NoDup (Permutation_sym Hperm)).
    apply NoDup_filter. eapply NoDup_of_map. exact Hnodup. }
  assert (Hamong : forall b, In b listed ->
            (keyAmong (skipn n sorted) b = true <-> In b (skipn n sorted))).
  { intros b Hb. rewrite keyAmong_spec. split.
    - intros (d & Hd & Hk).
      assert (Hd' : In d listed).
      { apply Hsub. rewrite <- (firstn_skipn n sorted).
        apply in_or_app. now right. }
      now rewrite (NoDup_map_injective key listed b d Hnodup Hb Hd' Hk).
    - intros Hin. exists b. now split. }
  assert (Hleft : forall b, In b (backups (backend (fst (forEach (skipn n sorted) deleteOld w))))
                            <-> In b listed /\ ~ In b (skipn n sorted)).
  { intros b. rewrite Hstore, filter_In, <- Hlisted. split.
    - intros [Hb Hk]. split; [exact Hb|]. intros Hin.
      apply (Hamong b Hb) in Hin. rewrite Hin in Hk. discriminate.
    - intros [Hb Hnot]. split; [exact Hb|].
      destruct (keyAmong (skipn n sorted) b) eqn:Hk; [|reflexivity].
      exfalso. apply Hnot. now apply Hamong. }
  exists (firstn n sorted), (skipn n sorted).
  split; [rewrite firstn_skipn; now symmetry|].
  split; [rewrite length_firstn; unfold n in *; lia|].
  split; [rewrite length_skipn; unfold M, n in *; lia|].
  split.
  { intros k d Hk Hd.
    assert (Hautos : forallb dated autos = true).
    { rewrite forallb_forall in *. intros b Hb. apply Hdated.
      unfold autos in Hb. now apply filter_In in Hb. }
    apply (sorted_prefix_rest newerOrEqual sorted
             (sortBy_newest_sorted autos Hautos) n k d Hk Hd). }
  split; [exact Hleft|].
  split.
  { intros b Hb. apply Hleft. split.
    - apply Hsub. rewrite <- (firstn_skipn n sorted). apply in_or_app. now left.
    - intros Hd. exact (NoDup_app_disjoint _ _ b Hnd Hb Hd). }
  split; [|exact Hdone].
  intros b Hb Hauto. apply Hleft. split; [exact Hb|].
  intros Hd.
  assert (Hin : In b sorted)
    by (rewrite <- (firstn_skipn n sorted); apply in_or_app; now right).
  apply Hsub in Hin. destruct Hin as [_ Hin]. congruence.
Qed.

Lemma rotation_keeps_the_newest_witness :
  exists kept deleted,
    Permutation (filter (isAuto rotatingConfig) fourBackups) (kept ++ deleted)
    /\ Z.of_nat (length kept) = 2
    /\ Z.of_nat (length deleted) = 3 - 2
    /\ (forall k d, In k kept -> In d deleted -> newerOrEqual k d)
    /\ (forall b, In b (backups (backend (fst (manageBackupRotation rotatingWorld))))
                  <-> In b fourBackups /\ ~ In b deleted)
    /\ (forall b, In b kept ->
                  In b (backups (backend (fst (manageBackupRotation rotatingWorld)))))
    /\ (forall b, In b fourBackups -> isAuto rotatingConfig b = false ->
                  In b (backups (backend (fst (manageBackupRotation rotatingWorld)))))
    /\ snd (manageBackupRotation rotatingWorld) = Fulfilled tt.
Proof.
  apply (rotation_keeps_the_newest rotatingWorld fourBackups 2);
    try reflexivity.
  repeat constructor; simpl; intuition discriminate.
Defined.

Example rotation_example :
  backups (backend (fst (manageBackupRotation rotatingWorld))) =
    [mkBackupRecord "before_upgrade" (Some 1735776000000);
     mkBackupRecord "auto_scheduled_2025-01-03T00-00-00" (Some 1735862400000);
     mkBackupRecord "auto_scheduled_2025-01-02T00-00-00" (Some 1735776000000)].
Proof. reflexivity. Qed.

(** C1 fails on the code.  The age of a backup is read from [b.created],
    and the records are those of the listing as the backend answers it;
    for a record without that property, or with one that is not a date,
    the comparison is [NaN], the sort leaves the listing as it is and the
    backups are deleted by their place in it.  Of three automatic backups
    listed oldest first without [created], with [KeepLast = 2], rotation
    deletes the third, the newest, and keeps the two older ones.  For any
    listing without valid dates the first [KeepLast] automatic backups of
    the listing are kept, whatever their age. *)
Theorem rotation_without_dates_deletes_by_position :
  backups (backend (fst (manageBackupRotation undatedWorld)))
  = [mkBackupRecord "auto_startup_2025-01-01T00-00-00" None;
     mkBackupRecord "auto_scheduled_2025-01-02T00-00-00" None]
  /\ trace (fst (manageBackupRotation undatedWorld))
     = [Log "debug" "Deleted old backup: auto_scheduled_2025-01-03T00-00-00"]
  /\ forall w,
       Backup_Enabled (Backup (cfg w)) = true ->
       0 < KeepLast (Backup (cfg w)) ->
       clientReady (backend w) = true ->
       obliging (backend w) = true ->
       forallb (fun b => negb (dated b)) (backups (backend w)) = true ->
       let autos := filter (isAuto (cfg w)) (backups (backend w)) in
       let n := Z.to_nat (KeepLast (Backup (cfg w))) in
       (n < length autos)%nat ->
       backups (backend (fst (manageBackupRotation w)))
       = filter (fun b => negb (keyAmong (skipn n autos) b))
                (backups (backend w)).
Proof.
  split; [reflexivity|]. split; [reflexivity|].
  intros w Henabled Hpos Hready Hobliging Hundated autos n Hmore.
  assert (Hautos : forallb (fun b => negb (dated b)) autos = true).
  { rewrite forallb_forall in *. intros b Hb. apply Hundated.
    unfold autos in Hb. now apply filter_In in Hb. }
  unfold manageBackupRotation. rewrite Henabled.
  assert (Hle : (KeepLast (Backup (cfg w)) <=? 0) = false)
    by (apply Z.leb_gt; lia).
  rewrite Hle. cbn [negb orb].
  unfold bind, listBackups, tryCatch, pbInternalListBackups.
  rewrite Hready.
  assert (Hlong : (Z.of_nat (length (backups (backend w)))
                   <=? KeepLast (Backup (cfg w))) = false).
  { apply Z.leb_gt.
    pose proof (filter_length_le (isAuto (cfg w)) (backups (backend w))).
    fold autos in H. unfold n in Hmore. lia. }
  rewrite Hlong. fold autos. rewrite (sortBy_undated autos Hautos).
  unfold slice.
  assert (Hneg : (KeepLast (Backup (cfg w)) <? 0) = false)
    by (apply Z.ltb_ge; lia).
  rewrite Hneg. fold n.
  apply (deleteAll_spec (skipn n autos) w Hready Hobliging).
Qed.

(* ---------------------------------------------------------------------- *)
(** ** Readiness handshake *)

Lemma deliver_trace late : forall h w, trace (deliver late h w) = trace w.
Proof.
  induction late as [|ev late IH]; intros h w; simpl; [reflexivity|].
  destruct (onHandshakeEvent ev h w) as [w' h'] eqn:Hev.
  rewrite IH. unfold onHandshakeEvent in Hev.
  destruct ev; [destruct (timerPending h)|]; injection Hev as <- _; reflexivity.
Qed.

Lemma trace_record e w : trace (record e w) = trace w ++ [e].
Proof. reflexivity. Qed.

Lemma scheduleBackups_spec w :
  snd (scheduleBackups w) = Fulfilled tt
  /\ forall ev, In ev (trace w) -> In ev (trace (fst (scheduleBackups w))).
Proof.
  unfold scheduleBackups. destruct (_ || _); simpl; split; auto.
  intros ev Hin. rewrite !in_app_iff. tauto.
Qed.

Lemma displayStartupStatus_clientAuthenticated w :
  clientAuthenticated (startupStatus (displayStartupStatus w)) =
  clientAuthenticated (startupStatus w).
Proof.
  unfold displayStartupStatus.
  destruct (clientAuthenticated (startupStatus w)) as [[|]|] eqn:Hc;
    [destruct (exposeAdmin (startupStatus w));
       [destruct (healthCheckPassed (startupStatus w))|] | |];
    simpl; rewrite ?Hc; reflexivity.
Qed.

(** Once the client promise is resolved the callback goes on: unless the
    health check (made only when the admin is exposed) fails to settle,
    it draws the status box and returns. *)
Lemma onSettled_reports env finalUrl w p w1 h late :
  pocketbaseProcess w = Some p ->
  processKilled p = false ->
  handshake env finalUrl w = (w1, h, late) ->
  clientReadyPromise h = Fulfilled tt ->
  (ExposeAdmin (cfg w) = false
   \/ exists events passed,
        healthProbe env = Requested events
        /\ fold_left onProbeEvent events Pending = Fulfilled passed) ->
  snd (onSettled env finalUrl w) = Fulfilled tt
  /\ exists s,
       In (Report s) (trace (fst (onSettled env finalUrl w)))
       /\ (late = [] -> clientAuthenticated s = clientAuthenticated (startupStatus w1)).
Proof.
  intros Hp Hk Hh Hr Hhealth.
  unfold onSettled. rewrite Hp, Hk, Hh, Hr.
  destruct (ExposeAdmin (cfg w)) eqn:Hexp.
  - destruct Hhealth as [|(events & passed & Hprobe & Hfold)]; [discriminate|].
    cbn [andb].
    unfold checkPublicUrlHealth. rewrite Hprobe.
    unfold bind, exec, await. rewrite Hfold. cbn [fst snd].
    match goal with
    | |- context [scheduleBackups ?w'] =>
        destruct (scheduleBackups_spec w') as [Hs Ht];
        destruct (scheduleBackups w') as [w2 r] eqn:Hrun
    end.
    cbn [fst snd] in *. subst r. split; [reflexivity|].
    match type of Hrun with
    | scheduleBackups (record _ (displayStartupStatus ?w')) = _ =>
        exists (startupStatus (displayStartupStatus w'));
        assert (Hin : In (Report (startupStatus (displayStartupStatus w')))
                         (trace w2));
        [ apply Ht; rewrite trace_record, in_app_iff; left;
          destruct (displayStartupStatus_spec w') as (_ & _ & Htr);
          rewrite Htr, in_app_iff; right; left; reflexivity |]
    end.
    split.
    + destruct (lateAckBeforeReport env); [exact Hin|].
      rewrite deliver_trace. exact Hin.
    + intros ->. rewrite displayStartupStatus_clientAuthenticated.
      destruct (lateAckBeforeReport env); reflexivity.
  - cbn [andb].
    unfold bind, exec, ret. cbn [fst snd].
    match goal with
    | |- context [scheduleBackups ?w'] =>
        destruct (scheduleBackups_spec w') as [Hs Ht];
        destruct (scheduleBackups w') as [w2 r] eqn:Hrun
    end.
    cbn [fst snd] in *. subst r. split; [reflexivity|].
    match type of Hrun with
    | scheduleBackups (record _ (displayStartupStatus ?w')) = _ =>
        exists (startupStatus (displayStartupStatus w'));
        assert (Hin : In (Report (startupStatus (displayStartupStatus w')))
                         (trace w2));
        [ apply Ht; rewrite trace_record, in_app_iff; left;
          destruct (displayStartupStatus_spec w') as (_ & _ & Htr);
          rewrite Htr, in_app_iff; right; left; reflexivity |]
    end.
    split.
    + rewrite deliver_trace. exact Hin.
    + intros _. apply displayStartupStatus_clientAuthenticated.
Qed.

(** C3.  The event that is delivered first decides: an acknowledgment
    leaves exactly its boolean in [clientAuthenticated], the timer leaves
    [false] there.  So, for every order in which the event loop can
    deliver the 3000 ms timer and the acknowledgment of the client: the
    wait ends; an acknowledgment that arrives before the timer fires
    leaves its boolean; when none arrives within 3000 ms the timer leaves
    [false]; and in either case the callback goes on to the status report
    instead of aborting. *)
Theorem handshake_records_acknowledgment
        (env : Env) (finalUrl : string) (w : World) :
  let w1 := fst (fst (handshake env finalUrl w)) in
  let h := snd (fst (handshake env finalUrl w)) in
  (forall authenticated later,
      clientEvents env = ClientReady authenticated :: later ->
      clientReadyPromise h = Fulfilled tt
      /\ clientAuthenticated (startupStatus w1) = Some authenticated)
  /\ (forall later,
        clientEvents env = TimeoutFired :: later ->
        clientReadyPromise h = Fulfilled tt
        /\ clientAuthenticated (startupStatus w1) = Some false)
  /\ (forall ack,
        In (clientEvents env) (deliveries ack) ->
        clientReadyPromise h = Fulfilled tt
        /\ (forall t b, ack = Some (t, b) -> t < 3000 ->
                        clientAuthenticated (startupStatus w1) = Some b)
        /\ (ack = None \/ (exists t b, ack = Some (t, b) /\ 3000 < t) ->
            clientAuthenticated (startupStatus w1) = Some false)
        /\ (forall p,
               pocketbaseProcess w = Some p ->
               processKilled p = false ->
               (ExposeAdmin (cfg w) = false
                \/ exists events passed,
                     healthProbe env = Requested events
                     /\ fold_left onProbeEvent events Pending = Fulfilled passed) ->
               snd (onSettled env finalUrl w) = Fulfilled tt
               /\ exists s,
                    In (Report s) (trace (fst (onSettled env finalUrl w))))).
Proof.
  intros w1 h.
  assert (Hack : forall authenticated later,
            clientEvents env = ClientReady authenticated :: later ->
            clientReadyPromise h = Fulfilled tt
            /\ clientAuthenticated (startupStatus w1) = Some authenticated).
  { intros b later Hev. unfold h, w1, handshake. rewrite Hev.
    destruct later; split; reflexivity. }
  assert (Htimer : forall later,
            clientEvents env = TimeoutFired :: later ->
            clientReadyPromise h = Fulfilled tt
            /\ clientAuthenticated (startupStatus w1) = Some false).
  { intros later Hev. unfold h, w1, handshake. rewrite Hev.
    destruct later; split; reflexivity. }
  split; [exact Hack|]. split; [exact Htimer|].
  intros ack Hev.
  assert (Hcases :
    (exists later, clientEvents env = TimeoutFired :: later
       /\ (ack = None \/ exists t b, ack = Some (t, b) /\ 3000 <= t))
    \/ exists t b later,
         ack = Some (t, b) /\ clientEvents env = ClientReady b :: later
         /\ t <= 3000).
  { destruct ack as [[t b]|]; simpl in Hev.
    - destruct (t <? 3000) eqn:Hlt.
      + apply Z.ltb_lt in Hlt. destruct Hev as [<-|[]].
        right. exists t, b, []. repeat split. lia.
      + apply Z.ltb_ge in Hlt.
        destruct (t =? 3000) eqn:Heq.
        * apply Z.eqb_eq in Heq.
          destruct Hev as [<-|[<-|[]]].
          -- right. exists t, b, []. repeat split. lia.
          -- left. eexists. split; [reflexivity|].
             right. exists t, b. split; [reflexivity|lia].
        * destruct Hev as [<-|[]].
          left. eexists. split; [reflexivity|].
          right. exists t, b. split; [reflexivity|lia].
    - left. destruct Hev as [<-|[]]. eexists. split; [reflexivity|]. now left. }
  assert (Hr : clientReadyPromise h = Fulfilled tt).
  { destruct Hcases as [(later & Hevs & _)|(t & b & later & _ & Hevs & _)].
    - apply (Htimer later Hevs).
    - apply (Hack b later Hevs). }
  split; [exact Hr|]. split; [|split].
  - intros t b -> Hlt.
    destruct Hcases as [(later & Hevs & [|(t' & b' & [= <- <-] & Hge)])
                       |(t' & b' & later & [= <- <-] & Hevs & _)];
      [discriminate | lia | apply (Hack b later Hevs)].
  - intros Hnone.
    destruct Hcases as [(later & Hevs & _)|(t & b & later & -> & Hevs & Hle)].
    + apply (Htimer later Hevs).
    + destruct Hnone as [|(t' & b' & [= <- <-] & Hgt)]; [discriminate|lia].
  - intros p Hp Hk Hhealth.
    destruct (handshake env finalUrl w) as [[w1' h'] late] eqn:Hh.
    destruct (onSettled_reports env finalUrl w p w1' h' late Hp Hk Hh Hr Hhealth)
      as (Hdone & s & Hs & _).
    split; [exact Hdone|]. exists s. exact Hs.
Qed.

Lemma handshake_records_acknowledgment_witness :
  clientAuthenticated
    (startupStatus
       (fst (fst (handshake exampleEnv "http://localhost:8090"
                            (withConfig provisionedConfig))))) = Some true.
Proof.
  apply (proj1 (proj2 (proj2 (proj2 (handshake_records_acknowledgment
                                       exampleEnv "http://localhost:8090"
                                       (withConfig provisionedConfig)))
                               (Some (1200, true)) (or_introl eq_refl)))
           1200 true eq_refl).
  lia.
Defined.

(* ---------------------------------------------------------------------- *)
(** ** Health check *)

(** Once the request is made, the first of response, error and timeout
    decides: [true] for a response of status 200 and [false] otherwise. *)
Lemma checkPublicUrlHealth_first_event url ev events w :
  checkPublicUrlHealth url (Requested (ev :: events)) w =
    (record (HttpGet (url ++ "/api/health") 5000) w,
     Fulfilled match ev with
               | Response statusCode => statusCode =? 200
               | _ => false
               end).
Proof.
  unfold checkPublicUrlHealth, bind, exec, await. simpl.
  f_equal.
  assert (Hkeep : forall evs b, fold_left onProbeEvent evs (Fulfilled b)
                                = Fulfilled b).
  { induction evs as [|e evs IH]; intros b; simpl; [reflexivity|].
    destruct e; simpl; apply IH. }
  destruct ev; simpl; apply Hkeep.
Qed.

(** C8 fails on the code.  [new URL(url)] is evaluated inside the executor
    of the promise and throws for a malformed URL, so that the promise of
    [checkPublicUrlHealth] is rejected instead of resolving to [false].
    [Config.Host = "::1"] with the admin exposed gives such a URL: the
    callback of the startup timer dies with the exception and the status
    is never reported. *)
Theorem checkPublicUrlHealth_rejects_malformed_url :
  publicUrl (startupStatus
               (fst (startPocketBase malformedUrlEnv (withConfig bareIPv6Config))))
    = "http://::1:8090"
  /\ (forall w,
        checkPublicUrlHealth "http://::1:8090" (UrlInvalid "Invalid URL") w
        = (w, Failed "Invalid URL"))
  /\ snd (startup malformedUrlEnv (withConfig bareIPv6Config))
       = Failed "Invalid URL"
  /\ forall s,
       ~ In (Report s)
            (trace (fst (startup malformedUrlEnv (withConfig bareIPv6Config)))).
Proof.
  split; [reflexivity|]. split; [reflexivity|]. split; [reflexivity|].
  intros s. vm_compute. intuition discriminate.
Qed.
(* ---------------------------------------------------------------------- *)
(** ** Retry, for every choice of its parameters *)

Section RetryOutcome.
Import ProcessUtils.
Context {V E : Type}.
Variable fn : nat -> Outcome V E.
Variables maxAttempts baseDelay maxDelay : Z.

(** What one run of the loop comes to, from any iteration on. *)
Lemma retryLoop_outcome : forall fuel attempt lastError ncalls waited,
  attempt + Z.of_nat fuel = maxAttempts + 1 ->
  let run := retryLoop fn maxAttempts baseDelay maxDelay
                       fuel attempt lastError ncalls waited in
  match settled run with
  | Resolved v =>
      exists n, (n < fuel)%nat
        /\ calls run = S (ncalls + n)
        /\ fn (ncalls + n)%nat = Returns v
        /\ (forall i, (i < n)%nat -> exists e, fn (ncalls + i)%nat = Throws e)
        /\ delays run = waited ++ delaysFrom baseDelay maxDelay attempt n
  | Rejected e =>
      calls run = (ncalls + fuel)%nat
      /\ (forall i, (i < fuel)%nat -> exists e', fn (ncalls + i)%nat = Throws e')
      /\ delays run = waited ++ delaysFrom baseDelay maxDelay attempt (Nat.pred fuel)
      /\ match fuel with
         | O => e = lastError
         | S k => exists e', fn (ncalls + k)%nat = Throws e' /\ e = Some e'
         end
  end.
Proof.
  induction fuel as [|fuel IH]; intros attempt lastError ncalls waited Hatt.
  - simpl. rewrite Nat.add_0_r, app_nil_r. repeat split. intros i Hi. lia.
  - cbn [retryLoop]. destruct (fn ncalls) as [v|e0] eqn:Hfn.
    + simpl. exists O. rewrite Nat.add_0_r, app_nil_r.
      repeat split; [lia | exact Hfn | intros i Hi; lia].
    + cbv zeta.
      assert (Hw : (if attempt <? maxAttempts
                    then waited ++ [backoffDelay baseDelay maxDelay attempt]
                    else waited)
                   = waited ++ delaysFrom baseDelay maxDelay attempt
                                 (match fuel with O => 0 | S _ => 1 end)%nat).
      { destruct fuel as [|fuel'].
        - assert (H : (attempt <? maxAttempts) = false) by (apply Z.ltb_ge; lia).
          rewrite H. simpl. now rewrite app_nil_r.
        - assert (H : (attempt <? maxAttempts) = true) by (apply Z.ltb_lt; lia).
          rewrite H. reflexivity. }
      rewrite Hw.
      specialize (IH (attempt + 1) (Some e0) (S ncalls)
                     (waited ++ delaysFrom baseDelay maxDelay attempt
                                  (match fuel with O => 0 | S _ => 1 end)%nat)
                     ltac:(lia)).
      cbv zeta in IH.
      destruct (settled (retryLoop fn maxAttempts baseDelay maxDelay fuel
                           (attempt + 1) (Some e0) (S ncalls) _)) as [v|e].
      * destruct IH as (n & Hn & Hc & Hret & Hthrow & Hd).
        exists (S n). split; [lia|]. split; [rewrite Hc; f_equal; lia|].
        split; [rewrite <- Hret; f_equal; lia|].
        split.
        -- intros i Hi. destruct i as [|i].
           ++ exists e0. now rewrite Nat.add_0_r.
           ++ destruct (Hthrow i ltac:(lia)) as [e' He'].
              exists e'. rewrite <- He'. f_equal. lia.
        -- rewrite Hd. destruct fuel as [|fuel']; [lia|].
           rewrite <- app_assoc. reflexivity.
      * destruct IH as (Hc & Hthrow & Hd & Hlast).
        split; [rewrite Hc; lia|]. split.
        -- intros i Hi. destruct i as [|i].
           ++ exists e0. now rewrite Nat.add_0_r.
           ++ destruct (Hthrow i ltac:(lia)) as [e' He'].
              exists e'. rewrite <- He'. f_equal. lia.
        -- split.
           ++ rewrite Hd. destruct fuel as [|fuel']; simpl.
              ** now rewrite !app_nil_r.
              ** rewrite <- app_assoc. reflexivity.
           ++ destruct fuel as [|fuel'].
              ** exists e0. rewrite Nat.add_0_r. split; [exact Hfn|exact Hlast].
              ** destruct Hlast as (e' & He' & ->). exists e'.
                 split; [|reflexivity]. rewrite <- He'. f_equal. lia.
Qed.

Lemma delaysFrom_bounded a n :
  Forall (fun d => d <= maxDelay) (delaysFrom baseDelay maxDelay a n).
Proof.
  revert a. induction n as [|n IH]; intros a; simpl; constructor; [|apply IH].
  unfold backoffDelay. lia.
Qed.

Lemma delaysFrom_total a n :
  fold_right Z.add 0 (delaysFrom baseDelay maxDelay a n) <= Z.of_nat n * maxDelay.
Proof.
  revert a. induction n as [|n IH]; intros a; [simpl; lia|].
  cbn [delaysFrom fold_right]. specialize (IH (a + 1)).
  unfold backoffDelay. lia.
Qed.

Lemma backoffDelay_monotone a b :
  0 <= baseDelay -> 1 <= a -> a <= b ->
  backoffDelay baseDelay maxDelay a <= backoffDelay baseDelay maxDelay b.
Proof.
  intros Hb Ha Hab. unfold backoffDelay.
  assert (2 ^ (a - 1) <= 2 ^ (b - 1)) by (apply Z.pow_le_mono_r; lia).
  assert (baseDelay * 2 ^ (a - 1) <= baseDelay * 2 ^ (b - 1))
    by (apply Z.mul_le_mono_nonneg_l; lia).
  lia.
Qed.

Lemma delaysFrom_sorted a n :
  0 <= baseDelay -> 1 <= a ->
  StronglySorted Z.le (delaysFrom baseDelay maxDelay a n).
Proof.
  intros Hb. revert a. induction n as [|n IH]; intros a Ha; simpl; constructor.
  - apply IH. lia.
  - apply Forall_forall. intros d Hd.
    apply In_nth_error in Hd. destruct Hd as [k Hk].
    assert (Hd : d = backoffDelay baseDelay maxDelay (a + 1 + Z.of_nat k)).
    { clear -Hk. revert a k Hk. induction n as [|n IHn]; intros a k; simpl.
      - destruct k; discriminate.
      - destruct k as [|k]; simpl.
        + intros [= <-]. f_equal. lia.
        + intros H. apply IHn in H. subst d. f_equal. lia. }
    subst d. apply backoffDelay_monotone; lia.
Qed.
End RetryOutcome.

(** X1. For every operation and every choice of [maxAttempts], [baseDelay]
    and [maxDelay]: the operation is invoked at most [maxAttempts] times;
    the run resolves with the first value the operation returns, after
    only failures; it rejects once [maxAttempts] invocations have all
    thrown, with the error of the last one; with [maxAttempts <= 0] the
    operation is never invoked and the run rejects with [undefined]; and
    the delays waited are exactly the backoff schedule between
    consecutive invocations, none following the last. *)
Theorem retryWithBackoff_outcome {V E : Type}
        (fn : nat -> ProcessUtils.Outcome V E)
        (maxAttempts baseDelay maxDelay : Z) :
  let run := ProcessUtils.retryWithBackoff fn maxAttempts baseDelay maxDelay in
  Z.of_nat (ProcessUtils.calls run) <= Z.max maxAttempts 0
  /\ ProcessUtils.delays run =
       ProcessUtils.delaysFrom baseDelay maxDelay 1
         (Nat.pred (ProcessUtils.calls run))
  /\ (forall v,
        ProcessUtils.settled run = Resolved v ->
        exists n,
          ProcessUtils.calls run = S n
          /\ fn n = ProcessUtils.Returns v
          /\ forall i, (i < n)%nat -> exists e, fn i = ProcessUtils.Throws e)
  /\ (forall e,
        ProcessUtils.settled run = Rejected e ->
        Z.of_nat (ProcessUtils.calls run) = Z.max maxAttempts 0
        /\ (forall i, (i < ProcessUtils.calls run)%nat ->
                      exists e', fn i = ProcessUtils.Throws e')
        /\ match ProcessUtils.calls run with
           | O => e = None
           | S k => exists e', fn k = ProcessUtils.Throws e' /\ e = Some e'
           end)
  /\ (maxAttempts <= 0 ->
      run = ProcessUtils.mkRetryRun (Rejected None) 0 []).
Proof.
  intros run.
  assert (Hnone : maxAttempts <= 0 ->
                  run = ProcessUtils.mkRetryRun (Rejected None) 0 []).
  { intros Hle. unfold run, ProcessUtils.retryWithBackoff.
    replace (Z.to_nat maxAttempts) with O by lia. reflexivity. }
  destruct (Z.le_gt_cases maxAttempts 0) as [Hle|Hpos].
  - rewrite (Hnone Hle). cbn.
    split; [lia|]. split; [reflexivity|]. split; [discriminate|].
    split; [|reflexivity].
    intros e [= <-]. split; [lia|]. split; [|reflexivity]. intros i Hi. lia.
  - pose proof (retryLoop_outcome fn maxAttempts baseDelay maxDelay
                  (Z.to_nat maxAttempts) 1 None O [] ltac:(lia)) as H.
    cbv zeta in H. fold (ProcessUtils.retryWithBackoff fn maxAttempts
                           baseDelay maxDelay) in H. fold run in H.
    destruct (ProcessUtils.settled run) as [v|e].
    + destruct H as (n & Hn & Hc & Hret & Hthrow & Hd).
      cbn [Nat.add app] in Hc, Hret, Hthrow, Hd.
      split; [rewrite Hc; lia|]. split; [rewrite Hc; exact Hd|].
      split; [|split; [discriminate | intros; lia]].
      intros v' [= <-]. exists n. auto.
    + destruct H as (Hc & Hthrow & Hd & Hlast).
      cbn [Nat.add app] in Hc, Hthrow, Hd, Hlast.
      split; [rewrite Hc; lia|]. split; [rewrite Hc; exact Hd|].
      split; [discriminate|]. split; [|intros; lia].
      intros e' [= <-]. split; [rewrite Hc; lia|]. split.
      * intros i Hi. apply Hthrow. rewrite <- Hc. exact Hi.
      * rewrite Hc. destruct (Z.to_nat maxAttempts) as [|k] eqn:Hk;
          [lia|exact Hlast].
Qed.

(** X2. Whatever the operation does, no delay exceeds [maxDelay], the
    waiting time of a run is at most [maxDelay] for each invocation but
    the first, and with a base delay that is not negative the delays never
    decrease from one attempt to the next. *)
Theorem retryWithBackoff_delays_bounded {V E : Type}
        (fn : nat -> ProcessUtils.Outcome V E)
        (maxAttempts baseDelay maxDelay : Z) :
  let run := ProcessUtils.retryWithBackoff fn maxAttempts baseDelay maxDelay in
  Forall (fun d => d <= maxDelay) (ProcessUtils.delays run)
  /\ ProcessUtils.totalDelay run
     <= Z.of_nat (Nat.pred (ProcessUtils.calls run)) * maxDelay
  /\ (0 <= baseDelay -> StronglySorted Z.le (ProcessUtils.delays run)).
Proof.
  intros run.
  assert (Hd : ProcessUtils.delays run =
               ProcessUtils.delaysFrom baseDelay maxDelay 1
                 (Nat.pred (ProcessUtils.calls run))).
  { destruct (Z.le_gt_cases maxAttempts 0) as [Hle|Hpos].
    - unfold run, ProcessUtils.retryWithBackoff.
      replace (Z.to_nat maxAttempts) with O by lia. reflexivity.
    - pose proof (retryLoop_outcome fn maxAttempts baseDelay maxDelay
                    (Z.to_nat maxAttempts) 1 None O [] ltac:(lia)) as H.
      cbv zeta in H. fold (ProcessUtils.retryWithBackoff fn maxAttempts
                             baseDelay maxDelay) in H. fold run in H.
      destruct (ProcessUtils.settled run) as [v|e].
      + destruct H as (n & _ & Hc & _ & _ & Hd). rewrite Hc. exact Hd.
      + destruct H as (Hc & _ & Hd & _). rewrite Hc. exact Hd. }
  unfold ProcessUtils.totalDelay. rewrite Hd.
  split; [apply delaysFrom_bounded|].
  split; [apply delaysFrom_total|].
  intros Hb. apply delaysFrom_sorted; lia.
Qed.

Lemma retryWithBackoff_delays_bounded_witness :
  StronglySorted Z.le
    (ProcessUtils.delays
       (ProcessUtils.retryWithBackoff ProcessUtils.failsThreeTimes 10 100 2000)).
Proof.
  apply (proj2 (proj2 (retryWithBackoff_delays_bounded
                         ProcessUtils.failsThreeTimes 10 100 2000))).
  lia.
Defined.

Lemma retryWithBackoff_outcome_witness :
  ProcessUtils.retryWithBackoff ProcessUtils.failsThreeTimes (-1) 100 2000
  = ProcessUtils.mkRetryRun (Rejected None) 0 [].
Proof.
  apply (proj2 (proj2 (proj2 (proj2
           (retryWithBackoff_outcome ProcessUtils.failsThreeTimes (-1) 100 2000))))).
  lia.
Defined.

(* ---------------------------------------------------------------------- *)
(** ** The signals of [spawnWithTimeout] *)

Section SignalFacts.
Import ProcessUtils.

Lemma onChildEvent_signalled w ev : signalled w -> signalled (onChildEvent w ev).
Proof.
  unfold signalled.
  intros [(Hs & Hk & Hg)|(Hs & Hk & Ht)]; destruct ev; simpl;
    rewrite ?Hs, ?Hk, ?Hg, ?Ht; simpl; auto;
    repeat match goal with
           | |- context [if ?b then _ else _] => destruct b eqn:?; simpl
           end; rewrite ?Hs; auto.
Qed.

Lemma watched_signalled events w :
  signalled w -> signalled (fold_left onChildEvent events w).
Proof.
  revert w. induction events as [|ev events IH]; intros w Hw; simpl; auto.
  apply IH, onChildEvent_signalled, Hw.
Qed.

(** Once the timeout is cleared and no signal was sent, none will be. *)
Lemma cleared_stays_silent events : forall w,
  timeoutArmed w = false -> graceArmed w = false -> signals w = [] ->
  signals (fold_left onChildEvent events w) = [].
Proof.
  induction events as [|ev events IH]; intros w Ht Hg Hs; simpl; auto.
  apply IH; destruct ev; simpl; rewrite ?Ht, ?Hg; auto.
Qed.

Lemma quiet_without_timeout events : forall w,
  Forall (fun ev => ev <> TimeoutElapsed) events ->
  graceArmed w = false -> signals w = [] ->
  let w' := fold_left onChildEvent events w in
  graceArmed w' = false /\ signals w' = [].
Proof.
  induction events as [|ev events IH]; intros w Hall Hg Hs; simpl; auto.
  inversion Hall as [|? ? Hev Hrest]; subst.
  apply IH; auto; destruct ev; simpl; rewrite ?Hg; auto; congruence.
Qed.

Lemma untouched_before_timeout events : forall w,
  quiet events ->
  Forall (fun ev => ev <> TimeoutElapsed) events ->
  timeoutArmed w = true -> killed w = false -> graceArmed w = false ->
  signals w = [] ->
  let w' := fold_left onChildEvent events w in
  timeoutArmed w' = true /\ killed w' = false /\ signals w' = [].
Proof.
  unfold quiet.
  induction events as [|ev events IH]; intros w Hq Hall Ht Hk Hg Hs; simpl; auto.
  simpl in Hq. apply andb_true_iff in Hq. destruct Hq as [Hev Hq].
  inversion Hall as [|? ? Hne Hrest]; subst.
  apply IH; auto; destruct ev; simpl in *; rewrite ?Hg; auto; congruence.
Qed.

Lemma terminated_stays events : forall w,
  signals w = ["SIGTERM"] -> killed w = true -> timeoutArmed w = false ->
  signals (fold_left onChildEvent events w) = ["SIGTERM"].
Proof.
  induction events as [|ev events IH]; intros w Hs Hk Ht; simpl; auto.
  apply IH; destruct ev; simpl; rewrite ?Hk, ?Ht; auto;
    destruct (graceArmed w); auto.
Qed.
End SignalFacts.

(** X3. Whatever the child and the timers do, [spawnWithTimeout] sends at
    most one signal, SIGTERM: sending it marks the child as killed, so
    that the timer set for SIGKILL a second later finds nothing to do.
    SIGTERM is sent when the timeout is the first to happen, and no signal
    at all when the child has closed or failed before. *)
Theorem spawnWithTimeout_sends_one_signal
        (events : list ProcessUtils.ChildEvent) :
  let w := ProcessUtils.watched events in
  (ProcessUtils.signals w = [] \/ ProcessUtils.signals w = ["SIGTERM"])
  /\ ~ In "SIGKILL" (ProcessUtils.signals w)
  /\ (forall before ev later,
        events = before ++ ev :: later ->
        ProcessUtils.settles ev = true ->
        Forall (fun e => e <> ProcessUtils.TimeoutElapsed) before ->
        ProcessUtils.signals w = [])
  /\ (forall before later,
        events = before ++ ProcessUtils.TimeoutElapsed :: later ->
        ProcessUtils.quiet before ->
        Forall (fun e => e <> ProcessUtils.TimeoutElapsed) before ->
        ProcessUtils.signals w = ["SIGTERM"]).
Proof.
  intros w.
  assert (Hinv : ProcessUtils.signalled w).
  { apply watched_signalled. left. repeat split. }
  assert (Hone : ProcessUtils.signals w = []
                 \/ ProcessUtils.signals w = ["SIGTERM"])
    by (destruct Hinv as [(H & _)|(H & _)]; auto).
  split; [exact Hone|]. split.
  { destruct Hone as [->| ->]; simpl; intuition discriminate. }
  split.
  - intros before ev later -> Hev Hbefore.
    unfold w, ProcessUtils.watched. rewrite fold_left_app. simpl.
    destruct (quiet_without_timeout before ProcessUtils.watching Hbefore
                eq_refl eq_refl) as (Hg & Hs).
    apply cleared_stays_silent; destruct ev; try discriminate; simpl; auto.
  - intros before later -> Hq Hbefore.
    unfold w, ProcessUtils.watched. rewrite fold_left_app. simpl.
    destruct (untouched_before_timeout before ProcessUtils.watching Hq Hbefore
                eq_refl eq_refl eq_refl eq_refl) as (Ht & Hk & Hs).
    rewrite Ht, Hk.
    apply terminated_stays; simpl; [now rewrite Hs | reflexivity | reflexivity].
Qed.

Lemma spawnWithTimeout_sends_one_signal_witness :
  ProcessUtils.signals
    (ProcessUtils.watched
       ([ProcessUtils.StdoutData "checking"]
          ++ ProcessUtils.TimeoutElapsed
          :: [ProcessUtils.GraceElapsed; ProcessUtils.Close None]))
  = ["SIGTERM"].
Proof.
  apply (proj2 (proj2 (proj2 (spawnWithTimeout_sends_one_signal
           ([ProcessUtils.StdoutData "checking"]
              ++ ProcessUtils.TimeoutElapsed
              :: [ProcessUtils.GraceElapsed; ProcessUtils.Close None]))))
           [ProcessUtils.StdoutData "checking"]
           [ProcessUtils.GraceElapsed; ProcessUtils.Close None]).
  - reflexivity.
  - reflexivity.
  - repeat constructor; discriminate.
Defined.

(* ---------------------------------------------------------------------- *)
(** ** Loading the configuration *)

Section LoadFacts.
Import ConfigLoader Server.
Open Scope string_scope.

Lemma parseDigits_not_negative digits : forall acc,
  0 <= acc -> 0 <= parseDigits acc digits.
Proof.
  induction digits as [|c digits IH]; intros acc Hacc; cbn [parseDigits];
    [exact Hacc|].
  apply IH. lia.
Qed.

Lemma orElse_parseInt_not_negative (found : option string) (d : Z) :
  0 <= d -> 0 <= orElse (option_map parseInt found) d.
Proof.
  intros Hd. destruct found as [digits|]; simpl; [|exact Hd].
  apply parseDigits_not_negative. lia.
Qed.

Lemma inSection_keeps {S : Type} (P : S -> Prop) name fields content s :
  (forall body s', P s' -> P (fields body s')) ->
  P s -> P (inSection name fields content s).
Proof.
  intros Hf Hs. unfold inSection.
  destruct (simpleMatch _ content); auto.
Qed.

(** A match found where the text starts. *)
Lemma search_here p s segs rest :
  matchSeq (atoms p) s = Some (segs, rest) ->
  search p s = Some (mkMatch "" (concatStr segs) (captures p segs) rest).
Proof. intros H. destruct s; simpl; rewrite H; reflexivity. Qed.

Lemma stripPrefix_within k : forall a b r,
  stripPrefix k (a ++ b) = Some r ->
  (String.length k <= String.length a)%nat ->
  String.prefix k a = true.
Proof.
  induction k as [|c k IH]; intros a b r; simpl.
  - destruct a; reflexivity.
  - destruct a as [|d a]; simpl; [intros _ H; lia|].
    destruct (Ascii.eqb_spec c d) as [->|Hne].
    + intros H Hlen. destruct (ascii_dec d d) as [_|Hd]; [|congruence].
      apply (IH a b r H). lia.
    + discriminate.
Qed.

Lemma length_append_r (a b : string) :
  (String.length b <= String.length (a ++ b))%nat.
Proof. induction a; simpl; lia. Qed.

(** A pattern that starts with a literal cannot match before the first
    occurrence of that literal. *)
Lemma firstOccurrence_search key rest g pre tail segs post :
  firstOccurrence key pre = true ->
  matchSeq (Lit key :: rest) (key ++ tail) = Some (segs, post) ->
  search (mkPattern (Lit key :: rest) g) (pre ++ key ++ tail)
  = Some (mkMatch pre (concatStr segs)
                  (captures (mkPattern (Lit key :: rest) g) segs) post).
Proof.
  intros Hfirst Hm. induction pre as [|c pre IH].
  - apply search_here. exact Hm.
  - cbn [firstOccurrence] in Hfirst.
    apply andb_true_iff in Hfirst. destruct Hfirst as [Hc Hfirst].
    apply negb_true_iff in Hc.
    change ((String c pre ++ key ++ tail)) with (String c (pre ++ key ++ tail)).
    cbn [search atoms matchSeq matchAtom].
    destruct (stripPrefix key (String c (pre ++ key ++ tail))) as [r|] eqn:Hs.
    + exfalso.
      change (String c (pre ++ key ++ tail))
        with (String c pre ++ key ++ tail) in Hs.
      rewrite <- append_assoc in Hs.
      apply stripPrefix_within in Hs; [congruence|].
      apply length_append_r.
    + cbn [option_map]. rewrite (IH Hfirst). reflexivity.
Qed.

Lemma firstOccurrence_firstMatchAt p key rest pre tail segs post :
  atoms p = Lit key :: rest ->
  firstOccurrence key pre = true ->
  matchSeq (Lit key :: rest) (key ++ tail) = Some (segs, post) ->
  firstMatchAt p pre (key ++ tail).
Proof.
  intros Hp Hfirst Hm.
  apply (firstMatchAt_atoms (mkPattern (Lit key :: rest) []) p);
    [symmetry; exact Hp|].
  unfold firstMatchAt.
  now rewrite (firstOccurrence_search key rest [] pre tail segs post Hfirst Hm).
Qed.

Lemma match_quoted_assignment key ws1 ws2 v post :
  allSpace ws1 = true -> allSpace ws2 = true -> noQuote v = true ->
  matchSeq [Lit key; Spaces; Lit "="; Spaces;
            Lit dquote; Star (isNot "034"); Lit dquote]
           (key ++ ws1 ++ "=" ++ ws2 ++ quoted v ++ post)
  = Some ([key; ws1; "="; ws2; dquote; v; dquote]%list, post).
Proof.
  intros H1 H2 Hv.
  apply (matchSeq_app [Lit key; Spaces; Lit "="; Spaces]
                      [Lit dquote; Star (isNot "034"); Lit dquote]
                      _ [key; ws1; "="; ws2]%list (quoted v ++ post)).
  - now apply match_assignment.
  - now apply match_quoted.
Qed.

(** Reading the first quoted value of a key. *)
Lemma simpleMatch_first_value key pre ws1 ws2 v post :
  firstOccurrence key pre = true ->
  allSpace ws1 = true -> allSpace ws2 = true -> noQuote v = true ->
  simpleMatch (stringValuePattern key)
              (pre ++ key ++ ws1 ++ "=" ++ ws2 ++ quoted v ++ post)
  = Some v.
Proof.
  intros Hfirst H1 H2 Hv. unfold simpleMatch, stringValuePattern.
  rewrite (firstOccurrence_search key _ _ pre _ _ post Hfirst
             (match_quoted_assignment key ws1 ws2 v post H1 H2 Hv)).
  cbn. now rewrite append_nil_r.
Qed.

Lemma firstOccurrence_credential key pre ws1 ws2 v post :
  firstOccurrence key pre = true ->
  allSpace ws1 = true -> allSpace ws2 = true -> noQuote v = true ->
  firstMatchAt (credentialPattern key) pre
               (key ++ ws1 ++ "=" ++ ws2 ++ quoted v ++ post).
Proof.
  intros Hfirst H1 H2 Hv.
  apply (firstOccurrence_firstMatchAt (credentialPattern key) key
           [Spaces; Lit "="; Spaces;
            Lit dquote; Star (isNot "034"); Lit dquote]%list
           pre (ws1 ++ "=" ++ ws2 ++ quoted v ++ post)
           [key; ws1; "="; ws2; dquote; v; dquote]%list post);
    [reflexivity | exact Hfirst | now apply match_quoted_assignment].
Qed.

Lemma ifTruthy_orElse v :
  orElse (ifTruthy (Some v)) "" = v.
Proof.
  unfold ifTruthy, truthy.
  destruct (String.eqb_spec v ""); simpl; congruence.
Qed.
End LoadFacts.

(** X4. Without a [config.lua] that can be read, [load] logs a line and
    returns the defaults with no text; from then on both updates refuse
    ("config file not loaded") and change nothing, so that credentials
    [createSuperuser] generates are shown with a warning but not saved,
    and the next start finds none again. *)
Theorem load_without_file_falls_back
        (resourcePath : string) (file : ConfigLoader.FileRead) :
  (file = ConfigLoader.NoFile
   \/ exists message, file = ConfigLoader.ReadThrows message) ->
  let l := fst (ConfigLoader.load resourcePath file None) in
  ConfigLoader.config l = ConfigLoader.defaultConfig
  /\ snd (ConfigLoader.load resourcePath file None) <> None
  /\ (forall email password writable,
        ConfigLoader.updateSuperuserCredentials email password writable l
        = (l, false))
  /\ (forall updates writable,
        ConfigLoader.updateAdvancedSettings updates writable l = (l, false))
  /\ (forall env pbPath publicIP w,
        Server.loader w = l ->
        snd (Server.createSuperuser env pbPath publicIP w) = Fulfilled true ->
        let w' := fst (Server.createSuperuser env pbPath publicIP w) in
        Server.loader w' = l
        /\ In "Failed to save credentials to config.lua"
              (Server.warnings (Server.startupStatus w'))
        /\ Server.superuserPassword (Server.startupStatus w')
           = Server.randomPassword env).
Proof.
  intros Hfile l.
  assert (Hl : l = mkLoader defaultConfig EmptyString
                            (resourcePath ++ "/" ++ "config.lua") EmptyString).
  { unfold l. destruct Hfile as [->|(message & ->)]; reflexivity. }
  split; [rewrite Hl; reflexivity|].
  split; [destruct Hfile as [->|(message & ->)]; discriminate|].
  split; [intros; rewrite Hl; reflexivity|].
  split; [intros; rewrite Hl; reflexivity|].
  intros env pbPath publicIP w Hw.
  unfold createSuperuser, cfg. rewrite Hw, Hl.
  cbn [config hasConfigCredentials defaultConfig Superuser Email Password
       truthy String.eqb negb andb].
  unfold bind, exec, await, ret.
  destruct (spawnWithTimeout _ _ _ _ _) as [|result|reason]; cbn;
    try discriminate.
  destruct (_ || _); cbn; try discriminate.
  intros _. unfold updateSuperuserCredentials. rewrite Hw, Hl. cbn.
  split; [reflexivity|]. split; [|reflexivity].
  apply in_or_app. right. now left.
Qed.

Lemma load_without_file_falls_back_witness :
  ConfigLoader.config (fst (ConfigLoader.load "/srv/pb" ConfigLoader.NoFile None))
  = ConfigLoader.defaultConfig.
Proof.
  apply (load_without_file_falls_back "/srv/pb" ConfigLoader.NoFile).
  left. reflexivity.
Defined.

(** X5. Whatever [config.lua] contains, the numbers [load] returns are not
    negative: a number is read as a run of digits, and a minus sign is not
    part of it.  So the two checks of the validation for a negative
    [Backup.KeepLast] or [Backup.Schedule] never fire on a configuration
    that was loaded. *)
Theorem load_numbers_are_not_negative
        (resourcePath : string) (file : ConfigLoader.FileRead) :
  let c := ConfigLoader.config (fst (ConfigLoader.load resourcePath file None)) in
  0 <= ConfigLoader.Port c
  /\ 0 <= ConfigLoader.Schedule (ConfigLoader.Backup c)
  /\ 0 <= ConfigLoader.KeepLast (ConfigLoader.Backup c)
  /\ 0 <= ConfigLoader.SMTP_Port (ConfigLoader.SMTP (ConfigLoader.Advanced c))
  /\ ~ In "Backup.KeepLast must be >= 0" (Server.validationErrors c)
  /\ ~ In "Backup.Schedule must be >= 0" (Server.validationErrors c).
Proof.
  intros c.
  assert (Hnum : 0 <= Port c /\ 0 <= Schedule (Backup c)
                 /\ 0 <= KeepLast (Backup c)
                 /\ 0 <= SMTP_Port (SMTP (Advanced c))).
  { unfold c. destruct file as [|text|message]; cbn [load fst config];
      try (cbn; lia).
    cbn [parseConfig Port Backup Advanced SMTP].
    split; [apply orElse_parseInt_not_negative; cbn; lia|].
    split.
    { apply (inSection_keeps (fun b => 0 <= Schedule b)); [|cbn; lia].
      intros body b Hb. cbn [parseBackup Schedule].
      now apply orElse_parseInt_not_negative. }
    split.
    { apply (inSection_keeps (fun b => 0 <= KeepLast b)); [|cbn; lia].
      intros body b Hb. cbn [parseBackup KeepLast].
      now apply orElse_parseInt_not_negative. }
    apply (inSection_keeps (fun s => 0 <= SMTP_Port s)); [|cbn; lia].
    intros body s Hs. cbn [parseSMTP SMTP_Port].
    now apply orElse_parseInt_not_negative. }
  destruct Hnum as (Hport & Hschedule & Hkeep & Hsmtp).
  repeat split; try assumption.
  - unfold validationErrors. rewrite !in_app_iff.
    assert (Hk : (KeepLast (Backup c) <? 0) = false) by (apply Z.ltb_ge; lia).
    assert (Hs : (Schedule (Backup c) <? 0) = false) by (apply Z.ltb_ge; lia).
    rewrite Hk, Hs.
    repeat match goal with
           | |- context [if ?b then _ else _] => destruct b
           end; simpl; intuition discriminate.
  - unfold validationErrors. rewrite !in_app_iff.
    assert (Hk : (KeepLast (Backup c) <? 0) = false) by (apply Z.ltb_ge; lia).
    assert (Hs : (Schedule (Backup c) <? 0) = false) by (apply Z.ltb_ge; lia).
    rewrite Hk, Hs.
    repeat match goal with
           | |- context [if ?b then _ else _] => destruct b
           end; simpl; intuition discriminate.
Qed.

(** X6. [load] never reads the two directories: whatever [config.lua]
    says about [DataDir] and [PublicDir], the configuration has the
    defaults, and these are the directories the server is started on. *)
Theorem load_never_reads_the_directories
        (resourcePath : string) (file : ConfigLoader.FileRead)
        (bindAddress : string) :
  let c := ConfigLoader.config (fst (ConfigLoader.load resourcePath file None)) in
  ConfigLoader.DataDir (ConfigLoader.Advanced c) = "pb_data"
  /\ ConfigLoader.PublicDir (ConfigLoader.Advanced c) = "pb_public"
  /\ In "--dir=pb_data" (Server.serveArgs c bindAddress)
  /\ In "--publicDir=pb_public" (Server.serveArgs c bindAddress).
Proof.
  intros c.
  assert (Hd : DataDir (Advanced c) = "pb_data"
               /\ PublicDir (Advanced c) = "pb_public")
    by (unfold c; destruct file; split; reflexivity).
  destruct Hd as [Hdata Hpublic].
  split; [exact Hdata|]. split; [exact Hpublic|].
  unfold serveArgs. rewrite Hdata, Hpublic. simpl. tauto.
Qed.

(** X7. Credentials that were saved are read back.  In a document whose
    first [Email] is the text [Email = "..."], followed later by its first
    [Password], as [Password = "..."], saving credentials without quote
    and dollar sign succeeds, and what [load] then reads from the file is
    these credentials, which are also the cached ones. *)
Theorem saved_credentials_are_read_back
        (email password pre wsE1 wsE2 oldE mid wsP1 wsP2 oldP post : string)
        (resourcePath : string) (l : ConfigLoader.Loader) :
  ConfigLoader.configContent l =
    (pre ++ "Email" ++ wsE1 ++ "=" ++ wsE2 ++ ConfigLoader.quoted oldE ++ mid
       ++ "Password" ++ wsP1 ++ "=" ++ wsP2 ++ ConfigLoader.quoted oldP
       ++ post)%string ->
  ConfigLoader.firstOccurrence "Email" pre = true ->
  ConfigLoader.firstOccurrence "Password"
    (pre ++ "Email" ++ wsE1 ++ "=" ++ wsE2 ++ ConfigLoader.quoted email ++ mid)
  = true ->
  ConfigLoader.allSpace wsE1 = true -> ConfigLoader.allSpace wsE2 = true ->
  ConfigLoader.allSpace wsP1 = true -> ConfigLoader.allSpace wsP2 = true ->
  ConfigLoader.noQuote oldE = true -> ConfigLoader.noQuote oldP = true ->
  ConfigLoader.noQuote email = true -> ConfigLoader.noQuote password = true ->
  ConfigLoader.noDollar email = true -> ConfigLoader.noDollar password = true ->
  let saved := ConfigLoader.updateSuperuserCredentials email password true l in
  let reloaded :=
    fst (ConfigLoader.load resourcePath
           (ConfigLoader.FileContent (ConfigLoader.persisted (fst saved))) None) in
  snd saved = true
  /\ ConfigLoader.Superuser (ConfigLoader.config reloaded)
     = ConfigLoader.mkSuperuser email password
  /\ ConfigLoader.Superuser (ConfigLoader.config (fst saved))
     = ConfigLoader.mkSuperuser email password.
Proof.
  intros Hcontent HfE HfP HE1 HE2 HP1 HP2 HoE HoP HnE HnP HdE HdP saved reloaded.
  assert (Hwritten :
    rewriteCredentials email password (configContent l)
    = (pre ++ "Email" ++ wsE1 ++ "=" ++ wsE2 ++ quoted email ++ mid
         ++ "Password" ++ wsP1 ++ "=" ++ wsP2 ++ quoted password ++ post)%string).
  { rewrite Hcontent. unfold rewriteCredentials.
    rewrite (credential_rewrites "Email" email pre wsE1 wsE2 oldE _);
      try assumption.
    - pose proof (credential_rewrites "Password" password
                    (pre ++ "Email" ++ wsE1 ++ "=" ++ wsE2 ++ quoted email ++ mid)
                    wsP1 wsP2 oldP post) as H.
      rewrite !append_assoc in H. apply H; try assumption.
      now apply firstOccurrence_credential.
    - now apply firstOccurrence_credential. }
  assert (Htruthy : truthy (configContent l) = true).
  { rewrite Hcontent. apply truthy_true.
    destruct pre; discriminate. }
  assert (Hsaved :
    saved =
      (mkLoader (setCredentials email password (config l))
                (pre ++ "Email" ++ wsE1 ++ "=" ++ wsE2 ++ quoted email ++ mid
                   ++ "Password" ++ wsP1 ++ "=" ++ wsP2 ++ quoted password
                   ++ post)
                (configPath l)
                (pre ++ "Email" ++ wsE1 ++ "=" ++ wsE2 ++ quoted email ++ mid
                   ++ "Password" ++ wsP1 ++ "=" ++ wsP2 ++ quoted password
                   ++ post),
       true)).
  { unfold saved, updateSuperuserCredentials.
    rewrite Htruthy. cbn [negb]. cbv zeta. now rewrite Hwritten. }
  unfold reloaded. rewrite Hsaved.
  split; [reflexivity|]. split; [|reflexivity].
  cbn [persisted load fst snd config parseConfig Superuser
       defaultConfig Email Password].
  rewrite (simpleMatch_first_value "Email" pre wsE1 wsE2 email _ HfE HE1 HE2 HnE).
  pose proof (simpleMatch_first_value "Password"
                (pre ++ "Email" ++ wsE1 ++ "=" ++ wsE2 ++ quoted email ++ mid)
                wsP1 wsP2 password post HfP HP1 HP2 HnP) as Hpw.
  rewrite !append_assoc in Hpw. rewrite Hpw.
  now rewrite !ifTruthy_orElse.
Qed.

Lemma saved_credentials_are_read_back_witness :
  ConfigLoader.Superuser
    (ConfigLoader.config
       (fst (ConfigLoader.load "/srv/pb"
               (ConfigLoader.FileContent
                  (ConfigLoader.persisted
                     (fst (ConfigLoader.updateSuperuserCredentials
                             "admin@localhost.local" "qOl9dbdZHF54ixFfM9th" true
                             (ConfigLoader.mkLoader ConfigLoader.defaultConfig
                                (ConfigLoader.document "" "" "smtp.gmail.com" "")
                                "/srv/pb/config.lua"
                                (ConfigLoader.document "" "" "smtp.gmail.com" ""))))))
               None)))
  = ConfigLoader.mkSuperuser "admin@localhost.local" "qOl9dbdZHF54ixFfM9th".
Proof.
  apply (saved_credentials_are_read_back
           "admin@localhost.local" "qOl9dbdZHF54ixFfM9th"
           documentHead " " " " "" documentMiddle " " " " ""
           (documentSettings
              ++ "SMTP" ++ " " ++ "=" ++ " " ++ "{"
              ++ smtpBody "smtp.gmail.com" "" ++ "}" ++ documentTail)%string
           "/srv/pb"
           (ConfigLoader.mkLoader ConfigLoader.defaultConfig
              (ConfigLoader.document "" "" "smtp.gmail.com" "")
              "/srv/pb/config.lua"
              (ConfigLoader.document "" "" "smtp.gmail.com" "")));
    vm_compute; reflexivity.
Defined.

(** The shipped [config.lua], as [load] reads it. *)
Example load_example :
  ConfigLoader.config
    (fst (ConfigLoader.load "/srv/pb"
            (ConfigLoader.FileContent
               (ConfigLoader.document "" "" "smtp.gmail.com" "")) None))
  = mkConfig true "localhost" 8090 false
             (mkSuperuser "" "")
             (mkMigrations true "pb_migrations")
             (mkBackup false true 0 7 "auto_")
             (mkAdvanced false true "pb_public" "pb_data"
                (mkSMTP false "smtp.gmail.com" 587 "" "" "" true)
                (mkS3 false "" "" "" "" "" false)).
Proof. vm_compute. reflexivity. Qed.

(* ---------------------------------------------------------------------- *)
(** ** The public URL *)

Section UrlFacts.
Import ConfigLoader Server.
Open Scope string_scope.

Lemma prefix_append p b : String.prefix p (p ++ b) = true.
Proof.
  induction p as [|c p IH]; simpl; [destruct b; reflexivity|].
  destruct (ascii_dec c c); [exact IH|congruence].
Qed.

Lemma prefix_weaken p : forall a b,
  String.prefix p a = true -> String.prefix p (a ++ b) = true.
Proof.
  induction p as [|c p IH]; intros a b; simpl.
  - intros _. destruct (a ++ b); reflexivity.
  - destruct a as [|d a]; simpl; [discriminate|].
    destruct (ascii_dec c d); [apply IH|discriminate].
Qed.

Lemma includes_here p s : String.prefix p s = true -> includes p s = true.
Proof. intros H. destruct s; cbn [includes]; rewrite H; reflexivity. Qed.

Lemma includes_later p a : forall s,
  includes p s = true -> includes p (a ++ s) = true.
Proof.
  induction a as [|c a IH]; intros s Hs; simpl; [exact Hs|].
  rewrite (IH s Hs). apply orb_true_r.
Qed.

Lemma includes_middle p a b : includes p (a ++ p ++ b) = true.
Proof. apply includes_later, includes_here, prefix_append. Qed.

Lemma includes_weaken p : forall a b,
  includes p a = true -> includes p (a ++ b) = true.
Proof.
  induction a as [|c a IH]; intros b; cbn [includes].
  - intros H. rewrite orb_false_r in H.
    apply includes_here. exact (prefix_weaken p "" b H).
  - intros H. apply orb_true_iff in H. cbn [append includes].
    destruct H as [H|H].
    + change (String c (a ++ b)) with (String c a ++ b).
      now rewrite (prefix_weaken p (String c a) b H).
    + rewrite (IH b H). apply orb_true_r.
Qed.

Lemma includes_self p : includes p p = true.
Proof.
  apply includes_here. rewrite <- (append_nil_r p) at 2. apply prefix_append.
Qed.

(** A text that a sequence of atoms with a literal among them matches
    contains the literal. *)
Lemma matchSeq_includes l atoms2 : forall atoms1 s segs rest,
  matchSeq (atoms1 ++ Lit l :: atoms2)%list s = Some (segs, rest) ->
  includes l s = true.
Proof.
  induction atoms1 as [|a atoms1 IH]; intros s segs rest; cbn [app matchSeq].
  - unfold matchAtom.
    destruct (stripPrefix l s) as [r|] eqn:Hs; [|discriminate].
    intros _. apply stripPrefix_sound in Hs. subst s.
    apply includes_here, prefix_append.
  - destruct (matchAtom a s) as [[seg r]|] eqn:Ha; [|discriminate].
    destruct (matchSeq (atoms1 ++ Lit l :: atoms2)%list r) as [[segs' r']|] eqn:Hm;
      [|discriminate].
    intros _. apply matchAtom_sound in Ha. subst s.
    apply includes_later. eapply IH. exact Hm.
Qed.

Lemma startsWith_http rest : startsWith "http://" ("http://" ++ rest) = true.
Proof. apply (prefix_append "http://"). Qed.

Lemma startsWith_https rest : startsWith "https://" ("https://" ++ rest) = true.
Proof. apply (prefix_append "https://"). Qed.

Lemma withoutScheme_http rest : withoutScheme ("http://" ++ rest) = rest.
Proof. reflexivity. Qed.

Lemma withoutScheme_https rest : withoutScheme ("https://" ++ rest) = rest.
Proof. reflexivity. Qed.

Lemma prefix_stripPrefix p : forall s,
  String.prefix p s = true -> exists r, stripPrefix p s = Some r.
Proof.
  induction p as [|c p IH]; intros s; [simpl; eauto|].
  destruct s as [|d s]; simpl; [discriminate|].
  destruct (ascii_dec c d) as [->|]; [|discriminate].
  rewrite Ascii.eqb_refl. apply IH.
Qed.

(** A host that starts with a scheme is that scheme and the rest. *)
Lemma scheme_split hostParam :
  startsWith "http://" hostParam || startsWith "https://" hostParam = true ->
  hostParam = "http://" ++ withoutScheme hostParam
  \/ hostParam = "https://" ++ withoutScheme hostParam.
Proof.
  unfold startsWith, withoutScheme. intros H.
  destruct (stripPrefix "http://" hostParam) as [r|] eqn:H1.
  - left. now apply stripPrefix_sound.
  - apply orb_true_iff in H. destruct H as [H|H];
      apply prefix_stripPrefix in H; destruct H as [r H]; [congruence|].
    rewrite H. right. now apply stripPrefix_sound.
Qed.
End UrlFacts.

(** X8. [buildSmartUrl] answers [null] for the empty host only; any other
    host comes back with a scheme in front, [http://] or [https://], and
    is itself part of the URL. *)
Theorem buildSmartUrl_gives_a_scheme (hostParam : string) (port : Z) :
  (Server.buildSmartUrl hostParam port = None <-> hostParam = EmptyString)
  /\ (forall url,
        Server.buildSmartUrl hostParam port = Some url ->
        (startsWith "http://" url = true \/ startsWith "https://" url = true)
        /\ includes hostParam url = true).
Proof.
  unfold buildSmartUrl. split.
  - split.
    + intros H. destruct (truthy hostParam) eqn:Ht.
      * cbn [negb] in H.
        repeat match type of H with
               | (if ?b then _ else _) = _ => destruct b
               | (let _ := _ in _) = _ => cbv zeta in H
               end; discriminate.
      * unfold truthy in Ht. apply negb_false_iff in Ht.
        now apply String.eqb_eq.
    + intros ->. reflexivity.
  - intros url. destruct (truthy hostParam) eqn:Ht; cbn [negb]; [|discriminate].
    destruct (startsWith "http://" hostParam || startsWith "https://" hostParam)
      eqn:Hscheme.
    + assert (Hs : startsWith "http://" url = true \/ startsWith "https://" url = true
                   -> (startsWith "http://" url = true
                       \/ startsWith "https://" url = true)) by auto.
      apply orb_true_iff in Hscheme. cbv zeta.
      destruct (includes ":" (withoutScheme hostParam));
        [|destruct (test dottedQuad (withoutScheme hostParam))];
        intros [= <-]; split;
        try (apply includes_self);
        try (apply includes_weaken, includes_self);
        unfold startsWith in *;
        destruct Hscheme as [H|H]; auto using prefix_weaken.
    + destruct (isQuadWithPort hostParam).
      { intros [= <-]. split; [left; apply startsWith_http|].
        apply (includes_later hostParam "http://"), includes_self. }
      cbv zeta.
      destruct (looksLikeDomain hostParam && negb (test dottedQuad hostParam)).
      { intros [= <-]. split; [right; apply startsWith_https|].
        apply (includes_later hostParam "https://"), includes_self. }
      destruct (isQuad hostParam); intros [= <-];
        (split; [left; apply startsWith_http|]);
        apply (includes_later _ "http://"), includes_weaken, includes_self.
Qed.

Lemma buildSmartUrl_gives_a_scheme_witness :
  (startsWith "http://" "http://203.0.113.7:8090" = true
   \/ startsWith "https://" "http://203.0.113.7:8090" = true)
  /\ includes "203.0.113.7" "http://203.0.113.7:8090" = true.
Proof.
  apply (proj2 (buildSmartUrl_gives_a_scheme "203.0.113.7" 8090)).
  reflexivity.
Defined.

(** X9. A URL that [buildSmartUrl] has built is left as it is when it is
    given to [buildSmartUrl] again, with any port. *)
Theorem buildSmartUrl_is_idempotent (hostParam url : string) (port port' : Z) :
  Server.buildSmartUrl hostParam port = Some url ->
  Server.buildSmartUrl url port' = Some url.
Proof.
  intros Hfirst.
  assert (Hcolon : forall scheme rest,
            (scheme = "http://" \/ scheme = "https://") ->
            includes ":" rest = true ->
            buildSmartUrl (scheme ++ rest)%string port'
            = Some (scheme ++ rest)%string).
  { intros scheme rest Hscheme Hin. unfold buildSmartUrl.
    destruct Hscheme as [-> | ->].
    - change (truthy ("http://" ++ rest)%string) with true.
      rewrite startsWith_http. cbn [negb orb]. cbv zeta.
      rewrite withoutScheme_http, Hin. reflexivity.
    - change (truthy ("https://" ++ rest)%string) with true.
      rewrite startsWith_https, orb_true_r. cbn [negb]. cbv zeta.
      rewrite withoutScheme_https, Hin. reflexivity. }
  assert (Hdomain' : forall rest,
            test dottedQuad rest = false ->
            buildSmartUrl ("https://" ++ rest)%string port'
            = Some ("https://" ++ rest)%string).
  { intros rest Hquad. unfold buildSmartUrl.
    change (truthy ("https://" ++ rest)%string) with true.
    rewrite startsWith_https, orb_true_r.
    cbn [negb]. cbv zeta. rewrite withoutScheme_https, Hquad.
    destruct (includes ":" rest); reflexivity. }
  revert Hfirst. unfold buildSmartUrl at 1.
  destruct (truthy hostParam) eqn:Ht; cbn [negb]; [|discriminate].
  destruct (startsWith "http://" hostParam || startsWith "https://" hostParam)
    eqn:Hscheme.
  - cbv zeta. pose proof (scheme_split hostParam Hscheme) as Hsplit.
    destruct (includes ":" (withoutScheme hostParam)) eqn:Hin.
    + intros [= <-].
      destruct Hsplit as [H|H]; rewrite H; apply Hcolon; auto.
    + destruct (test dottedQuad (withoutScheme hostParam)) eqn:Hquad.
      * intros [= <-].
        destruct Hsplit as [H|H]; rewrite H, append_assoc; apply Hcolon; auto;
          apply (includes_middle ":" _ (string_of_Z port)).
      * intros [= <-]. unfold buildSmartUrl.
        rewrite Ht, Hscheme. cbn [negb]. cbv zeta. now rewrite Hin, Hquad.
  - destruct (isQuadWithPort hostParam) eqn:Hqp.
    { intros [= <-]. apply (Hcolon "http://" hostParam); [now left|].
      unfold isQuadWithPort in Hqp.
      destruct (matchSeq (dottedQuad ++ [Lit ":"; Plus isDigit]) hostParam)
        as [[segs rest]|] eqn:Hm; [|discriminate].
      exact (matchSeq_includes ":" [Plus isDigit] dottedQuad _ _ _ Hm). }
    cbv zeta.
    destruct (looksLikeDomain hostParam) eqn:Hdomain;
      destruct (test dottedQuad hostParam) eqn:Hquad; cbn [negb andb].
    + destruct (isQuad hostParam); intros [= <-];
        apply (Hcolon "http://" (hostParam ++ ":" ++ string_of_Z port)%string);
        auto; apply (includes_middle ":" _ (string_of_Z port)).
    + intros [= <-]. apply (Hdomain' hostParam Hquad).
    + destruct (isQuad hostParam); intros [= <-];
        apply (Hcolon "http://" (hostParam ++ ":" ++ string_of_Z port)%string);
        auto; apply (includes_middle ":" _ (string_of_Z port)).
    + destruct (isQuad hostParam); intros [= <-];
        apply (Hcolon "http://" (hostParam ++ ":" ++ string_of_Z port)%string);
        auto; apply (includes_middle ":" _ (string_of_Z port)).
Qed.

Lemma buildSmartUrl_is_idempotent_witness :
  Server.buildSmartUrl "https://pb.example.com" 1 = Some "https://pb.example.com".
Proof.
  apply (buildSmartUrl_is_idempotent "pb.example.com" "https://pb.example.com"
           8090 1).
  reflexivity.
Defined.

(* ---------------------------------------------------------------------- *)
(** ** Rotation, on any list of backups *)

Section RotationSafety.
Import ConfigLoader Server.

Lemma filter_length_perm {A : Type} (f : A -> bool) l l' :
  Permutation l l' -> length (filter f l) = length (filter f l').
Proof.
  induction 1 as [| x l l' _ IH | x y l | l l' l'' _ IH1 _ IH2]; simpl.
  - reflexivity.
  - destruct (f x); simpl; congruence.
  - destruct (f x), (f y); reflexivity.
  - congruence.
Qed.

Lemma filter_swap {A : Type} (f g : A -> bool) l :
  filter f (filter g l) = filter g (filter f l).
Proof.
  induction l as [|x l IH]; simpl; [reflexivity|].
  destruct (g x) eqn:Hg, (f x) eqn:Hf; simpl; rewrite ?Hg, ?Hf, IH; reflexivity.
Qed.

Lemma keyAmong_self ds d : In d ds -> keyAmong ds d = true.
Proof. intros Hd. apply keyAmong_spec. exists d. auto. Qed.

(** The loop that deletes touches the backend and the log only. *)
Lemma deleteAll_frame ds : forall w,
  clientReady (backend w) = true ->
  let w' := fst (forEach ds deleteOld w) in
  loader w' = loader w /\ clientReady (backend w') = true
  /\ startupStatus w' = startupStatus w
  /\ pocketbaseProcess w' = pocketbaseProcess w.
Proof.
  induction ds as [|d ds IH]; intros w Hready; simpl; [auto|].
  unfold bind.
  assert (Hd : loader (fst (deleteOld d w)) = loader w
               /\ clientReady (backend (fst (deleteOld d w))) = true
               /\ startupStatus (fst (deleteOld d w)) = startupStatus w
               /\ pocketbaseProcess (fst (deleteOld d w)) = pocketbaseProcess w
               /\ snd (deleteOld d w) = Fulfilled tt).
  { unfold deleteOld, deleteBackup, pbInternalDeleteBackup, bind, tryCatch,
      exec, ret.
    rewrite Hready.
    destruct (refusals (backend w)) as [|[message|] later];
      try destruct (existsb _ _); simpl; auto. }
  destruct (deleteOld d w) as [w1 r]. simpl in Hd.
  destruct Hd as (Hl & Hr & Hs & Hp & ->).
  destruct (IH w1 Hr) as (Hl' & Hr' & Hs' & Hp').
  repeat split; congruence.
Qed.

(** Either rotation does nothing, or it deletes the automatic backups
    that come after the first [KeepLast] in the order of their age. *)
Lemma rotation_cases w :
  manageBackupRotation w = (w, Fulfilled tt)
  \/ (Backup_Enabled (Backup (cfg w)) = true
      /\ 0 < KeepLast (Backup (cfg w))
      /\ clientReady (backend w) = true
      /\ manageBackupRotation w =
           forEach (skipn (Z.to_nat (KeepLast (Backup (cfg w))))
                          (sortBy newestFirst
                             (filter (isAuto (cfg w)) (backups (backend w)))))
                   deleteOld w).
Proof.
  unfold manageBackupRotation.
  destruct (Backup_Enabled (Backup (cfg w))); [|now left].
  destruct (KeepLast (Backup (cfg w)) <=? 0) eqn:Hk; [now left|].
  apply Z.leb_gt in Hk. cbn [negb orb].
  unfold bind, listBackups, tryCatch, pbInternalListBackups.
  destruct (clientReady (backend w)) eqn:Hready.
  - destruct (_ <=? _); [now left|]. right.
    repeat split; try assumption.
    unfold slice.
    assert (Hneg : (KeepLast (Backup (cfg w)) <? 0) = false)
      by (apply Z.ltb_ge; lia).
    now rewrite Hneg.
  - left. cbn.
    assert (H : (0 <=? KeepLast (Backup (cfg w))) = true)
      by (apply Z.leb_le; lia).
    now rewrite H.
Qed.

(** The automatic backups that remain after the deletions. *)
Lemma remaining_autos (c : Config) (n : nat) (listed : list BackupRecord) :
  let sorted := sortBy newestFirst (filter (isAuto c) listed) in
  (length (filter (isAuto c)
             (filter (fun b => negb (keyAmong (skipn n sorted) b)) listed))
   <= n)%nat.
Proof.
  intros sorted.
  rewrite filter_swap.
  rewrite (filter_length_perm _ _ sorted
             (Permutation_sym (sortBy_perm newestFirst _))).
  set (f := fun b => negb (keyAmong (skipn n sorted) b)).
  rewrite <- (firstn_skipn n sorted).
  rewrite filter_app, length_app.
  assert (Hnone : filter f (skipn n sorted) = []).
  { unfold f. remember (skipn n sorted) as ds eqn:Hds. clear Hds.
    assert (H : forall l, incl l ds ->
                filter (fun b => negb (keyAmong ds b)) l = []).
    { induction l as [|x l IHl]; intros Hincl; simpl; [reflexivity|].
      rewrite (keyAmong_self ds x) by (apply Hincl; now left). simpl.
      apply IHl. intros y Hy. apply Hincl. now right. }
    apply H. apply incl_refl. }
  rewrite Hnone. simpl.
  pose proof (filter_length_le f (firstn n sorted)).
  pose proof (firstn_le_length n sorted). lia.
Qed.
End RotationSafety.

(** X10. On any backend, whatever it answers to the deletions, and with
    any settings, rotation never throws, adds no backup and never deletes
    one whose key does not start with the prefix.  With backups enabled,
    [KeepLast > 0], a client that is ready and a backend that refuses no
    deletion, at most [KeepLast] backups with the prefix are left. *)
Theorem rotation_is_safe (w : Server.World) :
  let c := Server.cfg w in
  let w' := fst (Server.manageBackupRotation w) in
  snd (Server.manageBackupRotation w) = Fulfilled tt
  /\ (forall b, In b (Server.backups (Server.backend w')) ->
                In b (Server.backups (Server.backend w)))
  /\ (forall b, In b (Server.backups (Server.backend w)) ->
                Server.isAuto c b = false ->
                In b (Server.backups (Server.backend w')))
  /\ (ConfigLoader.Backup_Enabled (ConfigLoader.Backup c) = true ->
      0 < ConfigLoader.KeepLast (ConfigLoader.Backup c) ->
      Server.clientReady (Server.backend w) = true ->
      Server.obliging (Server.backend w) = true ->
      Z.of_nat (length (filter (Server.isAuto c)
                          (Server.backups (Server.backend w'))))
      <= ConfigLoader.KeepLast (ConfigLoader.Backup c)).
Proof.
  intros c w'. unfold w', c.
  destruct (rotation_cases w) as [Hsame|(Hen & Hpos & Hready & Hrun)].
  - rewrite Hsame. cbn [fst snd].
    split; [reflexivity|]. split; [auto|]. split; [auto|].
    intros Hen Hpos Hready Hobliging.
    (* nothing was deleted: there were no more than KeepLast backups *)
    revert Hsame. unfold manageBackupRotation.
    rewrite Hen.
    assert (Hk : (KeepLast (Backup (cfg w)) <=? 0) = false)
      by (apply Z.leb_gt; lia).
    rewrite Hk. cbn [negb orb].
    unfold bind, listBackups, tryCatch, pbInternalListBackups.
    rewrite Hready.
    destruct (Z.of_nat (length (backups (backend w)))
              <=? KeepLast (Backup (cfg w))) eqn:Hle.
    + intros _. apply Z.leb_le in Hle.
      pose proof (filter_length_le (isAuto (cfg w)) (backups (backend w))). lia.
    + intros Hloop.
      pose proof (remaining_autos (cfg w) (Z.to_nat (KeepLast (Backup (cfg w))))
                    (backups (backend w))) as Hrem.
      cbv zeta in Hrem.
      destruct (deleteAll_spec
                  (slice (KeepLast (Backup (cfg w)))
                     (sortBy newestFirst
                        (filter (isAuto (cfg w)) (backups (backend w)))))
                  w Hready Hobliging) as (_ & Hstore).
      rewrite Hloop in Hstore. cbn [fst] in Hstore.
      unfold slice in Hstore.
      assert (Hneg : (KeepLast (Backup (cfg w)) <? 0) = false)
        by (apply Z.ltb_ge; lia).
      rewrite Hneg in Hstore. rewrite Hstore at 1. lia.
  - rewrite Hrun.
    set (ds := skipn _ _) in *.
    destruct (deleteAll_sub ds w Hready) as (Hdone & Hsub & Hleft).
    split; [exact Hdone|].
    split; [exact Hsub|].
    split.
    + intros b Hb Hauto. apply Hleft; [exact Hb|].
      destruct (keyAmong ds b) eqn:Hk; [|reflexivity].
      apply keyAmong_spec in Hk. destruct Hk as (d & Hd & Hkey).
      assert (Hdauto : isAuto (cfg w) d = true).
      { assert (Hin : In d (sortBy newestFirst
                              (filter (isAuto (cfg w)) (backups (backend w))))).
        { unfold ds in Hd. rewrite <- (firstn_skipn (Z.to_nat (KeepLast (Backup (cfg w))))).
          apply in_or_app. now right. }
        apply (Permutation_in _ (sortBy_perm newestFirst _)) in Hin.
        now apply filter_In in Hin. }
      unfold isAuto in *. congruence.
    + intros _ _ _ Hobliging.
      destruct (deleteAll_spec ds w Hready Hobliging) as (_ & Hstore).
      rewrite Hstore.
      pose proof (remaining_autos (cfg w) (Z.to_nat (KeepLast (Backup (cfg w))))
                    (backups (backend w))) as Hrem.
      cbv zeta in Hrem. fold ds in Hrem. lia.
Qed.

Lemma rotation_is_safe_witness :
  Z.of_nat (length (filter (isAuto rotatingConfig)
                      (backups (backend (fst (manageBackupRotation rotatingWorld))))))
  <= 2.
Proof.
  apply (proj2 (proj2 (proj2 (rotation_is_safe rotatingWorld))));
    reflexivity.
Defined.

(** When the backend refuses the one deletion of the example, three
    backups with the prefix are left where two are to be kept. *)
Example rotation_refused_example :
  backups (backend (fst (manageBackupRotation refusingWorld))) = fourBackups
  /\ trace (fst (manageBackupRotation refusingWorld)) = [].
Proof. split; reflexivity. Qed.

(** X11. After a rotation in which the backend refused no deletion, a
    second run right after the first finds nothing to delete and leaves
    everything as it is. *)
Theorem rotation_is_idempotent (w : Server.World) :
  Server.obliging (Server.backend w) = true ->
  let w' := fst (Server.manageBackupRotation w) in
  Server.manageBackupRotation w' = (w', Fulfilled tt).
Proof.
  intros Hobliging w'. unfold w'.
  destruct (rotation_cases w) as [Hsame|(Hen & Hpos & Hready & Hrun)].
  - rewrite Hsame. exact Hsame.
  - rewrite Hrun.
    set (n := Z.to_nat (KeepLast (Backup (cfg w)))) in *.
    set (ds := skipn n _) in *.
    destruct (deleteAll_spec ds w Hready Hobliging) as (_ & Hstore).
    destruct (deleteAll_frame ds w Hready) as (Hl & Hr & _).
    set (w1 := fst (forEach ds deleteOld w)) in *.
    assert (Hc : cfg w1 = cfg w) by (unfold cfg; now rewrite Hl).
    destruct (rotation_cases w1) as [Hsame|(_ & _ & _ & Hrun1)];
      [exact Hsame|].
    rewrite Hrun1, Hc. fold n.
    rewrite skipn_all2; [reflexivity|].
    rewrite (Permutation_length (sortBy_perm newestFirst _)).
    rewrite Hstore. apply remaining_autos.
Qed.

Lemma rotation_is_idempotent_witness :
  manageBackupRotation (fst (manageBackupRotation rotatingWorld))
  = (fst (manageBackupRotation rotatingWorld), Fulfilled tt).
Proof.
  apply (rotation_is_idempotent rotatingWorld). reflexivity.
Defined.

(* ---------------------------------------------------------------------- *)
(** ** The steps of a startup *)

Section StartupSteps.
Import ConfigLoader ProcessUtils Server.

Lemma spawned_record e w :
  spawned (record e w) =
  spawned w ++ match e with Spawn c a => [(c, a)] | _ => [] end.
Proof.
  unfold spawned, record. cbn [trace]. rewrite flat_map_app.
  destruct e; simpl; reflexivity.
Qed.

Lemma step_refl w : step [] w w.
Proof. unfold step. now rewrite app_nil_r. Qed.

Ltac steps :=
  unfold step; repeat split; try reflexivity;
  unfold spawned; simpl; rewrite ?flat_map_app; simpl;
  rewrite ?app_nil_r, <- ?app_assoc; try reflexivity.

Lemma getPocketBasePath_step env w :
  step [] w (fst (getPocketBasePath env w))
  /\ startupStatus (fst (getPocketBasePath env w)) = startupStatus w.
Proof.
  unfold getPocketBasePath, getOS.
  repeat match goal with
         | |- context [if ?b then _ else _] => destruct b
         | |- context [match chmodError env with _ => _ end] =>
             destruct (chmodError env)
         end; split; try reflexivity; steps.
Qed.

Lemma checkAndUpdate_step env pbPath w :
  step (if AutoUpdate (cfg w) then [(pbPath, ["update"])] else [])
       w (fst (checkAndUpdate env pbPath w)).
Proof.
  unfold checkAndUpdate.
  destruct (AutoUpdate (cfg w)); cbn [negb]; [|apply step_refl].
  unfold bind, exec, await, ret.
  destruct (spawnWithTimeout _ _ _ _ _) as [|result|reason]; cbn [fst snd];
    try (destruct (match code result with Some 0 => false | _ => true end));
    steps.
Qed.

Lemma resolveAddresses_step env w :
  step [] w (fst (resolveAddresses env w)).
Proof.
  unfold resolveAddresses.
  destruct (ExposeAdmin (cfg w)); [|apply step_refl].
  destruct (negb _); [|apply step_refl].
  unfold bind, getPublicIP, exec, await, ret.
  destruct (ipProbe env) as [data|message|]; cbn [fst snd];
    try (destruct (truthy (trim data))); steps.
Qed.

Lemma applyPendingMigrations_step env pbPath w :
  step (if AutoApply (Migrations (cfg w))
        then [(pbPath, ["migrate"; "up"; "--dir"; DataDir (Advanced (cfg w))])]
        else [])
       w (fst (applyPendingMigrations env pbPath w)).
Proof.
  unfold applyPendingMigrations.
  destruct (AutoApply (Migrations (cfg w))); cbn [negb]; [|apply step_refl].
  unfold tryCatch, bind, exec, await, ret.
  destruct (spawnWithTimeout _ _ _ _ _) as [|result|reason]; cbn [fst snd];
    try (destruct (code result) as [[| |]|]);
    repeat match goal with
           | |- context [if ?b then _ else _] => destruct b
           end; steps.
Qed.

Lemma createSuperuser_effect env pbPath publicIP w :
  let w' := fst (createSuperuser env pbPath publicIP w) in
  let credentials := upsertedCredentials env publicIP (cfg w) in
  backend w' = backend w
  /\ pocketbaseProcess w' = pocketbaseProcess w
  /\ settings (cfg w') = settings (cfg w)
  /\ spawned w' =
       spawned w ++ [(pbPath, ["superuser"; "upsert"; fst credentials;
                               snd credentials; "--dir";
                               DataDir (Advanced (cfg w))])].
Proof.
  unfold createSuperuser, upsertedCredentials.
  destruct (hasConfigCredentials (cfg w)) eqn:Hcred; cbn [negb fst snd];
    unfold bind, exec, await, ret;
    (destruct (spawnWithTimeout _ _ _ _ _) as [|result|reason]; cbn [fst snd];
     [steps | | steps]);
    (destruct (_ || _); cbn [fst snd]; [|steps]).
  - steps.
  - unfold updateSuperuserCredentials.
    destruct (negb (truthy (configContent (loader (record _ w)))));
      [steps|].
    destruct (configWritable env); steps.
Qed.

Lemma displayStartupStatus_step w : step [] w (displayStartupStatus w).
Proof.
  unfold displayStartupStatus.
  destruct (clientAuthenticated (startupStatus w)) as [[|]|];
    repeat match goal with
           | |- context [if ?b then _ else _] => destruct b
           end; steps.
Qed.

Lemma deleteAll_silent ds : forall w,
  spawned (fst (forEach ds deleteOld w)) = spawned w.
Proof.
  induction ds as [|d ds IH]; intros w; simpl; [reflexivity|].
  unfold bind.
  assert (Hd : spawned (fst (deleteOld d w)) = spawned w
               /\ (snd (deleteOld d w) = Fulfilled tt)).
  { unfold deleteOld, deleteBackup, pbInternalDeleteBackup, bind, tryCatch,
      exec, ret.
    destruct (clientReady (backend w));
      [destruct (refusals (backend w)) as [|[message|] later];
       try destruct (existsb _ _)|];
      split; steps. }
  destruct (deleteOld d w) as [w1 r]. simpl in Hd. destruct Hd as [Hs ->].
  now rewrite IH.
Qed.

Lemma manageBackupRotation_effect w :
  let w' := fst (manageBackupRotation w) in
  loader w' = loader w
  /\ pocketbaseProcess w' = pocketbaseProcess w
  /\ startupStatus w' = startupStatus w
  /\ spawned w' = spawned w.
Proof.
  destruct (rotation_cases w) as [->|(_ & _ & Hready & ->)]; [auto|].
  match goal with
  | |- context [forEach ?ds deleteOld w] =>
      destruct (deleteAll_frame ds w Hready) as (Hl & _ & Hs & Hp);
      pose proof (deleteAll_silent ds w)
  end.
  auto.
Qed.

Lemma performStartupBackup_effect env w :
  let w' := fst (performStartupBackup env w) in
  loader w' = loader w
  /\ pocketbaseProcess w' = pocketbaseProcess w
  /\ spawned w' = spawned w.
Proof.
  unfold performStartupBackup.
  destruct (_ || _); [auto|].
  unfold bind, exec, createBackup, tryCatch, pbInternalCreateBackup, ret.
  cbn [fst snd backend record].
  destruct (clientReady (backend w)); [|steps].
  destruct (backupCreation env _) as [|r|reason]; cbn [fst snd];
    [steps | | steps].
  match goal with
  | |- context [manageBackupRotation ?w0] =>
      destruct (manageBackupRotation_effect w0) as (Hl & Hp & _ & Hs)
  end.
  rewrite Hl, Hp, Hs. steps.
Qed.

Lemma serveArgs_settings c c' bindAddress :
  settings c' = settings c -> serveArgs c' bindAddress = serveArgs c bindAddress.
Proof. unfold settings, serveArgs. intros [= _ _ _ _ _ _ ->]. reflexivity. Qed.

Lemma settings_loader w w' : loader w' = loader w -> settings (cfg w') = settings (cfg w).
Proof. unfold cfg. now intros ->. Qed.

(** The steps of a startup that comes to start the server. *)
Lemma startPocketBase_steps env w wf url :
  startPocketBase env w = (wf, Fulfilled (Some url)) ->
  exists pbPath w1 w2 w3 w4 w5 w6 updated bind publicIP,
    validationErrors (cfg w) = []
    /\ getPocketBasePath env w = (w1, Some pbPath)
    /\ checkAndUpdate env pbPath (setExecutablePath pbPath w1)
       = (w2, Fulfilled updated)
    /\ resolveAddresses env (setExposeAdmin (ExposeAdmin (cfg w2)) w2)
       = (w3, Fulfilled (bind, url, publicIP))
    /\ createSuperuser env pbPath publicIP (setAddresses bind url w3)
       = (w4, Fulfilled true)
    /\ applyPendingMigrations env pbPath w4 = (w5, Fulfilled tt)
    /\ performStartupBackup env w5 = (w6, Fulfilled tt)
    /\ wf = record (TimerSet "settled" 1000)
              (withProcess
                 (Some (mkProcess pbPath (serveArgs (cfg w6) bind) false))
                 (record (Spawn pbPath (serveArgs (cfg w6) bind)) w6)).
Proof.
  unfold startPocketBase, validateConfig.
  destruct (validationErrors (cfg w)) as [|e es] eqn:Hvalid;
    [|cbn; discriminate].
  cbn [length Z.of_nat Z.ltb Z.compare].
  destruct (getPocketBasePath env w) as [w1 [pbPath|]]; [|discriminate].
  intros H.
  apply bind_inv in H as (? & w2 & H2 & H). injection H2 as <- _.
  apply bind_inv in H as (updated & w2' & Hupd & H).
  apply bind_inv in H as (? & w3 & H3 & H). injection H3 as <- _.
  apply bind_inv in H as ([[bind finalUrl] publicIP] & w4 & Hres & H).
  apply bind_inv in H as (? & w5 & H5 & H). injection H5 as <- _.
  apply bind_inv in H as (success & w6 & Hsu & H).
  destruct success; [|simpl in H; apply bind_inv in H as (? & ? & _ & H);
                      discriminate].
  cbn [negb] in H.
  apply bind_inv in H as ([] & w7 & Hmig & H).
  apply bind_inv in H as ([] & w8 & Hbak & H).
  apply bind_inv in H as (? & w9 & H9 & H). injection H9 as <- _.
  apply bind_inv in H as (? & w10 & H10 & H). injection H10 as <- _.
  injection H as <- <-.
  exists pbPath, w1, w2', w4, w6, w7, w8, updated, bind, publicIP.
  repeat split; assumption.
Qed.
End StartupSteps.

(** X12. A startup that comes to start the server has started, with the
    same executable and in this order: [update], when [AutoUpdate] is
    set; [superuser upsert] with the configured credentials or, when the
    configuration lacks one of them, with generated ones; [migrate up],
    when [Migrations.AutoApply] is set; and last [serve], bound to the
    address that was resolved.  No other process is started, and the
    handle of the server is that of [serve]. *)
Theorem startup_spawns_in_order
        (env : Server.Env) (w wf : Server.World) (url : string) :
  Server.startPocketBase env w = (wf, Fulfilled (Some url)) ->
  exists pbPath bindAddress publicIP,
    let c := Server.cfg w in
    let credentials := Server.upsertedCredentials env publicIP c in
    let dataDir := ConfigLoader.DataDir (ConfigLoader.Advanced c) in
    snd (Server.getPocketBasePath env w) = Some pbPath
    /\ snd (Server.resolveAddresses env w)
       = Fulfilled (bindAddress, url, publicIP)
    /\ Server.spawned wf =
         Server.spawned w
         ++ (if ConfigLoader.AutoUpdate c then [(pbPath, ["update"])] else [])
         ++ [(pbPath, ["superuser"; "upsert"; fst credentials;
                       snd credentials; "--dir"; dataDir])]
         ++ (if ConfigLoader.AutoApply (ConfigLoader.Migrations c)
             then [(pbPath, ["migrate"; "up"; "--dir"; dataDir])] else [])
         ++ [(pbPath, Server.serveArgs c bindAddress)]
    /\ Server.pocketbaseProcess wf =
         Some (Server.mkProcess pbPath (Server.serveArgs c bindAddress) false).
Proof.
  intros Hrun.
  destruct (startPocketBase_steps env w wf url Hrun)
    as (pbPath & w1 & w2 & w3 & w4 & w5 & w6 & updated & bind & publicIP
        & Hvalid & Hpath & Hupd & Hres & Hsu & Hmig & Hbak & ->).
  exists pbPath, bind, publicIP. cbv zeta.
  (* each step, in turn *)
  destruct (getPocketBasePath_step env w) as [(Hl1 & _ & _ & Hs1) _].
  rewrite Hpath in Hl1, Hs1. cbn [fst] in Hl1, Hs1. rewrite app_nil_r in Hs1.
  pose proof (checkAndUpdate_step env pbPath (setExecutablePath pbPath w1))
    as (Hl2 & _ & _ & Hs2).
  rewrite Hupd in Hl2, Hs2. cbn [fst] in Hl2, Hs2.
  change (loader (setExecutablePath pbPath w1)) with (loader w1) in Hl2.
  change (spawned (setExecutablePath pbPath w1)) with (spawned w1) in Hs2.
  change (cfg (setExecutablePath pbPath w1)) with (config (loader w1)) in Hs2.
  pose proof (resolveAddresses_step env (setExposeAdmin (ExposeAdmin (cfg w2)) w2))
    as (Hl3 & _ & _ & Hs3).
  rewrite Hres in Hl3, Hs3. cbn [fst] in Hl3, Hs3. rewrite app_nil_r in Hs3.
  change (loader (setExposeAdmin (ExposeAdmin (cfg w2)) w2)) with (loader w2) in Hl3.
  change (spawned (setExposeAdmin (ExposeAdmin (cfg w2)) w2)) with (spawned w2) in Hs3.
  pose proof (createSuperuser_effect env pbPath publicIP (setAddresses bind url w3))
    as (_ & _ & Hc4 & Hs4).
  rewrite Hsu in Hc4, Hs4. cbn [fst] in Hc4, Hs4.
  change (cfg (setAddresses bind url w3)) with (config (loader w3)) in Hc4, Hs4.
  change (spawned (setAddresses bind url w3)) with (spawned w3) in Hs4.
  pose proof (applyPendingMigrations_step env pbPath w4) as (Hl5 & _ & _ & Hs5).
  rewrite Hmig in Hl5, Hs5. cbn [fst] in Hl5, Hs5.
  pose proof (performStartupBackup_effect env w5) as (Hl6 & _ & Hs6).
  rewrite Hbak in Hl6, Hs6. cbn [fst] in Hl6, Hs6.
  assert (Hcfg3 : config (loader w3) = cfg w)
    by (unfold cfg; congruence).
  assert (Hset4 : settings (cfg w4) = settings (cfg w))
    by (rewrite Hc4, Hcfg3; reflexivity).
  assert (Hset6 : settings (cfg w6) = settings (cfg w))
    by (rewrite <- Hset4; apply settings_loader; congruence).
  rewrite (serveArgs_settings _ _ bind Hset6).
  split; [now rewrite Hpath|].
  split.
  { rewrite <- (resolveAddresses_network env w
                  (setExposeAdmin (ExposeAdmin (cfg w2)) w2)).
    - now rewrite Hres.
    - unfold network, cfg. cbn [loader setExposeAdmin withStatus].
      now rewrite Hl2, Hl1. }
  split; [|reflexivity].
  rewrite spawned_record.
  match goal with
  | |- context [spawned (withProcess ?p ?w0)] =>
      change (spawned (withProcess p w0)) with (spawned w0)
  end.
  rewrite spawned_record, Hs6, Hs5, Hs4, Hs3, Hs2, Hs1, Hcfg3.
  assert (Hauto : AutoUpdate (config (loader w1)) = AutoUpdate (cfg w))
    by (unfold cfg; now rewrite Hl1).
  assert (Happly : AutoApply (Migrations (cfg w4)) = AutoApply (Migrations (cfg w))
                   /\ DataDir (Advanced (cfg w4)) = DataDir (Advanced (cfg w))).
  { unfold settings in Hset4. injection Hset4 as _ _ _ _ Hm _ Ha.
    now rewrite Hm, Ha. }
  destruct Happly as [-> ->]. rewrite Hauto.
  rewrite <- !app_assoc, app_nil_r. reflexivity.
Qed.

Lemma startup_spawns_in_order_witness :
  exists pbPath bindAddress publicIP,
    snd (getPocketBasePath exampleEnv (withConfig provisionedConfig)) = Some pbPath
    /\ snd (resolveAddresses exampleEnv (withConfig provisionedConfig))
       = Fulfilled (bindAddress, "http://localhost:8090", publicIP)
    /\ spawned (fst (startPocketBase exampleEnv (withConfig provisionedConfig))) =
         spawned (withConfig provisionedConfig)
         ++ (if AutoUpdate (cfg (withConfig provisionedConfig))
             then [(pbPath, ["update"])] else [])
         ++ [(pbPath, ["superuser"; "upsert";
                       fst (upsertedCredentials exampleEnv publicIP
                              (cfg (withConfig provisionedConfig)));
                       snd (upsertedCredentials exampleEnv publicIP
                              (cfg (withConfig provisionedConfig)));
                       "--dir";
                       DataDir (Advanced (cfg (withConfig provisionedConfig)))])]
         ++ (if AutoApply (Migrations (cfg (withConfig provisionedConfig)))
             then [(pbPath, ["migrate"; "up"; "--dir";
                             DataDir (Advanced (cfg (withConfig provisionedConfig)))])]
             else [])
         ++ [(pbPath, serveArgs (cfg (withConfig provisionedConfig)) bindAddress)]
    /\ pocketbaseProcess (fst (startPocketBase exampleEnv (withConfig provisionedConfig))) =
         Some (mkProcess pbPath
                 (serveArgs (cfg (withConfig provisionedConfig)) bindAddress) false).
Proof.
  apply (startup_spawns_in_order exampleEnv (withConfig provisionedConfig)
           (fst (startPocketBase exampleEnv (withConfig provisionedConfig)))
           "http://localhost:8090").
  vm_compute. reflexivity.
Defined.

(** The processes of the example, with the defaults and credentials. *)
Example startup_example :
  spawned (fst (startPocketBase exampleEnv (withConfig provisionedConfig))) =
    [("/srv/pb/bin/pocketbase-linux",
      ["superuser"; "upsert"; "admin@localhost.local"; "qOl9dbdZHF54ixFfM9th";
       "--dir"; "pb_data"]);
     ("/srv/pb/bin/pocketbase-linux", ["migrate"; "up"; "--dir"; "pb_data"]);
     ("/srv/pb/bin/pocketbase-linux",
      ["serve"; "--http=127.0.0.1:8090"; "--dir=pb_data";
       "--publicDir=pb_public"])].
Proof. vm_compute. reflexivity. Qed.

(** X13. With a configuration that is valid, on a platform other than
    [win32] and [linux], or without the executable in [bin], the startup
    logs what is wrong, reports "PocketBase executable not found" in the
    status box and ends there: no process is started. *)
Theorem missing_executable_stops_the_startup
        (env : Server.Env) (w : Server.World) :
  Server.validationErrors (Server.cfg w) = [] ->
  ((Server.platform env =? "win32")%string = false
   /\ (Server.platform env =? "linux")%string = false)
  \/ Server.executableExists env = false ->
  let wf := fst (Server.startup env w) in
  snd (Server.startPocketBase env w) = Fulfilled None
  /\ snd (Server.startup env w) = Fulfilled tt
  /\ In "PocketBase executable not found"
        (Server.errors (Server.startupStatus wf))
  /\ Server.spawned wf = Server.spawned w
  /\ Server.pocketbaseProcess wf = Server.pocketbaseProcess w
  /\ exists logged,
       Server.trace wf =
         Server.trace w ++ [Server.Log "error" logged;
                            Server.Report (Server.startupStatus wf)].
Proof.
  intros Hvalid Hmissing wf.
  assert (Hpath : exists logged,
            getPocketBasePath env w = (record (Log "error" logged) w, None)).
  { unfold getPocketBasePath, getOS.
    destruct Hmissing as [[Hwin Hlinux]|Hexists].
    - rewrite Hwin, Hlinux. eauto.
    - rewrite Hexists.
      destruct (platform env =? "win32")%string; cbn [negb]; [eauto|].
      destruct (platform env =? "linux")%string; cbn [negb]; eauto. }
  destruct Hpath as [logged Hpath].
  assert (Hrun : startPocketBase env w =
                 (displayStartupStatus
                    (pushErrors ["PocketBase executable not found"]
                       (record (Log "error" logged) w)),
                  Fulfilled None)).
  { unfold startPocketBase, validateConfig. rewrite Hvalid.
    cbn [length Z.of_nat Z.ltb Z.compare]. now rewrite Hpath. }
  unfold wf, startup, bind. rewrite Hrun. cbn [fst snd ret].
  destruct (displayStartupStatus_spec
              (pushErrors ["PocketBase executable not found"]
                 (record (Log "error" logged) w))) as (He & Hp & Ht).
  destruct (displayStartupStatus_step
              (pushErrors ["PocketBase executable not found"]
                 (record (Log "error" logged) w))) as (_ & _ & _ & Hs).
  split; [reflexivity|]. split; [reflexivity|].
  split; [rewrite He; cbn; apply in_or_app; right; now left|].
  split.
  { rewrite Hs, app_nil_r.
    change (spawned (pushErrors ["PocketBase executable not found"]
                       (record (Log "error" logged) w)))
      with (spawned (record (Log "error" logged) w)).
    now rewrite spawned_record, app_nil_r. }
  split; [rewrite Hp; reflexivity|].
  exists logged. rewrite Ht. cbn [trace pushErrors withStatus record].
  now rewrite <- app_assoc.
Qed.

Lemma missing_executable_stops_the_startup_witness :
  In "PocketBase executable not found"
     (errors (startupStatus
        (fst (startup unsupportedEnv (withConfig provisionedConfig))))).
Proof.
  apply (missing_executable_stops_the_startup
           unsupportedEnv (withConfig provisionedConfig)).
  - reflexivity.
  - left. split; reflexivity.
Defined.

(** X14. When the upsert of the superuser fails (its exit code is not 0
    and its output does not say that the superuser was saved), the
    startup ends with the error in the status box: after the upsert no
    process is started, neither the migrations nor the server. *)
Theorem failed_upsert_stops_the_startup
        (env : Server.Env) (w wf : Server.World) (r : option string)
        (pbPath : string) (events : list ProcessUtils.ChildEvent)
        (result : ProcessUtils.SpawnResult) :
  Server.upsertChild env = ProcessUtils.Spawned events ->
  ProcessUtils.promise (ProcessUtils.watched events) = Fulfilled result ->
  ProcessUtils.code result <> Some 0 ->
  includes "Successfully saved superuser" (ProcessUtils.stdout result) = false ->
  Server.validationErrors (Server.cfg w) = [] ->
  snd (Server.getPocketBasePath env w) = Some pbPath ->
  Server.startPocketBase env w = (wf, Fulfilled r) ->
  r = None
  /\ Server.pocketbaseProcess wf = Server.pocketbaseProcess w
  /\ (exists publicIP,
        Server.spawned wf =
          Server.spawned w
          ++ (if ConfigLoader.AutoUpdate (Server.cfg w)
              then [(pbPath, ["update"])] else [])
          ++ [(pbPath,
               ["superuser"; "upsert";
                fst (Server.upsertedCredentials env publicIP (Server.cfg w));
                snd (Server.upsertedCredentials env publicIP (Server.cfg w));
                "--dir";
                ConfigLoader.DataDir (ConfigLoader.Advanced (Server.cfg w))])])
  /\ In ("Failed to configure superuser (code "
           ++ match ProcessUtils.code result with
              | Some c => string_of_Z c
              | None => "null"
              end ++ ")")%string
        (Server.errors (Server.startupStatus wf))
  /\ exists earlier,
       Server.trace wf = earlier ++ [Server.Report (Server.startupStatus wf)].
Proof.
  intros Hchild Hpromise Hcode Hout Hvalid Hpath.
  unfold startPocketBase, validateConfig. rewrite Hvalid.
  cbn [length Z.of_nat Z.ltb Z.compare].
  pose proof (getPocketBasePath_step env w) as [(Hl1 & _ & Hp1 & Hs1) _].
  destruct (getPocketBasePath env w) as [w1 [path|]]; [|discriminate].
  cbn [fst snd] in *. injection Hpath as ->. rewrite app_nil_r in Hs1.
  intros H.
  apply bind_inv in H as (? & w2 & H2 & H). injection H2 as <- _.
  apply bind_inv in H as (updated & w2' & Hupd & H).
  apply bind_inv in H as (? & w3 & H3 & H). injection H3 as <- _.
  apply bind_inv in H as ([[bindAddr finalUrl] publicIP] & w4 & Hres & H).
  apply bind_inv in H as (? & w5 & H5 & H). injection H5 as <- _.
  apply bind_inv in H as (success & w6 & Hsu & H).
  (* the upsert fails *)
  assert (Hfalse : success = false
                   /\ In ("Failed to configure superuser (code "
                            ++ match code result with
                               | Some c => string_of_Z c
                               | None => "null"
                               end ++ ")")%string
                         (errors (startupStatus w6))).
  { revert Hsu. unfold createSuperuser, Server.bind, exec, await, ret, spawnWithTimeout.
    rewrite Hchild. cbn [stdioOf stdio]. fold (watched events).
    rewrite Hpromise. cbn [fst snd].
    assert (Hc : match code result with Some 0 => true | _ => false end = false)
      by (destruct (code result) as [[| |]|]; congruence).
    rewrite Hc, Hout. cbn [orb].
    intros [= <- <-]. split; [reflexivity|].
    cbn. apply in_or_app. right. now left. }
  destruct Hfalse as [-> Herr]. cbn [negb] in H.
  apply bind_inv in H as (? & w7 & H7 & H). injection H7 as <- _.
  injection H as <- <-.
  pose proof (checkAndUpdate_step env pbPath (setExecutablePath pbPath w1))
    as (Hl2 & _ & Hp2 & Hs2).
  rewrite Hupd in Hl2, Hp2, Hs2. cbn [fst] in Hl2, Hp2, Hs2.
  change (loader (setExecutablePath pbPath w1)) with (loader w1) in Hl2.
  change (pocketbaseProcess (setExecutablePath pbPath w1))
    with (pocketbaseProcess w1) in Hp2.
  change (spawned (setExecutablePath pbPath w1)) with (spawned w1) in Hs2.
  change (cfg (setExecutablePath pbPath w1)) with (config (loader w1)) in Hs2.
  pose proof (resolveAddresses_step env (setExposeAdmin (ExposeAdmin (cfg w2')) w2'))
    as (Hl3 & _ & Hp3 & Hs3).
  rewrite Hres in Hl3, Hp3, Hs3. cbn [fst] in Hl3, Hp3, Hs3.
  rewrite app_nil_r in Hs3.
  change (loader (setExposeAdmin (ExposeAdmin (cfg w2')) w2')) with (loader w2') in Hl3.
  change (pocketbaseProcess (setExposeAdmin (ExposeAdmin (cfg w2')) w2'))
    with (pocketbaseProcess w2') in Hp3.
  change (spawned (setExposeAdmin (ExposeAdmin (cfg w2')) w2')) with (spawned w2') in Hs3.
  pose proof (createSuperuser_effect env pbPath publicIP (setAddresses bindAddr finalUrl w4))
    as (_ & Hp4 & _ & Hs4).
  rewrite Hsu in Hp4, Hs4. cbn [fst] in Hp4, Hs4.
  change (cfg (setAddresses bindAddr finalUrl w4)) with (config (loader w4)) in Hs4.
  change (spawned (setAddresses bindAddr finalUrl w4)) with (spawned w4) in Hs4.
  change (pocketbaseProcess (setAddresses bindAddr finalUrl w4))
    with (pocketbaseProcess w4) in Hp4.
  destruct (displayStartupStatus_spec w6) as (He & Hp & Ht).
  destruct (displayStartupStatus_step w6) as (_ & _ & _ & Hs).
  assert (Hcfg4 : config (loader w4) = cfg w) by (unfold cfg; congruence).
  split; [reflexivity|].
  split; [congruence|].
  split.
  { exists publicIP. rewrite Hs, app_nil_r, Hs4, Hs3, Hs2, Hs1, Hcfg4.
    assert (Hauto : AutoUpdate (config (loader w1)) = AutoUpdate (cfg w))
      by (unfold cfg; now rewrite Hl1).
    rewrite Hauto, <- !app_assoc. reflexivity. }
  split; [rewrite He; exact Herr|].
  exists (trace w6). exact Ht.
Qed.

Lemma failed_upsert_stops_the_startup_witness :
  In "Failed to configure superuser (code 1)"
     (errors (startupStatus
        (fst (startPocketBase failingUpsertEnv (withConfig provisionedConfig))))).
Proof.
  apply (failed_upsert_stops_the_startup
           failingUpsertEnv (withConfig provisionedConfig)
           (fst (startPocketBase failingUpsertEnv (withConfig provisionedConfig)))
           None "/srv/pb/bin/pocketbase-linux"
           [StderrData "Error: invalid email"; Close (Some 1)]
           (mkSpawnResult (Some 1) "" "Error: invalid email"));
    try reflexivity.
  discriminate.
Defined.

(** X15. The migrations never stop a startup: [applyPendingMigrations]
    never throws, also when the process cannot be started, and reports no
    error; all it may add to the status is one warning, and none when the
    exit code is 0. *)
Theorem migrations_never_stop_the_startup
        (env : Server.Env) (pbPath : string) (w : Server.World) :
  let run := Server.applyPendingMigrations env pbPath w in
  (forall reason, snd run <> Failed reason)
  /\ Server.errors (Server.startupStatus (fst run))
     = Server.errors (Server.startupStatus w)
  /\ (exists added,
        Server.warnings (Server.startupStatus (fst run))
        = Server.warnings (Server.startupStatus w) ++ added
        /\ (length added <= 1)%nat)
  /\ (forall events result,
        Server.migrateChild env = ProcessUtils.Spawned events ->
        ProcessUtils.promise (ProcessUtils.watched events) = Fulfilled result ->
        ProcessUtils.code result = Some 0 ->
        Server.warnings (Server.startupStatus (fst run))
        = Server.warnings (Server.startupStatus w))
  /\ (forall message,
        Server.migrateChild env = ProcessUtils.SpawnThrows message ->
        ConfigLoader.AutoApply (ConfigLoader.Migrations (Server.cfg w)) = true ->
        snd run = Fulfilled tt
        /\ In ("Migration error: " ++ message)%string
              (Server.warnings (Server.startupStatus (fst run)))).
Proof.
  intros run. unfold run, applyPendingMigrations.
  destruct (AutoApply (Migrations (cfg w))) eqn:Hauto; cbn [negb].
  2:{ cbn. split; [discriminate|]. split; [reflexivity|].
      split; [exists []; rewrite app_nil_r; split; [reflexivity|simpl; lia]|].
      split; [reflexivity|discriminate]. }
  unfold tryCatch, Server.bind, exec, await, ret, spawnWithTimeout.
  cbn [stdioOf stdio].
  destruct (migrateChild env) as [message|events] eqn:Hchild; cbn [fst snd].
  { split; [discriminate|]. split; [reflexivity|].
    split; [eexists; split; [reflexivity|simpl; lia]|].
    split; [discriminate|].
    intros message' [= <-] _. split; [reflexivity|].
    cbn. apply in_or_app. right. now left. }
  fold (watched events).
  destruct (promise (watched events)) as [|result|reason] eqn:Hp; cbn [fst snd].
  { split; [discriminate|]. split; [reflexivity|].
    split; [exists []; rewrite app_nil_r; split; [reflexivity|simpl; lia]|].
    split; [|discriminate]. intros ? ? [= <-] H. congruence. }
  2:{ split; [discriminate|]. split; [reflexivity|].
      split; [eexists; split; [reflexivity|simpl; lia]|].
      split; [|discriminate]. intros ? ? [= <-] H. congruence. }
  assert (Hsame : forall events' result',
            Spawned events = Spawned events' ->
            promise (watched events') = Fulfilled result' ->
            code result' = code result).
  { intros events' result' [= <-] H. congruence. }
  destruct (code result) as [[|c|c]|] eqn:Hcode;
    repeat match goal with
           | |- context [if ?b then _ else _] => destruct b
           end; cbn;
    (split; [discriminate|]); (split; [reflexivity|]);
    (split;
     [first [ exists []; rewrite app_nil_r; split; [reflexivity|simpl; lia]
            | eexists; split; [reflexivity|simpl; lia] ]|]);
    (split; [|discriminate]);
    intros events' result' He Hr Hz;
    try reflexivity;
    rewrite (Hsame events' result' He Hr) in Hz; discriminate.
Qed.

Lemma migrations_never_stop_the_startup_witness :
  snd (applyPendingMigrations failingMigrationsEnv "/srv/pb/bin/pocketbase-linux"
         (withConfig provisionedConfig)) = Fulfilled tt
  /\ In "Migration error: spawn EINVAL"
        (warnings (startupStatus
           (fst (applyPendingMigrations failingMigrationsEnv
                   "/srv/pb/bin/pocketbase-linux"
                   (withConfig provisionedConfig))))).
Proof.
  apply (proj2 (proj2 (proj2 (proj2
           (migrations_never_stop_the_startup failingMigrationsEnv
              "/srv/pb/bin/pocketbase-linux" (withConfig provisionedConfig)))))
           "spawn EINVAL"); reflexivity.
Defined.

(** X16. The backup at startup needs the client, which is not ready
    before the server runs.  In a startup that comes to start the server,
    with [Backup.Enabled] and [Backup.OnStartup] set and a client that is
    not ready at the start, no backup is created: the backend is as it
    was, and the status has the warning that the creation failed. *)
Theorem startup_backup_needs_the_client
        (env : Server.Env) (w wf : Server.World) (url : string) :
  Server.startPocketBase env w = (wf, Fulfilled (Some url)) ->
  Server.clientReady (Server.backend w) = false ->
  ConfigLoader.Backup_Enabled (ConfigLoader.Backup (Server.cfg w)) = true ->
  ConfigLoader.OnStartup (ConfigLoader.Backup (Server.cfg w)) = true ->
  Server.backend wf = Server.backend w
  /\ In ("Backup creation failed: " ++ Server.notReady)%string
        (Server.warnings (Server.startupStatus wf)).
Proof.
  intros Hrun Hready Henabled Hstartup.
  destruct (startPocketBase_steps env w wf url Hrun)
    as (pbPath & w1 & w2 & w3 & w4 & w5 & w6 & updated & bindAddr & publicIP
        & Hvalid & Hpath & Hupd & Hres & Hsu & Hmig & Hbak & ->).
  destruct (getPocketBasePath_step env w) as [(Hl1 & Hb1 & _) _].
  rewrite Hpath in Hl1, Hb1. cbn [fst] in Hl1, Hb1.
  pose proof (checkAndUpdate_step env pbPath (setExecutablePath pbPath w1))
    as (Hl2 & Hb2 & _).
  rewrite Hupd in Hl2, Hb2. cbn [fst] in Hl2, Hb2.
  change (loader (setExecutablePath pbPath w1)) with (loader w1) in Hl2.
  change (backend (setExecutablePath pbPath w1)) with (backend w1) in Hb2.
  pose proof (resolveAddresses_step env (setExposeAdmin (ExposeAdmin (cfg w2)) w2))
    as (Hl3 & Hb3 & _).
  rewrite Hres in Hl3, Hb3. cbn [fst] in Hl3, Hb3.
  change (loader (setExposeAdmin (ExposeAdmin (cfg w2)) w2)) with (loader w2) in Hl3.
  change (backend (setExposeAdmin (ExposeAdmin (cfg w2)) w2)) with (backend w2) in Hb3.
  pose proof (createSuperuser_effect env pbPath publicIP (setAddresses bindAddr url w3))
    as (Hb4 & _ & Hc4 & _).
  rewrite Hsu in Hb4, Hc4. cbn [fst] in Hb4, Hc4.
  change (cfg (setAddresses bindAddr url w3)) with (config (loader w3)) in Hc4.
  change (backend (setAddresses bindAddr url w3)) with (backend w3) in Hb4.
  pose proof (applyPendingMigrations_step env pbPath w4) as (Hl5 & Hb5 & _).
  rewrite Hmig in Hl5, Hb5. cbn [fst] in Hl5, Hb5.
  assert (Hbackend : backend w5 = backend w) by congruence.
  assert (Hbackup : Backup (cfg w5) = Backup (cfg w)).
  { assert (Hset : settings (cfg w5) = settings (cfg w)).
    { rewrite (settings_loader w4 w5 Hl5), Hc4. unfold cfg. congruence. }
    unfold settings in Hset. now injection Hset. }
  revert Hbak. unfold performStartupBackup.
  rewrite Hbackup, Henabled, Hstartup. cbn [negb orb].
  unfold Server.bind, exec, createBackup, tryCatch, pbInternalCreateBackup, ret.
  cbn [fst snd backend record]. rewrite Hbackend, Hready.
  intros [= <-]. split; [cbn; congruence|].
  cbn. apply in_or_app. right. now left.
Qed.

Lemma startup_backup_needs_the_client_witness :
  backend (fst (startPocketBase exampleEnv (withConfig backupConfig)))
  = backend (withConfig backupConfig)
  /\ In ("Backup creation failed: " ++ notReady)%string
        (warnings (startupStatus
           (fst (startPocketBase exampleEnv (withConfig backupConfig))))).
Proof.
  apply (startup_backup_needs_the_client exampleEnv (withConfig backupConfig)
           (fst (startPocketBase exampleEnv (withConfig backupConfig)))
           "http://localhost:8090");
    vm_compute; reflexivity.
Defined.

(* ---------------------------------------------------------------------- *)
(** ** Generated passwords *)

Section PasswordFacts.
Import ConfigLoader Server.

Lemma base64Char_in_alphabet n : (n < 64)%nat -> isBase64 (base64Char n) = true.
Proof.
  intros Hn.
  do 64 (destruct n as [|n]; [reflexivity|]).
  lia.
Qed.

Lemma byte_value_bounded b : (N.to_nat (Byte.to_N b) < 256)%nat.
Proof. destruct b; vm_compute; lia. Qed.

Lemma list_ind3 {A : Type} (P : list A -> Prop) :
  P [] -> (forall a, P [a]) -> (forall a b, P [a; b]) ->
  (forall a b c rest, P rest -> P (a :: b :: c :: rest)) ->
  forall l, P l.
Proof.
  intros H0 H1 H2 H3.
  fix IH 1.
  intros [|a [|b [|c rest]]];
    [exact H0 | apply H1 | apply H2 | apply H3, IH].
Qed.

(** The characters of the encoding that come before the padding: as many
    as there are bytes, at least. *)
Lemma base64_prefix bytes : forall k,
  (k <= length bytes)%nat ->
  allChars isBase64 (String.substring 0 k (base64 bytes)) = true
  /\ String.length (String.substring 0 k (base64 bytes)) = k.
Proof.
  induction bytes as [|a|a b|a b c rest IH] using list_ind3; intros k Hk.
  - destruct k; [split; reflexivity|simpl in Hk; lia].
  - pose proof (byte_value_bounded a).
    destruct k as [|[|k]]; [split; reflexivity| |simpl in Hk; lia].
    cbn [base64 String.substring allChars String.length].
    rewrite base64Char_in_alphabet by (apply Nat.Div0.div_lt_upper_bound; lia).
    split; reflexivity.
  - pose proof (byte_value_bounded a). pose proof (byte_value_bounded b).
    pose proof (Nat.mod_upper_bound (N.to_nat (Byte.to_N a)) 4 ltac:(lia)).
    assert (N.to_nat (Byte.to_N b) / 16 < 16)%nat
      by (apply Nat.Div0.div_lt_upper_bound; lia).
    destruct k as [|[|[|k]]]; [split; reflexivity| | |simpl in Hk; lia];
      cbn [base64 String.substring allChars String.length];
      rewrite !base64Char_in_alphabet
        by first [apply Nat.Div0.div_lt_upper_bound; lia | lia];
      split; reflexivity.
  - pose proof (byte_value_bounded a). pose proof (byte_value_bounded b).
    pose proof (byte_value_bounded c).
    pose proof (Nat.mod_upper_bound (N.to_nat (Byte.to_N a)) 4 ltac:(lia)).
    pose proof (Nat.mod_upper_bound (N.to_nat (Byte.to_N b)) 16 ltac:(lia)).
    pose proof (Nat.mod_upper_bound (N.to_nat (Byte.to_N c)) 64 ltac:(lia)).
    assert (N.to_nat (Byte.to_N b) / 16 < 16)%nat
      by (apply Nat.Div0.div_lt_upper_bound; lia).
    assert (N.to_nat (Byte.to_N c) / 64 < 4)%nat
      by (apply Nat.Div0.div_lt_upper_bound; lia).
    assert (N.to_nat (Byte.to_N a) / 4 < 64)%nat
      by (apply Nat.Div0.div_lt_upper_bound; lia).
    destruct k as [|[|[|[|k]]]];
      cbn [base64 String.substring allChars String.length];
      rewrite ?base64Char_in_alphabet by lia;
      try (split; reflexivity).
    cbn [length] in Hk.
    destruct (IH k ltac:(lia)) as [Hgood Hlen].
    rewrite Hgood, Hlen. split; reflexivity.
Qed.

Lemma allChars_weaken (p q : ascii -> bool) s :
  (forall c, p c = true -> q c = true) ->
  allChars p s = true -> allChars q s = true.
Proof.
  intros Hpq. induction s as [|c s IH]; simpl; [reflexivity|].
  intros H. apply andb_true_iff in H. destruct H as [Hc Hs].
  now rewrite (Hpq c Hc), IH.
Qed.

Lemma isBase64_plain c :
  isBase64 c = true -> isNot "034" c = true /\ isNot "$" c = true.
Proof.
  destruct c as [[] [] [] [] [] [] [] []]; vm_compute; intuition discriminate.
Qed.
End PasswordFacts.

(** X17. A generated password has exactly the length asked for and
    consists of letters, digits, [+] and [/]: the padding of the encoding
    comes after the part that is kept.  In particular it has neither a
    double quote nor a dollar sign, the two characters that the rewrite
    of [config.lua] cannot take. *)
Theorem generated_password_is_plain
        (randomBytes : list Byte.byte) (n : nat) :
  length randomBytes = n ->
  let password := Server.generateRandomPassword randomBytes n in
  String.length password = n
  /\ allChars Server.isBase64 password = true
  /\ ConfigLoader.noQuote password = true
  /\ ConfigLoader.noDollar password = true.
Proof.
  intros Hn password. unfold password, generateRandomPassword.
  destruct (base64_prefix randomBytes n ltac:(lia)) as [Hgood Hlen].
  split; [exact Hlen|]. split; [exact Hgood|].
  split; apply (allChars_weaken isBase64); try exact Hgood;
    intros c Hc; apply isBase64_plain; exact Hc.
Qed.

Lemma generated_password_is_plain_witness :
  String.length
    (Server.generateRandomPassword
       [Byte.xa8; Byte.xe9; Byte.x7d; Byte.x75; Byte.xb7; Byte.x59; Byte.x1c;
        Byte.x5e; Byte.x78; Byte.x8b; Byte.x17; Byte.x5f; Byte.x33; Byte.xdb;
        Byte.x61; Byte.x01; Byte.xfe; Byte.x22; Byte.x24; Byte.x3f] 20) = 20%nat
  /\ allChars Server.isBase64
       (Server.generateRandomPassword
          [Byte.xa8; Byte.xe9; Byte.x7d; Byte.x75; Byte.xb7; Byte.x59; Byte.x1c;
           Byte.x5e; Byte.x78; Byte.x8b; Byte.x17; Byte.x5f; Byte.x33; Byte.xdb;
           Byte.x61; Byte.x01; Byte.xfe; Byte.x22; Byte.x24; Byte.x3f] 20) = true
  /\ ConfigLoader.noQuote
       (Server.generateRandomPassword
          [Byte.xa8; Byte.xe9; Byte.x7d; Byte.x75; Byte.xb7; Byte.x59; Byte.x1c;
           Byte.x5e; Byte.x78; Byte.x8b; Byte.x17; Byte.x5f; Byte.x33; Byte.xdb;
           Byte.x61; Byte.x01; Byte.xfe; Byte.x22; Byte.x24; Byte.x3f] 20) = true
  /\ ConfigLoader.noDollar
       (Server.generateRandomPassword
          [Byte.xa8; Byte.xe9; Byte.x7d; Byte.x75; Byte.xb7; Byte.x59; Byte.x1c;
           Byte.x5e; Byte.x78; Byte.x8b; Byte.x17; Byte.x5f; Byte.x33; Byte.xdb;
           Byte.x61; Byte.x01; Byte.xfe; Byte.x22; Byte.x24; Byte.x3f] 20) = true.
Proof.
  apply (generated_password_is_plain
           [Byte.xa8; Byte.xe9; Byte.x7d; Byte.x75; Byte.xb7; Byte.x59; Byte.x1c;
            Byte.x5e; Byte.x78; Byte.x8b; Byte.x17; Byte.x5f; Byte.x33; Byte.xdb;
            Byte.x61; Byte.x01; Byte.xfe; Byte.x22; Byte.x24; Byte.x3f] 20).
  reflexivity.
Defined.

(* ---------------------------------------------------------------------- *)
(** ** Updates that find nothing to change *)

(** X18. An update of a section that the text of [config.lua] does not
    have leaves the text as it is, writes it and answers [true], and yet
    assigns the new values to the cached configuration, which then
    differs from the file.  An update whose write fails changes nothing
    at all. *)
Theorem update_of_a_missing_section
        (updates : ConfigLoader.Updates) (l : ConfigLoader.Loader) :
  (truthy (ConfigLoader.configContent l) = true ->
   (ConfigLoader.upd_SMTP updates <> None ->
    search (ConfigLoader.sectionPattern "SMTP") (ConfigLoader.configContent l)
    = None) ->
   (ConfigLoader.upd_S3 updates <> None ->
    search (ConfigLoader.sectionPattern "S3") (ConfigLoader.configContent l)
    = None) ->
   ConfigLoader.updateAdvancedSettings updates true l
   = (ConfigLoader.mkLoader
        (ConfigLoader.assignAdvanced updates (ConfigLoader.config l))
        (ConfigLoader.configContent l) (ConfigLoader.configPath l)
        (ConfigLoader.configContent l),
      true))
  /\ ConfigLoader.updateAdvancedSettings updates false l = (l, false)
  /\ (forall email password,
        ConfigLoader.updateSuperuserCredentials email password false l
        = (l, false)).
Proof.
  split; [|split].
  - intros Hcontent Hsmtp Hs3.
    unfold updateAdvancedSettings. rewrite Hcontent. cbn [negb].
    assert (Hsame : rewriteAdvanced updates (configContent l) = configContent l).
    { unfold rewriteAdvanced, rewriteSection.
      destruct (upd_SMTP updates) as [u|].
      - rewrite (Hsmtp ltac:(discriminate)).
        destruct (upd_S3 updates) as [u'|]; [|reflexivity].
        now rewrite (Hs3 ltac:(discriminate)).
      - destruct (upd_S3 updates) as [u'|]; [|reflexivity].
        now rewrite (Hs3 ltac:(discriminate)). }
    now rewrite Hsame.
  - unfold updateAdvancedSettings.
    destruct (negb (truthy (configContent l))); reflexivity.
  - intros email password. unfold updateSuperuserCredentials.
    destruct (negb (truthy (configContent l))); reflexivity.
Qed.

Lemma update_of_a_missing_section_witness :
  ConfigLoader.updateAdvancedSettings (hostOnly "mail.example.com") true
    (mkLoader defaultConfig bareDocument "/srv/pb/config.lua" bareDocument)
  = (mkLoader
       (assignAdvanced (hostOnly "mail.example.com") defaultConfig)
       bareDocument "/srv/pb/config.lua" bareDocument,
     true).
Proof.
  apply (proj1 (update_of_a_missing_section (hostOnly "mail.example.com")
                  (mkLoader defaultConfig bareDocument "/srv/pb/config.lua"
                            bareDocument))).
  - reflexivity.
  - intros _. vm_compute. reflexivity.
  - intros H. exfalso. apply H. reflexivity.
Defined.

(** X19. When the configuration lacks the email or the password,
    [createSuperuser] uses neither: it upserts [admin@<domain>.local],
    for the detected IP or [localhost], with a generated password.  When
    the upsert succeeds these credentials are the ones displayed; they
    become those of the configuration when [config.lua] was loaded and
    can be written, and otherwise the configuration stays as it was and
    the status gets a warning. *)
Theorem createSuperuser_generates_both
        (env : Server.Env) (pbPath : string) (publicIP : option string)
        (w : Server.World) :
  Server.hasConfigCredentials (Server.cfg w) = false ->
  snd (Server.createSuperuser env pbPath publicIP w) = Fulfilled true ->
  let w' := fst (Server.createSuperuser env pbPath publicIP w) in
  let email :=
    ("admin@"
       ++ match publicIP with
          | Some ip => if truthy ip then ip else "localhost"
          | None => "localhost"
          end
       ++ ".local")%string in
  let password := Server.randomPassword env in
  Server.spawned w' =
    Server.spawned w
    ++ [(pbPath, ["superuser"; "upsert"; email; password; "--dir";
                  ConfigLoader.DataDir (ConfigLoader.Advanced (Server.cfg w))])]
  /\ Server.superuserEmail (Server.startupStatus w') = email
  /\ Server.superuserPassword (Server.startupStatus w') = password
  /\ (truthy (ConfigLoader.configContent (Server.loader w)) = true ->
      Server.configWritable env = true ->
      ConfigLoader.Superuser (Server.cfg w')
      = ConfigLoader.mkSuperuser email password
      /\ Server.warnings (Server.startupStatus w')
         = Server.warnings (Server.startupStatus w))
  /\ (truthy (ConfigLoader.configContent (Server.loader w)) = false
      \/ Server.configWritable env = false ->
      Server.loader w' = Server.loader w
      /\ In "Failed to save credentials to config.lua"
            (Server.warnings (Server.startupStatus w'))).
Proof.
  intros Hcred Hok w' email password.
  pose proof (createSuperuser_effect env pbPath publicIP w) as (_ & _ & _ & Hs).
  cbv zeta in Hs. unfold upsertedCredentials in Hs. rewrite Hcred in Hs.
  cbn [fst snd] in Hs.
  split; [exact Hs|]. clear Hs.
  revert Hok. unfold w', createSuperuser. rewrite Hcred. cbn [negb].
  unfold Server.bind, exec, await, ret.
  destruct (spawnWithTimeout _ _ _ _ _) as [|result|reason]; cbn [fst snd];
    try discriminate.
  destruct (_ || _); cbn [fst snd]; [|discriminate].
  intros _. unfold updateSuperuserCredentials.
  cbn [loader record].
  destruct (truthy (configContent (loader w))) eqn:Hcontent; cbn [negb].
  - destruct (configWritable env) eqn:Hwr; cbn;
      repeat split; try reflexivity; try discriminate;
      try (apply in_or_app; right; now left);
      intuition discriminate.
  - cbn. repeat split; try reflexivity; try discriminate;
      try (apply in_or_app; right; now left);
      intuition discriminate.
Qed.

Lemma createSuperuser_generates_both_witness :
  superuserEmail
    (startupStatus
       (fst (createSuperuser exampleEnv "/srv/pb/bin/pocketbase-linux"
               (Some "203.0.113.7") (withConfig emailOnlyConfig))))
  = "admin@203.0.113.7.local".
Proof.
  apply (createSuperuser_generates_both exampleEnv
           "/srv/pb/bin/pocketbase-linux" (Some "203.0.113.7")
           (withConfig emailOnlyConfig)); reflexivity.
Defined.

(* ---------------------------------------------------------------------- *)
(** ** The client: readiness and authentication *)

Import Client.

Section ClientFacts.
Import ProcessUtils ConfigLoader Server Client.

Lemma delaysFrom_app baseDelay maxDelay n : forall a m,
  delaysFrom baseDelay maxDelay a (n + m)
  = delaysFrom baseDelay maxDelay a n
    ++ delaysFrom baseDelay maxDelay (a + Z.of_nat n) m.
Proof.
  induction n as [|n IH]; intros a m.
  - simpl. now rewrite Z.add_0_r.
  - cbn [Nat.add delaysFrom app]. rewrite IH. do 3 f_equal. lia.
Qed.

Lemma delaysFrom_not_negative baseDelay maxDelay n : forall a,
  0 <= baseDelay -> 0 <= maxDelay ->
  0 <= fold_right Z.add 0 (delaysFrom baseDelay maxDelay a n).
Proof.
  induction n as [|n IH]; intros a Hb Hm; [simpl; lia|].
  cbn [delaysFrom fold_right]. specialize (IH (a + 1) Hb Hm).
  assert (0 <= backoffDelay baseDelay maxDelay a).
  { unfold backoffDelay. apply Z.min_glb; [|exact Hm].
    apply Z.mul_nonneg_nonneg; [exact Hb|]. apply Z.pow_nonneg. lia. }
  lia.
Qed.

Lemma sum_app (l l' : list Z) :
  fold_right Z.add 0 (l ++ l') = fold_right Z.add 0 l + fold_right Z.add 0 l'.
Proof. induction l as [|x l IH]; simpl; lia. Qed.

(** The run of the ten attempts of the client. *)
Lemma authentication_run (auth : nat -> Outcome unit string) :
  let run := retryWithBackoff auth 10 100 2000 in
  delays run = delaysFrom 100 2000 1 (Nat.pred (calls run))
  /\ (calls run <= 10)%nat
  /\ match settled run with
     | Resolved _ =>
         exists n, calls run = S n /\ auth n = Returns tt
                   /\ forall i, (i < n)%nat -> exists e, auth i = Throws e
     | Rejected e =>
         calls run = 10%nat
         /\ (forall i, (i < 10)%nat -> exists e', auth i = Throws e')
         /\ exists message, e = Some message
     end.
Proof.
  intros run.
  pose proof (retryLoop_outcome auth 10 100 2000 10 1 None O [] eq_refl) as H.
  cbv zeta in H.
  change (retryLoop auth 10 100 2000 10 1 None 0 []) with run in H.
  destruct (settled run) as [[]|e].
  - destruct H as (n & Hn & Hc & Hret & Hthrow & Hd).
    cbn [Nat.add app] in *. rewrite Hc.
    split; [exact Hd|]. split; [lia|]. exists n. auto.
  - destruct H as (Hc & Hthrow & Hd & e' & _ & ->).
    cbn [Nat.add app] in *. rewrite Hc.
    split; [exact Hd|]. split; [lia|]. split; [reflexivity|].
    split; [exact Hthrow|]. eauto.
Qed.
End ClientFacts.

Section CallbackFacts.
Import Client.
Variable throwsAt : nat -> nat -> option string.

Lemma callAll_returns waiting : forall calls,
  (forall n c, In c waiting -> throwsAt n c = None) ->
  callAll throwsAt waiting calls = (calls ++ waiting, None).
Proof.
  induction waiting as [|c waiting IH]; intros calls Hnone; simpl.
  - now rewrite app_nil_r.
  - rewrite (Hnone _ c (or_introl eq_refl)).
    rewrite IH by (intros n b Hb; apply Hnone; now right).
    now rewrite <- app_assoc.
Qed.


Lemma notifyReady_returns s :
  (forall n c, In c (readyCallbacks s) -> throwsAt n c = None) ->
  notifyReady throwsAt s
  = (mkClient true (isAuthenticated s) [] (called s ++ readyCallbacks s)
              (logged s),
     None).
Proof.
  intros Hnone. unfold notifyReady. now rewrite callAll_returns.
Qed.

End CallbackFacts.



(** X21. Whatever resources register and whenever the client becomes
    ready, no callback is called before the client is ready.  When none
    of the callbacks throws, the callbacks that were called and those
    that still wait are, in this order, the callbacks that were
    registered, so that none is called twice or lost; and once the client
    is ready none waits. *)
Theorem ready_callbacks_run_once
        (throwsAt : nat -> nat -> option string) (ops : list Client.ReadyOp) :
  let s := fold_left (Client.perform throwsAt) ops Client.started in
  (Client.isReady s = true <-> In Client.Notify ops)
  /\ (Client.isReady s = false -> Client.called s = [])
  /\ ((forall n c, In c (Client.registered ops) -> throwsAt n c = None) ->
      Client.called s ++ Client.readyCallbacks s = Client.registered ops
      /\ (Client.isReady s = true -> Client.readyCallbacks s = [])).
Proof.
  assert (Hany : forall ops s,
            (isReady s = false -> called s = []) ->
            let s' := fold_left (perform throwsAt) ops s in
            (isReady s' = true <-> isReady s = true \/ In Notify ops)
            /\ (isReady s' = false -> called s' = [])).
  { clear ops. induction ops as [|op ops IH]; intros s Hn.
    - cbn. split; [|exact Hn]. intuition.
    - cbn [fold_left].
      assert (Hstep :
        (isReady (perform throwsAt s op) = false
         -> called (perform throwsAt s op) = [])
        /\ (isReady (perform throwsAt s op) = true
            <-> isReady s = true \/ op = Notify)).
      { destruct op as [callback|]; cbn [perform].
        - unfold onReady. destruct (isReady s) eqn:Hs;
            cbn [fst isReady called].
          + split; [discriminate|]. intuition.
          + split; [intros _; apply Hn; reflexivity|].
            intuition discriminate.
        - unfold notifyReady.
          destruct (callAll throwsAt (readyCallbacks s) (called s))
            as [calls [message|]]; cbn [fst isReady called];
            (split; [discriminate|]); intuition. }
      destruct Hstep as (Hn' & Hready').
      destruct (IH (perform throwsAt s op) Hn') as (Hready & Hnc).
      split; [|exact Hnc].
      rewrite Hready, Hready'. cbn [In]. intuition congruence. }
  assert (Hquiet : forall ops s,
            (forall n c, In c (readyCallbacks s ++ registered ops) ->
                         throwsAt n c = None) ->
            (isReady s = true -> readyCallbacks s = []) ->
            let s' := fold_left (perform throwsAt) ops s in
            called s' ++ readyCallbacks s'
            = (called s ++ readyCallbacks s) ++ registered ops
            /\ (isReady s' = true -> readyCallbacks s' = [])).
  { clear ops Hany. induction ops as [|op ops IH]; intros s Hnone Hr.
    - cbn. rewrite app_nil_r. split; [reflexivity|exact Hr].
    - cbn [fold_left].
      assert (Hstep :
        (isReady (perform throwsAt s op) = true
         -> readyCallbacks (perform throwsAt s op) = [])
        /\ called (perform throwsAt s op) ++ readyCallbacks (perform throwsAt s op)
           = (called s ++ readyCallbacks s) ++ registered [op]
        /\ (forall c, In c (readyCallbacks (perform throwsAt s op)) ->
                      In c (readyCallbacks s ++ registered [op]))).
      { destruct op as [callback|]; cbn [perform registered flat_map app].
        - unfold onReady. destruct (isReady s) eqn:Hs;
            cbn [fst isReady readyCallbacks called].
          + split; [intros _; apply Hr; reflexivity|].
            split; [now rewrite (Hr eq_refl), !app_nil_r|].
            intros c Hc. apply in_or_app. now left.
          + split; [discriminate|].
            split; [now rewrite app_assoc|]. auto.
        - rewrite notifyReady_returns.
          + cbn [fst isReady readyCallbacks called].
            split; [reflexivity|]. split; [now rewrite !app_nil_r|].
            intros c [].
          + intros n c Hc. apply Hnone. apply in_or_app. now left. }
      destruct Hstep as (Hr' & Hc' & Hsub).
      destruct (IH (perform throwsAt s op)) as (Hc & Hrc).
      { intros n c Hc. apply Hnone.
        apply in_app_or in Hc. destruct Hc as [Hc|Hc].
        - apply Hsub in Hc. apply in_app_or in Hc.
          apply in_or_app. destruct Hc as [Hc|Hc]; [now left|right].
          unfold registered in *. cbn [flat_map] in *.
          apply in_or_app. left. now rewrite app_nil_r in Hc.
        - apply in_or_app. right. unfold registered in *. cbn [flat_map].
          apply in_or_app. now right. }
      { exact Hr'. }
      split; [|exact Hrc].
      rewrite Hc, Hc'. unfold registered.
      destruct op; simpl; now rewrite <- ?app_assoc, ?app_nil_r. }
  intros s.
  destruct (Hany ops started ltac:(reflexivity)) as (Hready & Hnc).
  fold s in Hready, Hnc.
  split; [rewrite Hready; cbn; intuition discriminate|].
  split; [exact Hnc|].
  intros Hnone.
  destruct (Hquiet ops started Hnone ltac:(discriminate)) as (Hc & Hrc).
  split; [exact Hc | exact Hrc].
Qed.

Lemma ready_callbacks_run_once_witness :
  Client.called
    (fold_left (Client.perform Client.allReturn)
               [Client.Register 1%nat; Client.Notify; Client.Register 2%nat]
               Client.started)
  ++ Client.readyCallbacks
       (fold_left (Client.perform Client.allReturn)
                  [Client.Register 1%nat; Client.Notify; Client.Register 2%nat]
                  Client.started)
  = [1; 2]%nat.
Proof.
  apply (proj2 (proj2 (ready_callbacks_run_once Client.allReturn
                         [Client.Register 1%nat; Client.Notify;
                          Client.Register 2%nat]))).
  reflexivity.
Defined.

(** Three callbacks, of which the second throws, registered before the
    client becomes ready: the first and the second are called, the third
    never is, and the three keep waiting. *)
Example ready_callbacks_example :
  let s := fold_left (Client.perform Client.secondThrows)
                     [Client.Register 1%nat; Client.Register 2%nat;
                      Client.Register 3%nat; Client.Notify]
                     Client.started in
  Client.called s = [1; 2]%nat /\ Client.readyCallbacks s = [1; 2; 3]%nat.
Proof. split; reflexivity. Qed.

(** X22. The client and the server together.  When the configuration has
    the credentials and the first five attempts of the client to
    authenticate fail, the client has waited more than 3000 ms before it
    acknowledges.  An acknowledgment that arrives after that time finds
    that the timer of the server has ended the wait with the client
    recorded as not authenticated; when the admin is not exposed the
    status box is drawn at once, with that record and the warning that the
    client failed to authenticate, whatever the acknowledgment says; the
    listener is still registered, and the acknowledgment then overwrites
    the record. *)
Theorem slow_authentication_is_reported_as_failed
        (throwsAt : nat -> nat -> option string)
        (env : Server.Env) (finalUrl : string) (w : Server.World)
        (p : Server.Process)
        (config : ConfigLoader.Config)
        (auth : nat -> ProcessUtils.Outcome unit string)
        (s s' : Client.ClientState) (authenticated : bool) (waited t : Z) :
  Client.onServerReady throwsAt config auth s
  = (s', Some (authenticated, waited)) ->
  Server.hasConfigCredentials config = true ->
  (forall i, (i < 5)%nat -> exists e, auth i = ProcessUtils.Throws e) ->
  waited <= t ->
  In (Server.clientEvents env) (Server.deliveries (Some (t, authenticated))) ->
  Server.pocketbaseProcess w = Some p ->
  Server.processKilled p = false ->
  ConfigLoader.ExposeAdmin (Server.cfg w) = false ->
  let wf := fst (Server.onSettled env finalUrl w) in
  3000 < waited
  /\ Server.clientAuthenticated
       (Server.startupStatus (fst (fst (Server.handshake env finalUrl w))))
     = Some false
  /\ (exists status,
        In (Server.Report status) (Server.trace wf)
        /\ Server.clientAuthenticated status = Some false
        /\ In "Client failed to authenticate - check superuser credentials"
              (Server.warnings status))
  /\ Server.clientAuthenticated (Server.startupStatus wf) = Some authenticated.
Proof.
  intros Hack Hcred Hfail Ht Hev Hp Hk Hexpose wf.
  assert (Hwaited : 3000 < waited).
  { revert Hack. unfold onServerReady, tryAuthenticate, authenticationFailed.
    unfold hasConfigCredentials in Hcred.
    apply andb_true_iff in Hcred. destruct Hcred as [-> ->]. cbn [negb orb].
    destruct (authentication_run auth) as (Hd & Hcalls & Hrun).
    assert (Hmany : (5 <= Nat.pred (calls (retryWithBackoff auth 10 100 2000)))%nat).
    { destruct (settled (retryWithBackoff auth 10 100 2000)) as [[]|e].
      - destruct Hrun as (n & Hc & Hret & _). rewrite Hc. cbn.
        destruct (Nat.lt_ge_cases n 5) as [Hlt|Hge]; [|exact Hge].
        destruct (Hfail n Hlt) as [e He]. congruence.
      - destruct Hrun as (Hc & _). rewrite Hc. cbn. lia. }
    assert (Htotal : 3100 <= totalDelay (retryWithBackoff auth 10 100 2000)).
    { unfold totalDelay. rewrite Hd.
      replace (Nat.pred (calls (retryWithBackoff auth 10 100 2000)))
        with (5 + (Nat.pred (calls (retryWithBackoff auth 10 100 2000)) - 5))%nat
        by lia.
      rewrite delaysFrom_app, sum_app.
      pose proof (delaysFrom_not_negative 100 2000
                    (Nat.pred (calls (retryWithBackoff auth 10 100 2000)) - 5)
                    (1 + Z.of_nat 5) ltac:(lia) ltac:(lia)).
      change (fold_right Z.add 0 (delaysFrom 100 2000 1 5)) with 3100. lia. }
    destruct (settled (retryWithBackoff auth 10 100 2000)) as [[]|[message|]].
    - destruct (notifyReady throwsAt _) as [s1 [thrown|]].
      + destruct (notifyReady throwsAt _) as [s2 [thrown'|]];
          [discriminate|intros [= _ _ <-]; lia].
      + intros [= _ _ <-]. lia.
    - destruct (notifyReady throwsAt _) as [s1 [thrown|]];
        [discriminate|intros [= _ _ <-]; lia].
    - discriminate. }
  assert (Hlate : clientEvents env = [TimeoutFired; ClientReady authenticated]).
  { unfold deliveries in Hev.
    assert (H1 : (t <? 3000) = false) by (apply Z.ltb_ge; lia).
    assert (H2 : (t =? 3000) = false) by (apply Z.eqb_neq; lia).
    rewrite H1, H2 in Hev. destruct Hev as [<-|[]]. reflexivity. }
  split; [exact Hwaited|].
  split; [unfold handshake; rewrite Hlate; reflexivity|].
  unfold wf, onSettled. rewrite Hp, Hk.
  unfold handshake. rewrite Hlate, Hexpose.
  cbn [awaitClientReady handshakeStarted clientReadyPromise onHandshakeEvent
       timerPending resolve andb].
  unfold Server.bind, ret, exec. cbn [fst snd].
  match goal with
  | |- context [scheduleBackups ?w0] =>
      destruct (scheduleBackups_spec w0) as [Hs Htrace];
      destruct (scheduleBackups w0) as [w2 r] eqn:Hrun
  end.
  cbn [fst snd] in *.
  split.
  - match type of Hrun with
    | scheduleBackups (record _ (displayStartupStatus ?w0)) = _ =>
        exists (startupStatus (displayStartupStatus w0))
    end.
    split.
    + rewrite deliver_trace. apply Htrace.
      rewrite trace_record, in_app_iff. left.
      unfold displayStartupStatus. cbn. rewrite in_app_iff. right. now left.
    + split.
      * rewrite displayStartupStatus_clientAuthenticated. reflexivity.
      * unfold displayStartupStatus. cbn. apply in_or_app. right. now left.
  - cbn. reflexivity.
Qed.

Lemma slow_authentication_is_reported_as_failed_witness :
  3000 < 5100
  /\ clientAuthenticated
       (startupStatus
          (fst (fst (handshake slowClientEnv "http://localhost:8090"
                       (fst (startPocketBase slowClientEnv
                               (withConfig provisionedConfig)))))))
     = Some false
  /\ (exists status,
        In (Report status)
           (trace (fst (onSettled slowClientEnv "http://localhost:8090"
                          (fst (startPocketBase slowClientEnv
                                  (withConfig provisionedConfig))))))
        /\ clientAuthenticated status = Some false
        /\ In "Client failed to authenticate - check superuser credentials"
              (warnings status))
  /\ clientAuthenticated
       (startupStatus
          (fst (onSettled slowClientEnv "http://localhost:8090"
                  (fst (startPocketBase slowClientEnv
                          (withConfig provisionedConfig))))))
     = Some true.
Proof.
  apply (slow_authentication_is_reported_as_failed
           Client.allReturn slowClientEnv "http://localhost:8090"
           (fst (startPocketBase slowClientEnv (withConfig provisionedConfig)))
           (mkProcess "/srv/pb/bin/pocketbase-linux"
                      (serveArgs provisionedConfig "127.0.0.1:8090") false)
           provisionedConfig Client.acceptsSeventh Client.started
           (Client.mkClient true true [] [] []) true 5100 5100).
  - reflexivity.
  - reflexivity.
  - intros i Hi. exists "connect ECONNREFUSED". unfold Client.acceptsSeventh.
    destruct (Nat.ltb_spec i 6); [reflexivity|lia].
  - lia.
  - left. reflexivity.
  - reflexivity.
  - reflexivity.
  - reflexivity.
Defined.

(* ---------------------------------------------------------------------- *)
(** ** The status box *)

Section BoxFacts.
Import ConfigLoader Server.
Open Scope string_scope.

Lemma jsLength_append a b : jsLength (a ++ b) = (jsLength a + jsLength b)%nat.
Proof. induction a as [|c a IH]; simpl; [reflexivity|]. rewrite IH. lia. Qed.

Lemma jsLength_repeat s count :
  jsLength (repeatString s count) = (count * jsLength s)%nat.
Proof.
  induction count as [|count IH]; simpl; [reflexivity|].
  rewrite jsLength_append, IH. lia.
Qed.

Lemma stripColors_plain s : noCaret s = true -> stripColors s = s.
Proof.
  unfold noCaret. induction s as [|c s IH]; simpl; [reflexivity|].
  intros H. apply andb_true_iff in H. destruct H as [Hc Hs].
  unfold isNot in Hc. apply negb_true_iff in Hc. rewrite Hc.
  f_equal. now apply IH.
Qed.

Lemma stripColors_after_plain p s :
  noCaret p = true -> stripColors (p ++ s) = p ++ stripColors s.
Proof.
  unfold noCaret. induction p as [|c p IH]; simpl; [reflexivity|].
  intros H. apply andb_true_iff in H. destruct H as [Hc Hp].
  unfold isNot in Hc. apply negb_true_iff in Hc. rewrite Hc.
  f_equal. now apply IH.
Qed.

Lemma stripColors_cons c rest :
  stripColors (String c rest)
  = if Ascii.eqb c "^" then
      match rest with
      | String d rest' =>
          if isDigit d then stripColors rest' else String c (stripColors rest)
      | EmptyString => String c EmptyString
      end
    else String c (stripColors rest).
Proof. reflexivity. Qed.

(** A colour code does not reach over a character that is not a digit. *)
Lemma stripColors_split c r : isDigit c = false ->
  forall a,
    stripColors (a ++ String c r) = stripColors a ++ stripColors (String c r).
Proof.
  intros Hc.
  assert (H : forall a,
            stripColors (a ++ String c r)
            = stripColors a ++ stripColors (String c r)
            /\ forall x,
                 stripColors (String x a ++ String c r)
                 = stripColors (String x a) ++ stripColors (String c r)).
  { induction a as [|d a [IH1 IH2]].
    - split; [reflexivity|]. intros x.
      cbn [append stripColors]. rewrite Hc.
      destruct (Ascii.eqb x "^"); reflexivity.
    - split; [apply IH2|]. intros x.
      change (String x (String d a) ++ String c r)
        with (String x (String d (a ++ String c r))).
      rewrite (stripColors_cons x (String d (a ++ String c r))).
      rewrite (stripColors_cons x (String d a)).
      change (String d (a ++ String c r)) with (String d a ++ String c r).
      destruct (Ascii.eqb x "^").
      + destruct (isDigit d); [exact IH1|].
        rewrite IH2. reflexivity.
      + rewrite IH2. reflexivity. }
  intros a. apply H.
Qed.

Lemma noCaret_repeat s count :
  noCaret s = true -> noCaret (repeatString s count) = true.
Proof.
  unfold noCaret. intros Hs.
  induction count as [|count IH]; simpl; [reflexivity|].
  now rewrite allChars_append, Hs, IH.
Qed.

Lemma maxLength_bound content line :
  In line content -> (visibleLength line <= maxLength content)%nat.
Proof.
  unfold maxLength.
  induction content as [|x content IH]; simpl; [intros []|].
  intros [<-|Hin]; [lia|]. specialize (IH Hin). lia.
Qed.

Lemma border_length left right count :
  noCaret left = true -> noCaret right = true ->
  jsLength left = 1%nat -> jsLength right = 1%nat ->
  visibleLength (left ++ repeatString horizontal count ++ right)
  = (count + 2)%nat.
Proof.
  intros Hl Hr Hll Hlr. unfold visibleLength.
  rewrite stripColors_plain.
  - rewrite !jsLength_append, jsLength_repeat, Hll, Hlr.
    change (jsLength horizontal) with 1%nat. lia.
  - pose proof (noCaret_repeat horizontal count eq_refl) as Hm.
    unfold noCaret in *.
    rewrite !allChars_append, Hl, Hm, Hr. reflexivity.
Qed.

Lemma row_length line width :
  (visibleLength line <= width)%nat ->
  visibleLength (vertical ++ "  " ++ line
                   ++ repeatString " " (width - visibleLength line)
                   ++ "  " ++ vertical)
  = (width + 6)%nat.
Proof.
  intros Hle. unfold visibleLength in *.
  rewrite <- (append_assoc vertical "  ").
  rewrite (stripColors_after_plain (vertical ++ "  ")) by reflexivity.
  assert (Htail : exists r,
            repeatString " " (width - jsLength (stripColors line))
              ++ "  " ++ vertical = String " " r
            /\ noCaret (String " " r) = true
            /\ jsLength (String " " r)
               = (width - jsLength (stripColors line) + 3)%nat).
  { set (k := (width - jsLength (stripColors line))%nat).
    assert (Hplain : noCaret (repeatString " " k ++ "  " ++ vertical) = true).
    { pose proof (noCaret_repeat " " k eq_refl) as Hm.
      unfold noCaret in *. rewrite allChars_append, Hm. reflexivity. }
    assert (Hlen : jsLength (repeatString " " k ++ "  " ++ vertical)
                   = (k + 3)%nat).
    { rewrite jsLength_append, jsLength_repeat.
      change (jsLength " ") with 1%nat.
      change (jsLength ("  " ++ vertical)) with 3%nat. lia. }
    destruct k as [|k]; cbn [repeatString append] in *; eauto. }
  destruct Htail as (r & -> & Hplain & Hlen).
  rewrite stripColors_split by reflexivity.
  rewrite (stripColors_plain _ Hplain).
  rewrite !jsLength_append, Hlen.
  change (jsLength vertical) with 1%nat.
  change (jsLength "  ") with 2%nat. lia.
Qed.
End BoxFacts.

(** X23. The box [displayStartupStatus] logs is aligned, whatever the
    texts of the status are: between the two empty lines there are the
    top border, one row for each line of the content and the bottom
    border, and without their colour codes they all have the same length,
    the longest line of the content and six more. *)
Theorem status_box_is_aligned (w : Server.World) :
  let content :=
    Server.boxContent (Server.startupStatus w)
      (Server.startupStatus (Server.displayStartupStatus w)) in
  exists framed,
    Server.statusBox w = EmptyString :: framed ++ [EmptyString]
    /\ length framed = (length content + 2)%nat
    /\ Forall (fun line =>
                 Server.visibleLength line
                 = (Server.maxLength content + 6)%nat) framed.
Proof.
  intros content. unfold Server.statusBox. fold content.
  unfold Server.drawBox.
  set (width := Server.maxLength content).
  set (row := fun line : string => _).
  exists ((Server.topLeft ++ Server.repeatString Server.horizontal (width + 4)
            ++ Server.topRight)%string
          :: map row content
          ++ [(Server.bottomLeft
                 ++ Server.repeatString Server.horizontal (width + 4)
                 ++ Server.bottomRight)%string]).
  split; [|split].
  - cbn [app]. rewrite <- app_assoc. reflexivity.
  - cbn [length]. rewrite length_app, length_map. cbn [length]. lia.
  - constructor.
    + rewrite border_length by reflexivity. lia.
    + apply Forall_app. split.
      * apply Forall_forall. intros line Hin.
        apply in_map_iff in Hin. destruct Hin as (x & <- & Hin).
        subst row. cbv beta.
        apply row_length. now apply maxLength_bound.
      * constructor; [|constructor].
        rewrite border_length by reflexivity. lia.
Qed.

(** X24. [displayStartupStatus] chooses the title before it adds its own
    warning: when the status has no error and no warning and the client
    failed to authenticate, the box is titled "System Ready", still it
    lists the warning about the authentication under "Warnings:"; a
    second call would be titled "Running with Warnings". *)
Theorem title_is_chosen_before_the_warning (w : Server.World) :
  Server.errors (Server.startupStatus w) = [] ->
  Server.warnings (Server.startupStatus w) = [] ->
  Server.clientAuthenticated (Server.startupStatus w) = Some false ->
  let w' := Server.displayStartupStatus w in
  let content :=
    Server.boxContent (Server.startupStatus w) (Server.startupStatus w') in
  hd EmptyString content
  = Server.green (Server.checkMark ++ "  PocketBase - System Ready")%string
  /\ In (Server.white "Status:  " ++ " "
           ++ Server.red (Server.ballotX ++ " Authentication Failed"))%string
        content
  /\ In (Server.yellow (Server.warningSign ++ "  Warnings:"))%string content
  /\ In (Server.yellow ("   " ++ Server.bullet ++ " ") ++ " "
           ++ "Client failed to authenticate - check superuser credentials")%string
        content
  /\ Server.boxTitle (Server.startupStatus w')
     = Server.yellow
         (Server.warningSign ++ "  PocketBase - Running with Warnings")%string.
Proof.
  intros Herrors Hwarnings Hauth w' content.
  assert (Hw' : Server.warnings (Server.startupStatus w')
                = ["Client failed to authenticate - check superuser credentials"%string]
                /\ Server.errors (Server.startupStatus w') = []).
  { subst w'. unfold Server.displayStartupStatus. rewrite Hauth.
    cbn. rewrite Hwarnings, Herrors. split; reflexivity. }
  destruct Hw' as [Hw' He'].
  subst content. unfold Server.boxContent, Server.boxTitle, Server.healthLine.
  rewrite Herrors, Hwarnings, Hauth, Hw', He'.
  cbn [length Nat.ltb Nat.leb app hd map].
  split; [reflexivity|].
  split; [|split; [|split; [|reflexivity]]].
  - do 4 right. apply in_or_app. right. left. reflexivity.
  - do 4 right. apply in_or_app. right. right.
    apply in_or_app. right. right. left. reflexivity.
  - do 4 right. apply in_or_app. right. right.
    apply in_or_app. right. right. right. left. reflexivity.
Qed.

Lemma title_is_chosen_before_the_warning_witness :
  Server.boxTitle
    (Server.startupStatus
       (Server.setClientAuthenticated (Some false)
          (Server.withConfig Server.provisionedConfig)))
  = Server.green (Server.checkMark ++ "  PocketBase - System Ready")%string
  /\ Server.boxTitle
       (Server.startupStatus
          (Server.displayStartupStatus
             (Server.setClientAuthenticated (Some false)
                (Server.withConfig Server.provisionedConfig))))
     = Server.yellow
         (Server.warningSign ++ "  PocketBase - Running with Warnings")%string.
Proof.
  split; [reflexivity|].
  apply (title_is_chosen_before_the_warning
           (Server.setClientAuthenticated (Some false)
              (Server.withConfig Server.provisionedConfig)));
    reflexivity.
Defined.

(* ---------------------------------------------------------------------- *)
(** ** Settings written back to [config.lua] *)

Section SettingsFacts.
Import ConfigLoader Server.

Lemma differsText_same v : differsText (Some v) v = false.
Proof. simpl. now rewrite String.eqb_refl. Qed.

Lemma differsNumber_same v : differsNumber (Some v) v = false.
Proof. simpl. now rewrite Z.eqb_refl. Qed.

Lemma smtp_settles c settings :
  comparable settings = true ->
  smtpChanges (assignSMTP (smtpChanges c settings) c) settings = None.
Proof.
  unfold comparable, smtpChanges. intros H.
  apply andb_true_iff in H. destruct H as [H _].
  destruct (smtp settings) as [s|]; [|reflexivity].
  destruct (smtp_host s) as [host|]; [|discriminate].
  destruct (smtp_port s) as [port|]; [|discriminate].
  destruct (smtp_username s) as [username|]; [|discriminate].
  destruct (smtp_password s) as [password|]; [|discriminate].
  apply negb_true_iff in H.
  destruct (SMTP_Enabled c && _) eqn:Hchanged.
  - apply andb_true_iff in Hchanged. destruct Hchanged as [Henabled _].
    cbn [assignSMTP orElse new_Host new_Port new_Username new_Password
         new_LocalName new_TLS SMTP_Enabled SMTP_Host SMTP_Port
         SMTP_Username SMTP_Password orEmpty orDefaultPort].
    rewrite H, Henabled, !differsText_same, differsNumber_same. reflexivity.
  - cbn [assignSMTP]. rewrite Hchanged. reflexivity.
Qed.

Lemma s3_settles c settings :
  comparable settings = true ->
  s3Changes (assignS3 (s3Changes c settings) c) settings = None.
Proof.
  unfold comparable, s3Changes. intros H.
  apply andb_true_iff in H. destruct H as [_ H].
  destruct (s3 settings) as [s|]; [|reflexivity].
  destruct (s3_bucket s) as [bucket|]; [|discriminate].
  destruct (s3_region s) as [region|]; [|discriminate].
  destruct (s3_endpoint s) as [endpoint|]; [|discriminate].
  destruct (s3_accessKey s) as [accessKey|]; [|discriminate].
  destruct (s3_secret s) as [secret|]; [|discriminate].
  destruct (S3_Enabled c && _) eqn:Hchanged.
  - apply andb_true_iff in Hchanged. destruct Hchanged as [Henabled _].
    cbn [assignS3 orElse new_Bucket new_Region new_Endpoint new_AccessKey
         new_SecretKey new_ForcePathStyle S3_Enabled S3_Bucket S3_Region
         S3_Endpoint S3_AccessKey S3_SecretKey orEmpty].
    rewrite Henabled, !differsText_same. reflexivity.
  - cbn [assignS3]. rewrite Hchanged. reflexivity.
Qed.

Lemma assignSMTP_enabled u c : SMTP_Enabled (assignSMTP u c) = SMTP_Enabled c.
Proof. destruct u; reflexivity. Qed.

Lemma assignS3_enabled u c : S3_Enabled (assignS3 u c) = S3_Enabled c.
Proof. destruct u; reflexivity. Qed.

(** What one call does, when the client answers. *)
Lemma syncSettingsToConfig_answered env settings w :
  clientReady (backend w) = true ->
  let advanced := Advanced (cfg w) in
  let updates :=
    mkUpdates (smtpChanges (SMTP advanced) settings)
              (s3Changes (S3 advanced) settings) in
  syncSettingsToConfig env (Fulfilled settings) w
  = if (negb (SMTP_Enabled (SMTP advanced))
        && negb (S3_Enabled (S3 advanced)))
       || match upd_SMTP updates, upd_S3 updates with
          | None, None => true
          | _, _ => false
          end
    then (w, Fulfilled tt)
    else (record (Log "info"
                      "Config.lua updated with latest PocketBase settings")
                 (withLoader
                    (fst (updateAdvancedSettings updates (configWritable env)
                            (loader w))) w),
          Fulfilled tt).
Proof.
  intros Hready advanced updates.
  unfold syncSettingsToConfig. fold advanced.
  destruct (negb (SMTP_Enabled (SMTP advanced))
            && negb (S3_Enabled (S3 advanced))); [reflexivity|].
  unfold tryCatch, Server.bind, pbInternalGetSettings. rewrite Hready.
  fold advanced. fold updates. cbn [orb].
  destruct (updateAdvancedSettings updates (configWritable env) (loader w))
    as [l updated].
  destruct (upd_SMTP updates), (upd_S3 updates); reflexivity.
Qed.
End SettingsFacts.

(** X25. Writing the settings back settles: when the client is ready, the
    file is loaded and can be written, and the settings carry the
    properties that are compared, with a port that is not 0, then after
    one [syncSettingsToConfig] a second one with the same settings writes
    nothing, logs nothing and leaves everything as it is. *)
Theorem syncSettingsToConfig_settles
    (env : Env) (settings : Settings) (w : World) :
  clientReady (backend w) = true ->
  configWritable env = true ->
  truthy (configContent (loader w)) = true ->
  comparable settings = true ->
  let w1 := fst (syncSettingsToConfig env (Fulfilled settings) w) in
  syncSettingsToConfig env (Fulfilled settings) w1 = (w1, Fulfilled tt).
Proof.
  intros Hready Hwritable Hloaded Hcomparable w1.
  assert (Hstep : (w1 = w
                   /\ ((negb (SMTP_Enabled (SMTP (Advanced (cfg w))))
                        && negb (S3_Enabled (S3 (Advanced (cfg w)))))
                       || match smtpChanges (SMTP (Advanced (cfg w))) settings,
                                s3Changes (S3 (Advanced (cfg w))) settings with
                          | None, None => true
                          | _, _ => false
                          end) = true)
                  \/ (clientReady (backend w1) = true
                      /\ SMTP (Advanced (cfg w1))
                         = assignSMTP
                             (smtpChanges (SMTP (Advanced (cfg w))) settings)
                             (SMTP (Advanced (cfg w)))
                      /\ S3 (Advanced (cfg w1))
                         = assignS3
                             (s3Changes (S3 (Advanced (cfg w))) settings)
                             (S3 (Advanced (cfg w))))).
  { subst w1. rewrite (syncSettingsToConfig_answered env settings w Hready).
    cbv zeta. cbn [upd_SMTP upd_S3].
    destruct (_ || _) eqn:Hquiet; [left; split; reflexivity|].
    right. unfold updateAdvancedSettings.
    rewrite Hloaded, Hwritable. cbn [negb fst].
    split; [exact Hready|]. split; reflexivity. }
  destruct Hstep as [[-> Hquiet]|(Hready1 & Hsmtp & Hs3)].
  - rewrite (syncSettingsToConfig_answered env settings w Hready).
    cbv zeta. cbn [upd_SMTP upd_S3]. rewrite Hquiet. reflexivity.
  - rewrite (syncSettingsToConfig_answered env settings w1 Hready1).
    cbv zeta. cbn [upd_SMTP upd_S3].
    rewrite Hsmtp, Hs3, smtp_settles, s3_settles by exact Hcomparable.
    rewrite orb_true_r. reflexivity.
Qed.

Lemma syncSettingsToConfig_settles_witness :
  syncSettingsToConfig exampleEnv (Fulfilled mailSettings)
    (fst (syncSettingsToConfig exampleEnv (Fulfilled mailSettings) mailWorld))
  = (fst (syncSettingsToConfig exampleEnv (Fulfilled mailSettings) mailWorld),
     Fulfilled tt).
Proof.
  apply (syncSettingsToConfig_settles exampleEnv mailSettings mailWorld);
    reflexivity.
Defined.

(** In the example the first call takes the host, the port and the
    account of the backend into the configuration and into the section of
    the file, where a later [load] finds them. *)
Example syncSettingsToConfig_example :
  let w := fst (syncSettingsToConfig exampleEnv (Fulfilled mailSettings)
                  mailWorld) in
  SMTP (Advanced (cfg mailWorld)) = mkSMTP true "" 587 "" "" "" true
  /\ SMTP (Advanced (cfg w))
     = mkSMTP true "mail.example.com" 465 "postmaster" "hunter2" "" true
  /\ SMTP (Advanced (config (fst (load "/srv/pb"
                                      (FileContent (configContent (loader w)))
                                      None))))
     = SMTP (Advanced (cfg w))
  /\ trace w
     = [Log "info" "Config.lua updated with latest PocketBase settings"].
Proof. vm_compute. repeat split; reflexivity. Qed.

(** X26. When the settings differ from the configuration and
    [config.lua] cannot be written, [syncSettingsToConfig] leaves the
    configuration and the text of the file as they were and does not
    fail; what it logs is that Config.lua was updated. *)
Theorem failed_write_is_logged_as_an_update
    (env : Env) (settings : Settings) (w : World) :
  clientReady (backend w) = true ->
  configWritable env = false ->
  (smtpChanges (SMTP (Advanced (cfg w))) settings <> None
   \/ s3Changes (S3 (Advanced (cfg w))) settings <> None) ->
  syncSettingsToConfig env (Fulfilled settings) w
  = (record (Log "info" "Config.lua updated with latest PocketBase settings")
       w,
     Fulfilled tt).
Proof.
  intros Hready Hwritable Hchanged.
  rewrite (syncSettingsToConfig_answered env settings w Hready).
  cbv zeta. cbn [upd_SMTP upd_S3].
  assert (Hl : fst (updateAdvancedSettings
                      (mkUpdates (smtpChanges (SMTP (Advanced (cfg w))) settings)
                                 (s3Changes (S3 (Advanced (cfg w))) settings))
                      (configWritable env) (loader w)) = loader w).
  { unfold updateAdvancedSettings. rewrite Hwritable.
    destruct (negb (truthy (configContent (loader w)))); reflexivity. }
  rewrite Hl.
  assert (Hsame : withLoader (loader w) w = w) by (destruct w; reflexivity).
  rewrite Hsame.
  assert (Henabled : negb (SMTP_Enabled (SMTP (Advanced (cfg w))))
                     && negb (S3_Enabled (S3 (Advanced (cfg w)))) = false).
  { destruct (SMTP_Enabled (SMTP (Advanced (cfg w)))) eqn:Hsmtp;
      [reflexivity|].
    destruct (S3_Enabled (S3 (Advanced (cfg w)))) eqn:Hs3;
      [reflexivity|].
    exfalso. unfold smtpChanges, s3Changes in Hchanged.
    rewrite Hsmtp, Hs3 in Hchanged.
    destruct (smtp settings), (s3 settings), Hchanged as [H|H];
      apply H; reflexivity. }
  rewrite Henabled. cbn [orb].
  destruct (smtpChanges _ settings), (s3Changes _ settings);
    try reflexivity.
  destruct Hchanged as [H|H]; exfalso; apply H; reflexivity.
Qed.

Lemma failed_write_is_logged_as_an_update_witness :
  syncSettingsToConfig readOnlyEnv (Fulfilled mailSettings) mailWorld
  = (record (Log "info" "Config.lua updated with latest PocketBase settings")
       mailWorld,
     Fulfilled tt).
Proof.
  apply (failed_write_is_logged_as_an_update readOnlyEnv mailSettings
           mailWorld).
  - reflexivity.
  - reflexivity.
  - left. discriminate.
Defined.
